(** * Outlet CRM tool server: the seven tool handlers and their three transports

    A shallow embedding of [src/index.ts] (standard-stream transport),
    [src/server.ts] (HTTP transport) and the event-stream variant
    ([unnamed/part_000]), together with a model of the relational backend the
    handlers talk to, and the properties of the handlers stated over it.

    Conventions.
    - A JavaScript number is an IEEE binary64 value: Rocq's primitive [float].
    - A JavaScript string is a Rocq [string] with the same code units; code
      units above 255 are outside the model.
    - A JavaScript object used as a dictionary is a [gmap string _].
    - [undefined] is [None] of an [option]; JSON [null] is [JNull].
    - A row counter ([count], [position]) is a [nat] or a [Z]. *)

From Stdlib Require Import ZArith Floats Ascii String.
From stdpp Require Import gmap strings list fin_maps sorting pretty.

Set Warnings "-register-all".
Local Open Scope string_scope.

(* ===================================================================== *)
(** * JavaScript values *)
(* ===================================================================== *)

Module JS.

(** A JSON value, as it comes off the wire or out of a [jsonb] column. *)
Inductive JSON : Type :=
| JNull
| JBool (b : bool)
| JNum (f : float)
| JStr (s : string)
| JArr (l : list JSON)
| JObj (m : gmap string JSON).

(** [ToBoolean] on a number: [+0], [-0] and [NaN] are falsy. *)
Definition truthy_num (f : float) : bool :=
  negb (PrimFloat.is_zero f || PrimFloat.is_nan f).

(** [ToBoolean] on a string: only the empty string is falsy. *)
Definition truthy_str (s : string) : bool :=
  match s with EmptyString => false | String _ _ => true end.

(** [ToBoolean] on a JSON value. *)
Definition truthy (v : JSON) : bool :=
  match v with
  | JNull => false
  | JBool b => b
  | JNum f => truthy_num f
  | JStr s => truthy_str s
  | JArr _ => true
  | JObj _ => true
  end.

(** [ToBoolean] on a value that may be [undefined]. *)
Definition truthy_opt (v : option JSON) : bool :=
  match v with None => false | Some v => truthy v end.

(** [s || d] for a string that may be [undefined]. *)
Definition str_or (s : option string) (d : string) : string :=
  match s with
  | Some s => if truthy_str s then s else d
  | None => d
  end.

(** [n || d] for a number that may be [undefined]. *)
Definition num_or (n : option float) (d : float) : float :=
  match n with
  | Some f => if truthy_num f then f else d
  | None => d
  end.

(** [c || 0] for a row count that may be [null]. *)
Definition count_or_zero (c : option nat) : nat :=
  match c with
  | Some (S n) => S n
  | Some O => 0
  | None => 0
  end.

(** The names every object literal inherits from [Object.prototype]: a lookup
    [o[k]] on a plain object finds them although [o] does not own them. *)
Definition object_prototype_keys : list string :=
  [ "constructor"; "__defineGetter__"; "__defineSetter__"; "hasOwnProperty";
    "__lookupGetter__"; "__lookupSetter__"; "isPrototypeOf";
    "propertyIsEnumerable"; "toString"; "valueOf"; "__proto__";
    "toLocaleString" ].

Definition inherited (k : string) : bool :=
  bool_decide (k ∈ object_prototype_keys).

(** ** String to number ([StringToNumber] of ECMA-262) *)

Definition is_white (c : ascii) : bool :=
  let n := nat_of_ascii c in
  bool_decide (n ∈ [9; 10; 11; 12; 13; 32; 160]%nat).

Fixpoint drop_white (l : list ascii) : list ascii :=
  match l with
  | c :: r => if is_white c then drop_white r else l
  | [] => []
  end.

Definition trim (l : list ascii) : list ascii :=
  rev (drop_white (rev (drop_white l))).

(** The value of a digit in a base up to 16, if it is one. *)
Definition digit_val (base : Z) (c : ascii) : option Z :=
  let n := Z.of_nat (nat_of_ascii c) in
  let d :=
    if (48 <=? n)%Z && (n <=? 57)%Z then Some (n - 48)%Z
    else if (97 <=? n)%Z && (n <=? 102)%Z then Some (n - 87)%Z
    else if (65 <=? n)%Z && (n <=? 70)%Z then Some (n - 55)%Z
    else None in
  match d with
  | Some d => if (d <? base)%Z then Some d else None
  | None => None
  end.

(** Reads the longest run of digits: the number read so far, how many digits
    were read, and what is left. *)
Fixpoint read_digits (base : Z) (l : list ascii) (acc : Z) (n : nat)
  : Z * nat * list ascii :=
  match l with
  | c :: r =>
      match digit_val base c with
      | Some d => read_digits base r (acc * base + d)%Z (S n)
      | None => (acc, n, l)
      end
  | [] => (acc, n, [])
  end.

(** The binary64 value nearest to [m * 10^e] (ties to even), for [m >= 0]. *)
Definition round_decimal (neg : bool) (m e : Z) : float :=
  match m with
  | Z0 => if neg then PrimFloat.neg_zero else PrimFloat.zero
  | Zneg _ => PrimFloat.nan
  | Zpos p =>
      if (0 <=? e)%Z
      then SF2Prim (binary_normalize prec emax
                      (if neg then - (m * 10 ^ e) else m * 10 ^ e)%Z 0 false)
      else SF2Prim (SFdiv prec emax (S754_finite neg p 0)
                      (S754_finite false (Z.to_pos (10 ^ (- e))) 0))
  end.

(** [ExponentPart], optional: the exponent and nothing left, or no parse. *)
Definition read_exponent (l : list ascii) : option Z :=
  match l with
  | [] => Some 0%Z
  | c :: r =>
      if bool_decide (c = "e"%char) || bool_decide (c = "E"%char) then
        let '(neg, r) :=
          match r with
          | s :: r' =>
              if bool_decide (s = "-"%char) then (true, r')
              else if bool_decide (s = "+"%char) then (false, r')
              else (false, r)
          | [] => (false, r)
          end in
        match read_digits 10 r 0 0 with
        | (x, S _, []) => Some (if neg then - x else x)%Z
        | _ => None
        end
      else None
  end.

(** [StrUnsignedDecimalLiteral] other than [Infinity]. *)
Definition read_unsigned_decimal (neg : bool) (l : list ascii) : float :=
  let '(i, ni, r) := read_digits 10 l 0 0 in
  let '(m, nf, r, dot) :=
    match r with
    | c :: r' =>
        if bool_decide (c = "."%char)
        then let '(m, nf, r'') := read_digits 10 r' i 0 in (m, nf, r'', true)
        else (i, 0%nat, r, false)
    | [] => (i, 0%nat, r, false)
    end in
  match ni, nf with
  | O, O => PrimFloat.nan
  | _, _ =>
      match read_exponent r with
      | Some x => round_decimal neg m (x - Z.of_nat nf)
      | None => PrimFloat.nan
      end
  end.

Definition read_decimal (l : list ascii) : float :=
  let '(neg, r) :=
    match l with
    | c :: r =>
        if bool_decide (c = "-"%char) then (true, r)
        else if bool_decide (c = "+"%char) then (false, r)
        else (false, l)
    | [] => (false, l)
    end in
  if bool_decide (r = list_ascii_of_string "Infinity")
  then (if neg then PrimFloat.neg_infinity else PrimFloat.infinity)
  else read_unsigned_decimal neg r.

(** [NonDecimalIntegerLiteral]: [0x], [0o] and [0b] prefixes, unsigned. *)
Definition read_prefixed (l : list ascii) : option float :=
  match l with
  | z :: p :: r =>
      if bool_decide (z = "0"%char) then
        let base :=
          if bool_decide (p = "x"%char) || bool_decide (p = "X"%char) then Some 16%Z
          else if bool_decide (p = "o"%char) || bool_decide (p = "O"%char) then Some 8%Z
          else if bool_decide (p = "b"%char) || bool_decide (p = "B"%char) then Some 2%Z
          else None in
        match base with
        | Some b =>
            match read_digits b r 0 0 with
            | (x, S _, []) => Some (round_decimal false x 0)
            | _ => Some PrimFloat.nan
            end
        | None => None
        end
      else None
  | _ => None
  end.

Definition StringToNumber (s : string) : float :=
  match trim (list_ascii_of_string s) with
  | [] => PrimFloat.zero
  | l =>
      match read_prefixed l with
      | Some f => f
      | None => read_decimal l
      end
  end.

(** ** [Number(value)]

    An array converts through its string: the empty array is [""], a
    one-element array is its element's string ([""] for [null]), and a longer
    one has a comma in it, which no numeric literal has. A number prints to a
    string that reads back as the same number, except that [-0] prints as
    ["0"]. *)
Fixpoint Number (v : JSON) : float :=
  match v with
  | JNull => PrimFloat.zero
  | JBool b => if b then PrimFloat.one else PrimFloat.zero
  | JNum f => f
  | JStr s => StringToNumber s
  | JArr [] => PrimFloat.zero
  | JArr [x] =>
      match x with
      | JNull => PrimFloat.zero
      | JBool _ => PrimFloat.nan
      | JNum f => if PrimFloat.is_zero f then PrimFloat.zero else f
      | JStr s => StringToNumber s
      | JArr _ => Number x
      | JObj _ => PrimFloat.nan
      end
  | JArr _ => PrimFloat.nan
  | JObj _ => PrimFloat.nan
  end.

End JS.

Import JS.

(* ===================================================================== *)
(** * Runtime validation (the [zod] schemas' building blocks) *)
(* ===================================================================== *)

Module Zod.

(** What a failed [parse] reports: where, and which constraint. *)
Inductive ZodIssue : Type :=
| invalid_type (path : list string) (expected received : string)
| invalid_string (path : list string) (validation : string).

(** The string format checks of the validation library ([.uuid()], [.email()]):
    regular expressions of the library, taken as given. *)
Class Formats : Type := {
  is_uuid : string → bool;
  is_email : string → bool
}.

(** The runtime type the library sees ([getParsedType]). *)
Definition parsed_type (v : option JSON) : string :=
  match v with
  | None => "undefined"
  | Some JNull => "null"
  | Some (JBool _) => "boolean"
  | Some (JNum f) => if PrimFloat.is_nan f then "nan" else "number"
  | Some (JStr _) => "string"
  | Some (JArr _) => "array"
  | Some (JObj _) => "object"
  end.

(** A parser of one value at a path: the issues found, or the parsed value. *)
Definition Parser (A : Type) : Type :=
  list string → option JSON → list ZodIssue + A.

(** [z.string()] *)
Definition z_string : Parser string := λ path v,
  match v with
  | Some (JStr s) => inr s
  | _ => inl [invalid_type path "string" (parsed_type v)]
  end.

(** [z.string().uuid()] *)
Definition z_uuid `{Formats} : Parser string := λ path v,
  match z_string path v with
  | inr s => if is_uuid s then inr s else inl [invalid_string path "uuid"]
  | inl e => inl e
  end.

(** [z.string().email()] *)
Definition z_email `{Formats} : Parser string := λ path v,
  match z_string path v with
  | inr s => if is_email s then inr s else inl [invalid_string path "email"]
  | inl e => inl e
  end.

(** [z.number()] *)
Definition z_number : Parser float := λ path v,
  match v with
  | Some (JNum f) =>
      if PrimFloat.is_nan f then inl [invalid_type path "number" "nan"]
      else inr f
  | _ => inl [invalid_type path "number" (parsed_type v)]
  end.

(** [z.record(z.unknown())]: any object, its values unconstrained. What is
    parsed is a new object, filled key by key, and the library leaves the key
    [__proto__] out of it. *)
Definition z_record : Parser (gmap string JSON) := λ path v,
  match v with
  | Some (JObj m) => inr (delete "__proto__" m)
  | _ => inl [invalid_type path "object" (parsed_type v)]
  end.

(** [.optional()]: [undefined] passes. *)
Definition z_optional {A} (p : Parser A) : Parser (option A) := λ path v,
  match v with
  | None => inr None
  | Some _ => match p path v with inr a => inr (Some a) | inl e => inl e end
  end.

(** [.optional().default(d)]: [undefined] becomes [d]. *)
Definition z_default {A} (p : Parser A) (d : A) : Parser A := λ path v,
  match v with
  | None => inr d
  | Some _ => p path v
  end.

(** One key of a [z.object]: the parser runs on the property, at its path. *)
Definition field {A} (m : gmap string JSON) (k : string) (p : Parser A)
  : list ZodIssue + A :=
  p [k] (m !! k).

(** The fields of a [z.object] are all parsed, and their issues collected in
    the order of the shape. *)
Definition ap {A B} (f : list ZodIssue + (A → B)) (x : list ZodIssue + A)
  : list ZodIssue + B :=
  match f, x with
  | inr f, inr x => inr (f x)
  | inl e1, inl e2 => inl (e1 ++ e2)%list
  | inl e, inr _ => inl e
  | inr _, inl e => inl e
  end.

(** [z.object(shape)]: the input has to be an object; unknown keys are
    dropped. *)
Definition z_object {A} (shape : gmap string JSON → list ZodIssue + A)
  (args : option JSON) : list ZodIssue + A :=
  match args with
  | Some (JObj m) => shape m
  | _ => inl [invalid_type [] "object" (parsed_type args)]
  end.

End Zod.

Import Zod.

(* ===================================================================== *)
(** * The relational backend, as the handlers use it *)
(* ===================================================================== *)

Module Supabase.

(** The backend is a service of its own; what is here is what the handlers
    rely on. A table with a primary key is a map from the key; the other two
    are lists in table order. A request is answered from the tables as they
    are, and is recorded. A request fails where the client library or the
    service say so for the queries used: [.single()] on other than one row, a
    [limit] that is no row count, an [or] filter the service cannot read, an
    insert the service refuses.

    A request can also fail for a reason of its own (the service is not
    reached, times out, refuses the key): the client then answers
    [{ data: null, error, count: null }] and the tables are as they were.
    Where a handler throws on that error, or on the data that is missing,
    such a failure ends the call there and nothing else happens. Where a
    handler goes on without a look at [error], it goes on with the [null];
    the reads some handler awaits in that way (the stage id of a slug, the
    custom fields of a lead, the leads of a stage counted, the rows of the
    statistics, the rows of a resource) are modelled with this failure too,
    the other requests are answered. *)

(** ** Tables *)

(** A row of [pipeline_stages]; the key of the table is its [id]. *)
Record Stage : Type := {
  stage_slug : string;
  stage_name : string;
  stage_color : string;
  stage_position : Z
}.

(** A row of [leads]; the key of the table is its [id]. *)
Record Lead : Type := {
  lead_name : option string;
  lead_phone : option string;
  lead_email : option string;
  lead_stage_id : option string;
  lead_vendedor_id : option string;
  lead_custom_fields : JSON;
  lead_notes : option string;
  lead_position : Z;
  lead_created_at : Z
}.

(** A row of [profiles] (the sellers); the key of the table is its [id]. *)
Record Profile : Type := {
  full_name : string;
  role : string
}.

(** A row of [price_catalog]. *)
Record PriceEntry : Type := {
  entry_id : string;
  product_name : string;
  description : string;
  category : string;
  active : bool;
  price_fields : gmap string JSON
}.

(** A row of [lead_history]. *)
Record HistoryEntry : Type := {
  history_id : string;
  history_lead_id : string;
  history_change : string;
  history_changed_by : option string;
  history_created_at : Z
}.

Record DB : Type := {
  pipeline_stages : gmap string Stage;
  leads : gmap string Lead;
  profiles : gmap string Profile;
  price_catalog : list PriceEntry;
  lead_history : list HistoryEntry;
  clock : Z
}.

(** ** Requests and responses *)

Inductive Verb : Type := GET | HEAD | POST | PATCH.

(** One request sent to the backend. *)
Record Call : Type := { call_verb : Verb; call_table : string }.

(** The backend, the requests it has received, latest first, and what is to
    become of the requests to come, the next one first: [Some message] for a
    request that fails for a reason of its own, with that message; [None],
    and anything past the end of the list, for a request that is served.
    Every request takes its entry off the list; the reads that are modelled
    with such a failure heed it. *)
Record World : Type := {
  db : DB;
  trace : list Call;
  faults : list (option string)
}.

(** What awaiting a query yields: [{ data, error, count }]. *)
Record PgResp (A : Type) : Type := {
  data : option A;
  error : option string;
  count : option nat
}.
Arguments data {A} _.
Arguments error {A} _.
Arguments count {A} _.

Definition ok {A} (x : A) : PgResp A :=
  {| data := Some x; error := None; count := None |}.
Definition failed {A} (message : string) : PgResp A :=
  {| data := None; error := Some message; count := None |}.

Definition Query (A : Type) : Type := World → PgResp A * World.

Definition sent (v : Verb) (t : string) (w : World) : World :=
  {| db := db w; trace := {| call_verb := v; call_table := t |} :: trace w;
     faults := tail (faults w) |}.

(** The same requests, received and to come, over other tables. *)
Definition with_db (d : DB) (w : World) : World :=
  {| db := d; trace := trace w; faults := faults w |}.

(** The failure of the [n]-th of the requests to come, if it is to fail. *)
Definition fault_at (n : nat) (w : World) : option string :=
  match faults w !! n with
  | Some (Some message) => Some message
  | _ => None
  end.

(** The failure of the next request. *)
Definition fault (w : World) : option string := fault_at 0 w.

(** A read that can fail for a reason of its own: it is answered from the
    tables unless it is to fail. *)
Definition fetch {A} (v : Verb) (table : string) (answer : DB → PgResp A)
  : Query A := λ w,
  (match fault w with
   | Some message => failed message
   | None => answer (db w)
   end,
   sent v table w).

(** [.single()]: exactly one row, or an error and no data. *)
Definition single {A} (rows : list A) : PgResp A :=
  match rows with
  | [r] => ok r
  | _ => failed "JSON object requested, multiple (or no) rows returned"
  end.

(** The object [insert] is given for a new lead. *)
Record LeadInsert : Type := {
  ins_name : option string;
  ins_phone : option string;
  ins_email : option string;
  ins_stage_id : string;
  ins_vendedor_id : option string;
  ins_custom_fields : JSON;
  ins_notes : option string;
  ins_position : Z
}.

(** What the backend decides on its own: how it reads the text of an [or]
    filter over the catalog (no reading: the request is refused), and whether
    it refuses a new lead (constraints, triggers), with which message. *)
Class Policy : Type := {
  or_filter : string → option (PriceEntry → bool);
  insert_check : DB → LeadInsert → option string
}.

(** ** Joined columns *)

(** The columns of the stage a select embeds; [None] for a column the select
    does not name. *)
Record StageCols : Type := {
  sc_name : string;
  sc_slug : string;
  sc_color : option string;
  sc_position : option Z
}.

(** Which stage columns a select embeds under [stage]. *)
Inductive StageSelect : Type :=
| NoStage
| NameSlug
| NameSlugColor
| NameSlugColorPosition.

(** An embedded resource: not asked for, or the related row ([null] when there
    is none). *)
Inductive Embedded (A : Type) : Type :=
| NotSelected
| Related (r : option A).
Arguments NotSelected {A}.
Arguments Related {A} _.

Record LeadRow : Type := {
  row_id : string;
  row_lead : Lead;
  row_stage : Embedded StageCols;
  row_vendedor : Embedded Profile
}.

Record HistoryRow : Type := {
  hr_entry : HistoryEntry;
  hr_changed_by : option Profile
}.

Definition stage_cols (sel : StageSelect) (s : Stage) : StageCols :=
  match sel with
  | NoStage | NameSlug =>
      {| sc_name := stage_name s; sc_slug := stage_slug s;
         sc_color := None; sc_position := None |}
  | NameSlugColor =>
      {| sc_name := stage_name s; sc_slug := stage_slug s;
         sc_color := Some (stage_color s); sc_position := None |}
  | NameSlugColorPosition =>
      {| sc_name := stage_name s; sc_slug := stage_slug s;
         sc_color := Some (stage_color s);
         sc_position := Some (stage_position s) |}
  end.

Definition join_stage (sel : StageSelect) (d : DB) (l : Lead)
  : Embedded StageCols :=
  match sel with
  | NoStage => NotSelected
  | _ =>
      Related (sid ← lead_stage_id l;
               s ← pipeline_stages d !! sid;
               Some (stage_cols sel s))
  end.

Definition join_vendedor (sel : bool) (d : DB) (l : Lead) : Embedded Profile :=
  if sel then Related (vid ← lead_vendedor_id l; profiles d !! vid)
  else NotSelected.

Definition lead_row (sel : StageSelect) (vend : bool) (d : DB)
  (kv : string * Lead) : LeadRow :=
  {| row_id := kv.1; row_lead := kv.2;
     row_stage := join_stage sel d kv.2;
     row_vendedor := join_vendedor vend d kv.2 |}.

(** ** Ordering and limit *)

Fixpoint insert_desc {A} (key : A → Z) (x : A) (l : list A) : list A :=
  match l with
  | [] => [x]
  | y :: r => if (key y <=? key x)%Z then x :: l else y :: insert_desc key x r
  end.

(** [.order(column, { ascending: false })]: greatest key first, rows of equal
    key in table order. *)
Definition order_desc {A} (key : A → Z) (l : list A) : list A :=
  foldr (insert_desc key) [] l.

(** The row count a [limit] stands for: the number has to print as a plain
    non-negative integer (below [1e21] a number prints without exponent). *)
Definition limit_rows (f : float) : option Z :=
  match Prim2SF f with
  | S754_zero _ => Some 0%Z
  | S754_finite false m e =>
      let n := if (0 <=? e)%Z then (Zpos m * 2 ^ e)%Z
               else (Zpos m / 2 ^ (- e))%Z in
      if ((0 <=? e)%Z || (Zpos m mod 2 ^ (- e) =? 0)%Z) && (n <? 10 ^ 21)%Z
      then Some n else None
  | _ => None
  end.

(** [.limit(n)]: the first [n] rows; a limit the backend cannot read as a row
    count fails the request. *)
Definition limited {A} (f : float) (rows : list A) : PgResp (list A) :=
  match limit_rows f with
  | Some n => ok (take (Z.to_nat (Z.min n (Z.of_nat (length rows)))) rows)
  | None => failed "invalid limit"
  end.

(** [`${value}`] of a filter value that may be [undefined]. *)
Definition filter_text (v : option string) : string :=
  match v with Some s => s | None => "undefined" end.

(** ** The queries the handlers send *)

Definition set_leads (ls : gmap string Lead) (d : DB) : DB :=
  {| pipeline_stages := pipeline_stages d; leads := ls;
     profiles := profiles d; price_catalog := price_catalog d;
     lead_history := lead_history d; clock := clock d |}.

Definition stages_by_slug (slug : string) (d : DB) : list (string * Stage) :=
  filter (λ kv, stage_slug kv.2 = slug) (map_to_list (pipeline_stages d)).

Definition leads_in_stage (stage_id : string) (d : DB) : list (string * Lead) :=
  filter (λ kv, lead_stage_id kv.2 = Some stage_id) (map_to_list (leads d)).

(** [from("pipeline_stages").select("id, name").eq("slug", slug).single()],
    which [update_lead_stage] awaits: its error is read in [index.ts] and in
    [server.ts], and all three throw when there is no data. *)
Definition select_stage (slug : string) : Query (string * Stage) := λ w,
  (single (stages_by_slug slug (db w)), sent GET "pipeline_stages" w).

(** [from("pipeline_stages").select("id").eq("slug", slug).single()], which
    [get_leads] and [create_lead] await: no handler reads its error. *)
Definition select_stage_id (slug : string) : Query string :=
  fetch GET "pipeline_stages" (λ d, single (stages_by_slug slug d).*1).

(** The filters of a select on [leads]; the backend filters, then orders, then
    limits, in whatever order the builder was given them. *)
Record LeadsQuery : Type := {
  q_limit : float;
  q_stage_id : option string;
  q_vendedor_id : option string
}.

Definition eq_stage_id (s : string) (q : LeadsQuery) : LeadsQuery :=
  {| q_limit := q_limit q; q_stage_id := Some s;
     q_vendedor_id := q_vendedor_id q |}.

Definition eq_vendedor_id (v : string) (q : LeadsQuery) : LeadsQuery :=
  {| q_limit := q_limit q; q_stage_id := q_stage_id q;
     q_vendedor_id := Some v |}.

(** [.eq(column, value)], when the filter was added. *)
Definition eq_filter (value column : option string) : bool :=
  match value with
  | Some v => bool_decide (column = Some v)
  | None => true
  end.

Definition lead_matches (q : LeadsQuery) (kv : string * Lead) : bool :=
  eq_filter (q_stage_id q) (lead_stage_id kv.2) &&
  eq_filter (q_vendedor_id q) (lead_vendedor_id kv.2).

(** [from("leads").select(`*, stage:..., vendedor:...`)
      .order("created_at", { ascending: false }).limit(n)[.eq(...)]] *)
Definition select_leads (q : LeadsQuery) : Query (list LeadRow) := λ w,
  (limited (q_limit q)
     (lead_row NameSlugColor true (db w) <$>
        order_desc (λ kv, lead_created_at kv.2)
          (filter (λ kv, lead_matches q kv) (map_to_list (leads (db w))))),
   sent GET "leads" w).

(** [from("leads").update(patch).eq("id", id).select(...).single()]: the row
    is changed when there is one, and comes back with the stage it now has. *)
Definition update_lead (id : string) (patch : Lead → Lead) (sel : StageSelect)
  : Query LeadRow := λ w,
  match leads (db w) !! id with
  | Some l =>
      let d := set_leads (<[id := patch l]> (leads (db w))) (db w) in
      (ok (lead_row sel false d (id, patch l)),
       sent PATCH "leads" (with_db d w))
  | None => (single [], sent PATCH "leads" w)
  end.

Definition set_stage_id (sid : string) (l : Lead) : Lead :=
  {| lead_name := lead_name l; lead_phone := lead_phone l;
     lead_email := lead_email l; lead_stage_id := Some sid;
     lead_vendedor_id := lead_vendedor_id l;
     lead_custom_fields := lead_custom_fields l; lead_notes := lead_notes l;
     lead_position := lead_position l; lead_created_at := lead_created_at l |}.

Definition set_custom_fields (cf : JSON) (l : Lead) : Lead :=
  {| lead_name := lead_name l; lead_phone := lead_phone l;
     lead_email := lead_email l; lead_stage_id := lead_stage_id l;
     lead_vendedor_id := lead_vendedor_id l;
     lead_custom_fields := cf; lead_notes := lead_notes l;
     lead_position := lead_position l; lead_created_at := lead_created_at l |}.

(** [from("leads").select("custom_fields").eq("id", id).single()]: the row's
    [custom_fields]. Only [index.ts] reads its error. *)
Definition select_custom_fields (id : string) : Query JSON :=
  fetch GET "leads"
    (λ d, single (match leads d !! id with
                  | Some l => [lead_custom_fields l]
                  | None => []
                  end)).

(** [from("leads").select("*", { count: "exact", head }).eq("stage_id", id)]:
    with [head] the rows are counted and not returned. No handler reads its
    error; a count that fails is [null]. *)
Definition count_leads (stage_id : string) (head : bool)
  : Query (list LeadRow) :=
  fetch (if head then HEAD else GET) "leads"
    (λ d, let rows := leads_in_stage stage_id d in
          {| data := if head then None
                     else Some (lead_row NoStage false d <$> rows);
             error := None;
             count := Some (length rows) |}).

(** [from("leads").insert(row).select().single()]: the backend gives the row
    its [id] and its [created_at]. *)
Definition insert_lead `{Policy} (r : LeadInsert) : Query LeadRow := λ w,
  match insert_check (db w) r with
  | Some message => (failed message, sent POST "leads" w)
  | None =>
      let id := fresh (dom (leads (db w))) in
      let l := {| lead_name := ins_name r; lead_phone := ins_phone r;
                  lead_email := ins_email r;
                  lead_stage_id := Some (ins_stage_id r);
                  lead_vendedor_id := ins_vendedor_id r;
                  lead_custom_fields := ins_custom_fields r;
                  lead_notes := ins_notes r;
                  lead_position := ins_position r;
                  lead_created_at := clock (db w) |} in
      let d := {| pipeline_stages := pipeline_stages (db w);
                  leads := <[id := l]> (leads (db w));
                  profiles := profiles (db w);
                  price_catalog := price_catalog (db w);
                  lead_history := lead_history (db w);
                  clock := (clock (db w) + 1)%Z |} in
      (ok (lead_row NoStage false d (id, l)),
       sent POST "leads" (with_db d w))
  end.

(** The filters of a select on [price_catalog]. *)
Record CatalogQuery : Type := {
  c_limit : float;
  c_or : option string;
  c_category : option string
}.

Definition entry_matches (p : PriceEntry → bool) (c : option string)
  (e : PriceEntry) : bool :=
  active e && p e && eq_filter c (Some (category e)).

(** [from("price_catalog").select("*").eq("active", true).limit(n)
      [.or(text)][.eq("category", c)]] *)
Definition select_catalog `{Policy} (q : CatalogQuery)
  : Query (list PriceEntry) := λ w,
  (match c_or q with
   | Some text =>
       match or_filter text with
       | Some p =>
           limited (c_limit q)
             (filter (λ e, entry_matches p (c_category q) e)
                (price_catalog (db w)))
       | None => failed "failed to parse logic tree"
       end
   | None =>
       limited (c_limit q)
         (filter (λ e, entry_matches (λ _, true) (c_category q) e)
            (price_catalog (db w)))
   end,
   sent GET "price_catalog" w).

(** [from("lead_history").select(`*, changed_by:profiles(full_name)`)
      .eq("lead_id", id).order("created_at", { ascending: false })] *)
Definition select_history (id : string) : Query (list HistoryRow) := λ w,
  (ok ((λ h, {| hr_entry := h;
                hr_changed_by := a ← history_changed_by h; profiles (db w) !! a |})
         <$> order_desc history_created_at
               (filter (λ h, history_lead_id h = id) (lead_history (db w)))),
   sent GET "lead_history" w).

(** A row of the statistics select. *)
Record StatsRow : Type := {
  st_stage_id : option string;
  st_custom_fields : JSON;
  st_stage : option StageCols
}.

Definition stats_row (sel : StageSelect) (d : DB) (kv : string * Lead)
  : StatsRow :=
  {| st_stage_id := lead_stage_id kv.2;
     st_custom_fields := lead_custom_fields kv.2;
     st_stage := sid ← lead_stage_id kv.2;
                 s ← pipeline_stages d !! sid;
                 Some (stage_cols sel s) |}.

(** [from("leads").select(`stage_id, custom_fields, stage:...`)]. Only
    [index.ts] reads its error. *)
Definition select_stats (sel : StageSelect) : Query (list StatsRow) :=
  fetch GET "leads" (λ d, ok (stats_row sel d <$> map_to_list (leads d))).

End Supabase.

Import Supabase.

(* ===================================================================== *)
(** * Handlers: results, exceptions, sequencing *)
(* ===================================================================== *)

(** An entry of the statistics: [{ count, total_value, stage_name }]. *)
Record StageStats : Type := {
  stat_count : nat;
  total_value : float;
  stage_name_of : option string
}.

(** What a handler returns, before it is serialised. *)
Inductive ToolResult : Type :=
| LeadList (rows : option (list LeadRow))
| Success (message : option string) (lead : option LeadRow)
| Catalog (rows : option (list PriceEntry))
| History (rows : option (list HistoryRow))
| Stats (stats : gmap string StageStats).

(** What a handler throws. *)
Inductive Exn : Type :=
| Error (message : string)
| TypeError (message : string)
| ZodError (issues : list ZodIssue).

(** A handler runs against the backend, and returns or throws; what it did to
    the backend before throwing stays done. *)
Definition M (A : Type) : Type := World → (Exn + A) * World.

#[global] Instance M_ret : MRet M := λ A x w, (inr x, w).
#[global] Instance M_bind : MBind M := λ A B f m w,
  match m w with
  | (inr x, w') => f x w'
  | (inl e, w') => (inl e, w')
  end.

Definition throw {A} (e : Exn) : M A := λ w, (inl e, w).

(** [await query] *)
Definition await {A} (q : Query A) : M (PgResp A) := λ w,
  let '(r, w') := q w in (inr r, w').

(** [Schema.parse(args)] *)
Definition parse {A} (schema : option JSON → list ZodIssue + A)
  (args : option JSON) : M A :=
  match schema args with
  | inr p => mret p
  | inl issues => throw (ZodError issues)
  end.

(** The seven tools. *)
Inductive Tool : Type :=
| get_leads
| update_lead_stage
| update_lead_custom_fields
| create_lead
| search_price_catalog
| get_lead_history
| get_pipeline_stats.

Definition tool_name (t : Tool) : string :=
  match t with
  | get_leads => "get_leads"
  | update_lead_stage => "update_lead_stage"
  | update_lead_custom_fields => "update_lead_custom_fields"
  | create_lead => "create_lead"
  | search_price_catalog => "search_price_catalog"
  | get_lead_history => "get_lead_history"
  | get_pipeline_stats => "get_pipeline_stats"
  end.

Definition all_tools : list Tool :=
  [ get_leads; update_lead_stage; update_lead_custom_fields; create_lead;
    search_price_catalog; get_lead_history; get_pipeline_stats ].

(** The tool a name is the name of. *)
Definition tool_of_name (name : string) : option Tool :=
  head (filter (λ t, tool_name t = name) all_tools).

(** ** What the handlers share *)

(** The own enumerable properties a spread [...v] copies: those of an object,
    the elements of an array and the characters of a string under their
    indices, nothing for the other values. *)
Definition indexed {A} (l : list A) : gmap string A :=
  list_to_map (imap (λ i x, (pretty i, x)) l).

Definition spread (v : option JSON) : gmap string JSON :=
  match v with
  | Some (JObj m) => m
  | Some (JArr l) => indexed l
  | Some (JStr s) =>
      indexed ((λ c, JStr (String c EmptyString)) <$> list_ascii_of_string s)
  | _ => ∅
  end.

(** [v || {}] *)
Definition or_empty (v : option JSON) : JSON :=
  if truthy_opt v then default JNull v else JObj ∅.

(** [{ ...(old || {}), ...update }]: the keys of [update] win. *)
Definition merge_fields (old update : option JSON) : gmap string JSON :=
  spread update ∪ spread (Some (or_empty old)).

(** [(lead.custom_fields as any)?.valor_estimado] *)
Definition valor_estimado (cf : JSON) : option JSON :=
  match cf with
  | JObj m => m !! "valor_estimado"
  | _ => None
  end.

(** The body of the loop of [getPipelineStats]. [stats] is an object literal,
    so [stats[slug]] also finds what [Object.prototype] has under that name:
    for such a slug no entry is made, and the increments land on the inherited
    value, not in [stats]. *)
Definition stats_step (stats : gmap string StageStats) (lead : StatsRow)
  : gmap string StageStats :=
  let slug := str_or (sc_slug <$> st_stage lead) "unknown" in
  let stats :=
    match stats !! slug with
    | Some _ => stats
    | None =>
        if inherited slug then stats
        else <[slug := {| stat_count := 0; total_value := PrimFloat.zero;
                          stage_name_of := sc_name <$> st_stage lead |}]> stats
    end in
  match stats !! slug with
  | None => stats
  | Some s =>
      let s := {| stat_count := S (stat_count s);
                  total_value := total_value s;
                  stage_name_of := stage_name_of s |} in
      let value := valor_estimado (st_custom_fields lead) in
      let s :=
        if truthy_opt value
        then {| stat_count := stat_count s;
                total_value :=
                  PrimFloat.add (total_value s) (Number (default JNull value));
                stage_name_of := stage_name_of s |}
        else s in
      <[slug := s]> stats
  end.

(** [for (const lead of data || []) { ... }] *)
Definition aggregate (rows : option (list StatsRow)) : gmap string StageStats :=
  foldl stats_step ∅ (default [] rows).

(** The string when it is truthy: what [if (s) { ... s ... }] goes on with. *)
Definition given (s : option string) : option string :=
  match s with
  | Some s => if truthy_str s then Some s else None
  | None => None
  end.

Definition dquote : string := String (ascii_of_nat 34) EmptyString.

(** The text of a tool response. *)
Inductive Text : Type :=
| Stringified (r : ToolResult)   (* JSON.stringify(result, null, 2) *)
| ErrorObject (e : Exn)          (* JSON.stringify({ error: e.message }) *)
| ErrorString (e : Exn).         (* String(e) *)

(** [{ content: [{ type: "text", text }], isError }] *)
Record CallToolResult : Type := {
  content_text : Text;
  isError : bool
}.

(* ===================================================================== *)
(** * The input schemas of [index.ts] and of the event-stream variant

    Both files declare the same six schemas (they differ in the description
    strings only). *)
(* ===================================================================== *)

Module Schemas.

Record GetLeadsParams : Type := {
  gl_stage_slug : option string;
  gl_vendedor_id : option string;
  gl_limit : float
}.

Record UpdateLeadStageParams : Type := {
  uls_lead_id : string;
  uls_new_stage_slug : string
}.

Record UpdateLeadCustomFieldsParams : Type := {
  ucf_lead_id : string;
  ucf_custom_fields : gmap string JSON
}.

Record CreateLeadParams : Type := {
  cl_name : string;
  cl_phone : option string;
  cl_email : option string;
  cl_stage_slug : string;
  cl_vendedor_id : string;
  cl_custom_fields : option (gmap string JSON);
  cl_notes : option string
}.

Record SearchPriceCatalogParams : Type := {
  sp_query : string;
  sp_category : option string;
  sp_limit : float
}.

Record GetLeadHistoryParams : Type := {
  gh_lead_id : string
}.

Section schemas.
Context {fmt : Formats}.

Local Notation "f <@> x" := (ap f x) (at level 61, left associativity).

Definition GetLeadsSchema : option JSON → list ZodIssue + GetLeadsParams :=
  z_object (λ m,
    inr Build_GetLeadsParams
      <@> field m "stage_slug" (z_optional z_string)
      <@> field m "vendedor_id" (z_optional z_uuid)
      <@> field m "limit" (z_default z_number 50%float)).

Definition UpdateLeadStageSchema
  : option JSON → list ZodIssue + UpdateLeadStageParams :=
  z_object (λ m,
    inr Build_UpdateLeadStageParams
      <@> field m "lead_id" z_uuid
      <@> field m "new_stage_slug" z_string).

Definition UpdateLeadCustomFieldsSchema
  : option JSON → list ZodIssue + UpdateLeadCustomFieldsParams :=
  z_object (λ m,
    inr Build_UpdateLeadCustomFieldsParams
      <@> field m "lead_id" z_uuid
      <@> field m "custom_fields" z_record).

Definition CreateLeadSchema : option JSON → list ZodIssue + CreateLeadParams :=
  z_object (λ m,
    inr Build_CreateLeadParams
      <@> field m "name" z_string
      <@> field m "phone" (z_optional z_string)
      <@> field m "email" (z_optional z_email)
      <@> field m "stage_slug" (z_default z_string "lead")
      <@> field m "vendedor_id" z_uuid
      <@> field m "custom_fields" (z_optional z_record)
      <@> field m "notes" (z_optional z_string)).

Definition SearchPriceCatalogSchema
  : option JSON → list ZodIssue + SearchPriceCatalogParams :=
  z_object (λ m,
    inr Build_SearchPriceCatalogParams
      <@> field m "query" z_string
      <@> field m "category" (z_optional z_string)
      <@> field m "limit" (z_default z_number 10%float)).

Definition GetLeadHistorySchema
  : option JSON → list ZodIssue + GetLeadHistoryParams :=
  z_object (λ m,
    inr Build_GetLeadHistoryParams
      <@> field m "lead_id" z_uuid).

End schemas.

End Schemas.

Import Schemas.

(* ===================================================================== *)
(** * [src/index.ts]: the standard-stream server *)
(* ===================================================================== *)

Module Stdio.
Section handlers.
Context {fmt : Formats} {pol : Policy}.

Definition getLeads (params : GetLeadsParams) : M ToolResult :=
  let query := {| q_limit := num_or (Some (gl_limit params)) 50%float;
                  q_stage_id := None; q_vendedor_id := None |} in
  query ← match given (gl_stage_slug params) with
          | Some slug =>
              r ← await (select_stage_id slug);
              match data r with
              | Some stage => mret (eq_stage_id stage query)
              | None => mret query
              end
          | None => mret query
          end;
  let query := match given (gl_vendedor_id params) with
               | Some v => eq_vendedor_id v query
               | None => query
               end in
  r ← await (select_leads query);
  match error r with
  | Some message => throw (Error ("Failed to fetch leads: " ++ message))
  | None => mret (LeadList (data r))
  end.

Definition updateLeadStage (params : UpdateLeadStageParams) : M ToolResult :=
  r ← await (select_stage (uls_new_stage_slug params));
  match error r, data r with
  | None, Some stage =>
      u ← await (update_lead (uls_lead_id params) (set_stage_id stage.1)
                   NameSlug);
      match error u with
      | Some message => throw (Error ("Failed to update lead: " ++ message))
      | None =>
          mret (Success (Some ("Lead moved to " ++ stage_name stage.2))
                  (data u))
      end
  | _, _ => throw (Error ("Stage not found: " ++ uls_new_stage_slug params))
  end.

Definition updateLeadCustomFields (params : UpdateLeadCustomFieldsParams)
  : M ToolResult :=
  r ← await (select_custom_fields (ucf_lead_id params));
  match error r with
  | Some _ => throw (Error ("Lead not found: " ++ ucf_lead_id params))
  | None =>
      match data r with
      | None =>
          throw (TypeError
                   "Cannot read properties of null (reading 'custom_fields')")
      | Some current =>
          let mergedFields :=
            merge_fields (Some current)
              (Some (JObj (ucf_custom_fields params))) in
          u ← await (update_lead (ucf_lead_id params)
                       (set_custom_fields (JObj mergedFields)) NoStage);
          match error u with
          | Some message =>
              throw (Error ("Failed to update custom fields: " ++ message))
          | None => mret (Success (Some "Custom fields updated") (data u))
          end
      end
  end.

Definition createLead (params : CreateLeadParams) : M ToolResult :=
  r ← await (select_stage_id (str_or (Some (cl_stage_slug params)) "lead"));
  match data r with
  | None => throw (Error ("Stage not found: " ++ cl_stage_slug params))
  | Some stage =>
      c ← await (count_leads stage true);
      i ← await (insert_lead
                   {| ins_name := Some (cl_name params);
                      ins_phone := cl_phone params;
                      ins_email := cl_email params;
                      ins_stage_id := stage;
                      ins_vendedor_id := Some (cl_vendedor_id params);
                      ins_custom_fields :=
                        or_empty (JObj <$> cl_custom_fields params);
                      ins_notes := cl_notes params;
                      ins_position := Z.of_nat (count_or_zero (count c)) |});
      match error i with
      | Some message => throw (Error ("Failed to create lead: " ++ message))
      | None =>
          mret (Success
                  (Some ("Lead " ++ dquote ++ cl_name params ++ dquote
                         ++ " created successfully"))
                  (data i))
      end
  end.

Definition searchPriceCatalog (params : SearchPriceCatalogParams)
  : M ToolResult :=
  let query := {| c_limit := num_or (Some (sp_limit params)) 10%float;
                  c_or := None; c_category := None |} in
  let query :=
    match given (Some (sp_query params)) with
    | Some q =>
        {| c_limit := c_limit query;
           c_or := Some ("product_name.ilike.%" ++ q
                         ++ "%,description.ilike.%" ++ q
                         ++ "%,category.ilike.%" ++ q ++ "%");
           c_category := c_category query |}
    | None => query
    end in
  let query :=
    match given (sp_category params) with
    | Some c => {| c_limit := c_limit query; c_or := c_or query;
                   c_category := Some c |}
    | None => query
    end in
  r ← await (select_catalog query);
  match error r with
  | Some message => throw (Error ("Failed to search catalog: " ++ message))
  | None => mret (Catalog (data r))
  end.

Definition getLeadHistory (params : GetLeadHistoryParams) : M ToolResult :=
  r ← await (select_history (gh_lead_id params));
  match error r with
  | Some message => throw (Error ("Failed to fetch history: " ++ message))
  | None => mret (History (data r))
  end.

Definition getPipelineStats : M ToolResult :=
  r ← await (select_stats NameSlugColorPosition);
  match error r with
  | Some message => throw (Error ("Failed to fetch stats: " ++ message))
  | None => mret (Stats (aggregate (data r)))
  end.

(** The [switch (name)] of the [CallToolRequestSchema] handler. *)
Definition dispatch (name : string) (args : option JSON) : M ToolResult :=
  match tool_of_name name with
  | Some get_leads => parse GetLeadsSchema args ≫= getLeads
  | Some update_lead_stage =>
      parse UpdateLeadStageSchema args ≫= updateLeadStage
  | Some update_lead_custom_fields =>
      parse UpdateLeadCustomFieldsSchema args ≫= updateLeadCustomFields
  | Some create_lead => parse CreateLeadSchema args ≫= createLead
  | Some search_price_catalog =>
      parse SearchPriceCatalogSchema args ≫= searchPriceCatalog
  | Some get_lead_history =>
      parse GetLeadHistorySchema args ≫= getLeadHistory
  | Some get_pipeline_stats => getPipelineStats
  | None => throw (Error ("Unknown tool: " ++ name))
  end.

(** The [CallToolRequestSchema] handler: [try { ... } catch (error) { ... }]. *)
Definition CallToolRequest (name : string) (args : option JSON)
  : World → CallToolResult * World := λ w,
  match dispatch name args w with
  | (inr result, w') =>
      ({| content_text := Stringified result; isError := false |}, w')
  | (inl e, w') =>
      ({| content_text := ErrorObject e; isError := true |}, w')
  end.

End handlers.
End Stdio.

(* ===================================================================== *)
(** * [src/server.ts]: the HTTP server *)
(* ===================================================================== *)

Module Http.

(** The handlers' parameters as they arrive: the request body is not checked,
    so any of the declared fields may be missing. *)
Record GetLeadsParams : Type := {
  gl_stage_slug : option string;
  gl_vendedor_id : option string;
  gl_limit : option float
}.

Record UpdateLeadStageParams : Type := {
  uls_lead_id : option string;
  uls_new_stage_slug : option string
}.

Record UpdateLeadCustomFieldsParams : Type := {
  ucf_lead_id : option string;
  ucf_custom_fields : option JSON
}.

Record CreateLeadParams : Type := {
  cl_name : option string;
  cl_phone : option string;
  cl_email : option string;
  cl_stage_slug : option string;
  cl_vendedor_id : option string;
  cl_custom_fields : option JSON;
  cl_notes : option string
}.

Record SearchPriceCatalogParams : Type := {
  sp_query : option string;
  sp_category : option string;
  sp_limit : option float
}.

Record GetLeadHistoryParams : Type := {
  gh_lead_id : option string
}.

(** The body of a response. *)
Inductive HttpBody : Type :=
| RpcTools (tools : list (string * string))
    (* { jsonrpc, result: { tools: [{ name, description }] } } *)
| RpcContent (r : ToolResult)
    (* { jsonrpc, result: { content: [{ type: "text", text: stringify(r) }] } } *)
| DirectResult (r : ToolResult)      (* { success: true, result: r } *)
| Refused (message : string)         (* { error: message } *)
| Caught (e : Exn).                  (* { error: e.message } *)

Record HttpResponse : Type := {
  status : nat;
  body : HttpBody
}.

(** The body of a [POST /mcp], as far as the route reads it. *)
Record CallParams : Type := {
  cp_name : string;
  cp_arguments : option JSON
}.

Record McpBody : Type := {
  mcp_method : option string;
  mcp_params : option CallParams;
  mcp_tool : option string;
  mcp_arguments : option JSON
}.

(** What [TOOLS[name]] finds: [TOOLS] is an object literal, so a name that
    [Object.prototype] has is found as well, and what is found there has no
    [handler]. *)
Inductive Lookup : Type :=
| Own (t : Tool)
| Inherited
| Missing.

Definition TOOLS (name : string) : Lookup :=
  match tool_of_name name with
  | Some t => Own t
  | None => if inherited name then Inherited else Missing
  end.

Definition description (t : Tool) : string :=
  match t with
  | get_leads => "Get leads from pipeline"
  | update_lead_stage => "Move lead to stage"
  | update_lead_custom_fields => "Update custom fields"
  | create_lead => "Create new lead"
  | search_price_catalog => "Search prices"
  | get_lead_history => "Get lead history"
  | get_pipeline_stats => "Get pipeline stats"
  end.

(** ** Reading the parameters off the request

    The handlers are written against their declared parameter types. Here a
    field is read when it is missing or has the declared primitive type; a
    body with a field of another type is outside what is modelled ([None]).
    [custom_fields] is read as it is: every use of it is defined on any
    value. *)

(** [args.k]; none of the parameter names is a property a string, an array,
    a number or a boolean has. *)
Definition prop (args : JSON) (k : string) : option JSON :=
  match args with
  | JObj m => m !! k
  | _ => None
  end.

Definition as_string (v : option JSON) : option (option string) :=
  match v with
  | None => Some None
  | Some (JStr s) => Some (Some s)
  | Some _ => None
  end.

Definition as_number (v : option JSON) : option (option float) :=
  match v with
  | None => Some None
  | Some (JNum f) => Some (Some f)
  | Some _ => None
  end.

Definition read_GetLeads (args : JSON) : option GetLeadsParams :=
  s ← as_string (prop args "stage_slug");
  v ← as_string (prop args "vendedor_id");
  l ← as_number (prop args "limit");
  Some {| gl_stage_slug := s; gl_vendedor_id := v; gl_limit := l |}.

Definition read_UpdateLeadStage (args : JSON) : option UpdateLeadStageParams :=
  i ← as_string (prop args "lead_id");
  s ← as_string (prop args "new_stage_slug");
  Some {| uls_lead_id := i; uls_new_stage_slug := s |}.

Definition read_UpdateLeadCustomFields (args : JSON)
  : option UpdateLeadCustomFieldsParams :=
  i ← as_string (prop args "lead_id");
  Some {| ucf_lead_id := i; ucf_custom_fields := prop args "custom_fields" |}.

Definition read_CreateLead (args : JSON) : option CreateLeadParams :=
  n ← as_string (prop args "name");
  p ← as_string (prop args "phone");
  e ← as_string (prop args "email");
  s ← as_string (prop args "stage_slug");
  v ← as_string (prop args "vendedor_id");
  o ← as_string (prop args "notes");
  Some {| cl_name := n; cl_phone := p; cl_email := e; cl_stage_slug := s;
          cl_vendedor_id := v; cl_custom_fields := prop args "custom_fields";
          cl_notes := o |}.

Definition read_SearchPriceCatalog (args : JSON)
  : option SearchPriceCatalogParams :=
  q ← as_string (prop args "query");
  c ← as_string (prop args "category");
  l ← as_number (prop args "limit");
  Some {| sp_query := q; sp_category := c; sp_limit := l |}.

Definition read_GetLeadHistory (args : JSON) : option GetLeadHistoryParams :=
  i ← as_string (prop args "lead_id");
  Some {| gh_lead_id := i |}.

Section handlers.
Context {pol : Policy}.

Definition getLeads (params : GetLeadsParams) : M ToolResult :=
  let query := {| q_limit := num_or (gl_limit params) 50%float;
                  q_stage_id := None; q_vendedor_id := None |} in
  query ← match given (gl_stage_slug params) with
          | Some slug =>
              r ← await (select_stage_id slug);
              match data r with
              | Some stage => mret (eq_stage_id stage query)
              | None => mret query
              end
          | None => mret query
          end;
  let query := match given (gl_vendedor_id params) with
               | Some v => eq_vendedor_id v query
               | None => query
               end in
  r ← await (select_leads query);
  match error r with
  | Some message => throw (Error message)
  | None => mret (LeadList (data r))
  end.

Definition updateLeadStage (params : UpdateLeadStageParams) : M ToolResult :=
  r ← await (select_stage (filter_text (uls_new_stage_slug params)));
  match error r, data r with
  | None, Some stage =>
      u ← await (update_lead (filter_text (uls_lead_id params))
                   (set_stage_id stage.1) NameSlug);
      match error u with
      | Some message => throw (Error message)
      | None =>
          mret (Success (Some ("Lead moved to " ++ stage_name stage.2))
                  (data u))
      end
  | _, _ =>
      throw (Error ("Stage not found: "
                    ++ filter_text (uls_new_stage_slug params)))
  end.

Definition updateLeadCustomFields (params : UpdateLeadCustomFieldsParams)
  : M ToolResult :=
  r ← await (select_custom_fields (filter_text (ucf_lead_id params)));
  let merged := merge_fields (data r) (ucf_custom_fields params) in
  u ← await (update_lead (filter_text (ucf_lead_id params))
               (set_custom_fields (JObj merged)) NoStage);
  match error u with
  | Some message => throw (Error message)
  | None => mret (Success None (data u))
  end.

Definition createLead (params : CreateLeadParams) : M ToolResult :=
  r ← await (select_stage_id (str_or (cl_stage_slug params) "lead"));
  match data r with
  | None => throw (Error "Stage not found")
  | Some stage =>
      c ← await (count_leads stage true);
      i ← await (insert_lead
                   {| ins_name := cl_name params;
                      ins_phone := cl_phone params;
                      ins_email := cl_email params;
                      ins_stage_id := stage;
                      ins_vendedor_id := cl_vendedor_id params;
                      ins_custom_fields := or_empty (cl_custom_fields params);
                      ins_notes := cl_notes params;
                      ins_position := Z.of_nat (count_or_zero (count c)) |});
      match error i with
      | Some message => throw (Error message)
      | None => mret (Success None (data i))
      end
  end.

Definition searchPriceCatalog (params : SearchPriceCatalogParams)
  : M ToolResult :=
  let query := {| c_limit := num_or (sp_limit params) 10%float;
                  c_or := None; c_category := None |} in
  let query :=
    match given (sp_query params) with
    | Some q =>
        {| c_limit := c_limit query;
           c_or := Some ("product_name.ilike.%" ++ q
                         ++ "%,description.ilike.%" ++ q ++ "%");
           c_category := c_category query |}
    | None => query
    end in
  let query :=
    match given (sp_category params) with
    | Some c => {| c_limit := c_limit query; c_or := c_or query;
                   c_category := Some c |}
    | None => query
    end in
  r ← await (select_catalog query);
  match error r with
  | Some message => throw (Error message)
  | None => mret (Catalog (data r))
  end.

Definition getLeadHistory (params : GetLeadHistoryParams) : M ToolResult :=
  r ← await (select_history (filter_text (gh_lead_id params)));
  match error r with
  | Some message => throw (Error message)
  | None => mret (History (data r))
  end.

Definition getPipelineStats : M ToolResult :=
  r ← await (select_stats NameSlug);
  mret (Stats (aggregate (data r))).

(** [tool.handler(args)] for an own entry of [TOOLS]. *)
Definition handler (t : Tool) (args : JSON) : option (M ToolResult) :=
  match t with
  | get_leads => getLeads <$> read_GetLeads args
  | update_lead_stage => updateLeadStage <$> read_UpdateLeadStage args
  | update_lead_custom_fields =>
      updateLeadCustomFields <$> read_UpdateLeadCustomFields args
  | create_lead => createLead <$> read_CreateLead args
  | search_price_catalog =>
      searchPriceCatalog <$> read_SearchPriceCatalog args
  | get_lead_history => getLeadHistory <$> read_GetLeadHistory args
  | get_pipeline_stats => Some getPipelineStats
  end.

(** [await tool.handler(args || {})], inside the route's [try]: a result is
    wrapped by [wrap]; an exception becomes a 500. *)
Definition run (h : option (M ToolResult)) (wrap : ToolResult → HttpBody)
  (w : World) : option (HttpResponse * World) :=
  m ← h;
  Some match m w with
       | (inr result, w') => ({| status := 200; body := wrap result |}, w')
       | (inl e, w') => ({| status := 500; body := Caught e |}, w')
       end.

(** What one lookup in [TOOLS] leads to; [callee] is the name the code calls
    the entry by. *)
Definition call (callee name : string) (args : option JSON)
  (wrap : ToolResult → HttpBody) (w : World) : option (HttpResponse * World) :=
  match TOOLS name with
  | Missing =>
      Some ({| status := 400; body := Refused ("Tool not found: " ++ name) |}, w)
  | Inherited =>
      Some ({| status := 500;
               body := Caught (TypeError (callee ++ ".handler is not a function")) |},
            w)
  | Own t => run (handler t (or_empty args)) wrap w
  end.

(** [app.post("/mcp", ...)]; [None] when the arguments are outside what is
    modelled. *)
Definition post_mcp (req : McpBody) (w : World)
  : option (HttpResponse * World) :=
  if bool_decide (mcp_method req = Some "tools/list") then
    Some ({| status := 200;
             body := RpcTools ((λ t, (tool_name t, description t))
                                 <$> all_tools) |}, w)
  else if bool_decide (mcp_method req = Some "tools/call") then
    match mcp_params req with
    | None =>
        Some ({| status := 500;
                 body := Caught (TypeError
                   "Cannot destructure property 'name' of 'params' as it is undefined.") |},
              w)
    | Some p => call "tool" (cp_name p) (cp_arguments p) RpcContent w
    end
  else
    match given (mcp_tool req) with
    | Some tool => call "toolDef" tool (mcp_arguments req) DirectResult w
    | None => Some ({| status := 400; body := Refused "Invalid request" |}, w)
    end.

End handlers.
End Http.

(* ===================================================================== *)
(** * The event-stream server ([unnamed/part_000]) *)
(* ===================================================================== *)

Module Sse.
Section handlers.
Context {fmt : Formats} {pol : Policy}.

Definition getLeads (params : GetLeadsParams) : M ToolResult :=
  let query := {| q_limit := num_or (Some (gl_limit params)) 50%float;
                  q_stage_id := None; q_vendedor_id := None |} in
  query ← match given (gl_stage_slug params) with
          | Some slug =>
              r ← await (select_stage_id slug);
              match data r with
              | Some stage => mret (eq_stage_id stage query)
              | None => mret query
              end
          | None => mret query
          end;
  let query := match given (gl_vendedor_id params) with
               | Some v => eq_vendedor_id v query
               | None => query
               end in
  r ← await (select_leads query);
  match error r with
  | Some message => throw (Error message)
  | None => mret (LeadList (data r))
  end.

Definition updateLeadStage (params : UpdateLeadStageParams) : M ToolResult :=
  r ← await (select_stage (uls_new_stage_slug params));
  match data r with
  | None => throw (Error ("Stage not found: " ++ uls_new_stage_slug params))
  | Some stage =>
      u ← await (update_lead (uls_lead_id params) (set_stage_id stage.1)
                   NoStage);
      match error u with
      | Some message => throw (Error message)
      | None =>
          mret (Success (Some ("Lead moved to " ++ stage_name stage.2))
                  (data u))
      end
  end.

Definition updateLeadCustomFields (params : UpdateLeadCustomFieldsParams)
  : M ToolResult :=
  r ← await (select_custom_fields (ucf_lead_id params));
  let merged := merge_fields (data r)
                  (Some (JObj (ucf_custom_fields params))) in
  u ← await (update_lead (ucf_lead_id params)
               (set_custom_fields (JObj merged)) NoStage);
  match error u with
  | Some message => throw (Error message)
  | None => mret (Success None (data u))
  end.

Definition createLead (params : CreateLeadParams) : M ToolResult :=
  r ← await (select_stage_id (str_or (Some (cl_stage_slug params)) "lead"));
  match data r with
  | None => throw (Error "Stage not found")
  | Some stage =>
      c ← await (count_leads stage false);
      i ← await (insert_lead
                   {| ins_name := Some (cl_name params);
                      ins_phone := cl_phone params;
                      ins_email := cl_email params;
                      ins_stage_id := stage;
                      ins_vendedor_id := Some (cl_vendedor_id params);
                      ins_custom_fields :=
                        or_empty (JObj <$> cl_custom_fields params);
                      ins_notes := cl_notes params;
                      ins_position := Z.of_nat (count_or_zero (count c)) |});
      match error i with
      | Some message => throw (Error message)
      | None => mret (Success None (data i))
      end
  end.

Definition searchPriceCatalog (params : SearchPriceCatalogParams)
  : M ToolResult :=
  let query := {| c_limit := num_or (Some (sp_limit params)) 10%float;
                  c_or := None; c_category := None |} in
  let query :=
    match given (Some (sp_query params)) with
    | Some q =>
        {| c_limit := c_limit query;
           c_or := Some ("product_name.ilike.%" ++ q
                         ++ "%,description.ilike.%" ++ q ++ "%");
           c_category := c_category query |}
    | None => query
    end in
  let query :=
    match given (sp_category params) with
    | Some c => {| c_limit := c_limit query; c_or := c_or query;
                   c_category := Some c |}
    | None => query
    end in
  r ← await (select_catalog query);
  match error r with
  | Some message => throw (Error message)
  | None => mret (Catalog (data r))
  end.

Definition getLeadHistory (params : GetLeadHistoryParams) : M ToolResult :=
  r ← await (select_history (gh_lead_id params));
  match error r with
  | Some message => throw (Error message)
  | None => mret (History (data r))
  end.

Definition getPipelineStats : M ToolResult :=
  r ← await (select_stats NameSlug);
  mret (Stats (aggregate (data r))).

(** The [switch (name)] of the [CallToolRequestSchema] handler. *)
Definition dispatch (name : string) (args : option JSON) : M ToolResult :=
  match tool_of_name name with
  | Some get_leads => parse GetLeadsSchema args ≫= getLeads
  | Some update_lead_stage =>
      parse UpdateLeadStageSchema args ≫= updateLeadStage
  | Some update_lead_custom_fields =>
      parse UpdateLeadCustomFieldsSchema args ≫= updateLeadCustomFields
  | Some create_lead => parse CreateLeadSchema args ≫= createLead
  | Some search_price_catalog =>
      parse SearchPriceCatalogSchema args ≫= searchPriceCatalog
  | Some get_lead_history =>
      parse GetLeadHistorySchema args ≫= getLeadHistory
  | Some get_pipeline_stats => getPipelineStats
  | None => throw (Error ("Unknown tool: " ++ name))
  end.

(** The [CallToolRequestSchema] handler. *)
Definition CallToolRequest (name : string) (args : option JSON)
  : World → CallToolResult * World := λ w,
  match dispatch name args w with
  | (inr result, w') =>
      ({| content_text := Stringified result; isError := false |}, w')
  | (inl e, w') =>
      ({| content_text := ErrorString e; isError := true |}, w')
  end.

End handlers.
End Sse.

(* ===================================================================== *)
(** * One tool, three servers *)
(* ===================================================================== *)

Inductive Transport : Type := stdio | http | sse.

(** The parameters the HTTP handler sees for arguments that have every
    declared field. *)
Definition http_GetLeads (p : GetLeadsParams) : Http.GetLeadsParams :=
  {| Http.gl_stage_slug := gl_stage_slug p;
     Http.gl_vendedor_id := gl_vendedor_id p;
     Http.gl_limit := Some (gl_limit p) |}.

Definition http_UpdateLeadStage (p : UpdateLeadStageParams)
  : Http.UpdateLeadStageParams :=
  {| Http.uls_lead_id := Some (uls_lead_id p);
     Http.uls_new_stage_slug := Some (uls_new_stage_slug p) |}.

Definition http_UpdateLeadCustomFields (p : UpdateLeadCustomFieldsParams)
  : Http.UpdateLeadCustomFieldsParams :=
  {| Http.ucf_lead_id := Some (ucf_lead_id p);
     Http.ucf_custom_fields := Some (JObj (ucf_custom_fields p)) |}.

Definition http_CreateLead (p : CreateLeadParams) : Http.CreateLeadParams :=
  {| Http.cl_name := Some (cl_name p);
     Http.cl_phone := cl_phone p;
     Http.cl_email := cl_email p;
     Http.cl_stage_slug := Some (cl_stage_slug p);
     Http.cl_vendedor_id := Some (cl_vendedor_id p);
     Http.cl_custom_fields := JObj <$> cl_custom_fields p;
     Http.cl_notes := cl_notes p |}.

Definition http_SearchPriceCatalog (p : SearchPriceCatalogParams)
  : Http.SearchPriceCatalogParams :=
  {| Http.sp_query := Some (sp_query p);
     Http.sp_category := sp_category p;
     Http.sp_limit := Some (sp_limit p) |}.

Definition http_GetLeadHistory (p : GetLeadHistoryParams)
  : Http.GetLeadHistoryParams :=
  {| Http.gh_lead_id := Some (gh_lead_id p) |}.

Section via.
Context {pol : Policy}.

Definition getLeads_via (t : Transport) (p : GetLeadsParams) : M ToolResult :=
  match t with
  | stdio => Stdio.getLeads p
  | http => Http.getLeads (http_GetLeads p)
  | sse => Sse.getLeads p
  end.

Definition updateLeadStage_via (t : Transport) (p : UpdateLeadStageParams)
  : M ToolResult :=
  match t with
  | stdio => Stdio.updateLeadStage p
  | http => Http.updateLeadStage (http_UpdateLeadStage p)
  | sse => Sse.updateLeadStage p
  end.

Definition updateLeadCustomFields_via (t : Transport)
  (p : UpdateLeadCustomFieldsParams) : M ToolResult :=
  match t with
  | stdio => Stdio.updateLeadCustomFields p
  | http => Http.updateLeadCustomFields (http_UpdateLeadCustomFields p)
  | sse => Sse.updateLeadCustomFields p
  end.

Definition createLead_via (t : Transport) (p : CreateLeadParams)
  : M ToolResult :=
  match t with
  | stdio => Stdio.createLead p
  | http => Http.createLead (http_CreateLead p)
  | sse => Sse.createLead p
  end.

Definition searchPriceCatalog_via (t : Transport)
  (p : SearchPriceCatalogParams) : M ToolResult :=
  match t with
  | stdio => Stdio.searchPriceCatalog p
  | http => Http.searchPriceCatalog (http_SearchPriceCatalog p)
  | sse => Sse.searchPriceCatalog p
  end.

Definition getLeadHistory_via (t : Transport) (p : GetLeadHistoryParams)
  : M ToolResult :=
  match t with
  | stdio => Stdio.getLeadHistory p
  | http => Http.getLeadHistory (http_GetLeadHistory p)
  | sse => Sse.getLeadHistory p
  end.

Definition getPipelineStats_via (t : Transport) : M ToolResult :=
  match t with
  | stdio => Stdio.getPipelineStats
  | http => Http.getPipelineStats
  | sse => Sse.getPipelineStats
  end.

End via.

(** ** Vocabulary of the statements *)

(** The error taxonomy, read off the message of what was thrown. *)
Definition StageNotFound (e : Exn) : Prop :=
  ∃ rest, e = Error ("Stage not found" ++ rest).

Definition LeadNotFound (e : Exn) : Prop :=
  ∃ rest, e = Error ("Lead not found" ++ rest).

(** The map a stored [custom_fields] value stands for when it is merged
    into. *)
Definition stored_fields (cf : JSON) : gmap string JSON :=
  spread (Some (or_empty (Some cf))).

(** The bucket of the statistics a lead falls in: the slug of its stage, or
    ["unknown"]. *)
Definition bucket (d : DB) (l : Lead) : string :=
  str_or (stage_slug <$> (lead_stage_id l ≫= λ sid, pipeline_stages d !! sid))
    "unknown".

Definition leads_of_bucket (slug : string) (d : DB) : list (string * Lead) :=
  filter (λ kv, bucket d kv.2 = slug) (map_to_list (leads d)).

(** What one lead adds to the total of its bucket: nothing when its
    [valor_estimado] is absent or falsy, [Number] of it otherwise. *)
Definition add_value (total : float) (l : Lead) : float :=
  match valor_estimado (lead_custom_fields l) with
  | Some v => if truthy v then PrimFloat.add total (Number v) else total
  | None => total
  end.

(** The entry of a bucket after the leads [ls], all in that bucket, have
    been counted: how many they are, their values added up in order, and the
    name of the stage of the first. *)
Definition entry_after (d : DB) (ls : list (string * Lead))
  : option StageStats :=
  match ls with
  | [] => None
  | kv :: _ =>
      Some {| stat_count := length ls;
              total_value := foldl add_value PrimFloat.zero ls.*2;
              stage_name_of :=
                stage_name <$> (lead_stage_id kv.2 ≫= λ sid,
                                  pipeline_stages d !! sid) |}
  end.

(** The entry of the statistics for a bucket, from the leads in it. *)
Definition bucket_stats (slug : string) (d : DB) : option StageStats :=
  entry_after d (leads_of_bucket slug d).

(** The same [get_leads] parameters without the stage filter. *)
Definition no_stage_slug (p : GetLeadsParams) : GetLeadsParams :=
  {| gl_stage_slug := None; gl_vendedor_id := gl_vendedor_id p;
     gl_limit := gl_limit p |}.

Definition http_no_stage_slug (p : Http.GetLeadsParams) : Http.GetLeadsParams :=
  {| Http.gl_stage_slug := None; Http.gl_vendedor_id := Http.gl_vendedor_id p;
     Http.gl_limit := Http.gl_limit p |}.

(** What a [create_lead] that returned [r] and left [w'] has done to [w],
    [slug] being the slug it resolved: that slug is the slug of one stage;
    [r] carries a row the table did not have, which is what the table has
    more than before; the row is in that stage, at the position that is the
    number of leads the stage had when the count, the second request, was
    answered, and at position 0 when the count failed. *)
Definition appended_to_stage (slug : string) (w : World) (r : ToolResult)
  (w' : World) : Prop :=
  ∃ sid st message row,
    stages_by_slug slug (db w) = [(sid, st)] ∧
    r = Success message (Some row) ∧
    leads (db w) !! row_id row = None ∧
    leads (db w') = <[row_id row := row_lead row]> (leads (db w)) ∧
    lead_stage_id (row_lead row) = Some sid ∧
    lead_position (row_lead row) =
      match fault_at 1 w with
      | None => Z.of_nat (length (leads_in_stage sid (db w)))
      | Some _ => 0%Z
      end.

(** Arguments with [limit] set to [n], and with no [limit]. *)
Definition with_limit (n : float) (m : gmap string JSON) : option JSON :=
  Some (JObj (<["limit" := JNum n]> m)).

Definition without_limit (m : gmap string JSON) : option JSON :=
  Some (JObj (delete "limit" m)).

(** The issues the schema of a tool finds in the arguments, if any; the
    statistics tool has no schema. *)
Definition issues_of {A} (r : list ZodIssue + A) : option (list ZodIssue) :=
  match r with inl i => Some i | inr _ => None end.

Definition rejected {fmt : Formats} (t : Tool) (args : option JSON)
  : option (list ZodIssue) :=
  match t with
  | get_leads => issues_of (GetLeadsSchema args)
  | update_lead_stage => issues_of (UpdateLeadStageSchema args)
  | update_lead_custom_fields => issues_of (UpdateLeadCustomFieldsSchema args)
  | create_lead => issues_of (CreateLeadSchema args)
  | search_price_catalog => issues_of (SearchPriceCatalogSchema args)
  | get_lead_history => issues_of (GetLeadHistorySchema args)
  | get_pipeline_stats => None
  end.

(** Whether a run returned (and did not throw). *)
Definition returned {A} (r : Exn + A) : bool :=
  match r with inr _ => true | inl _ => false end.

(** Two runs that end in the same tables, and both return or both throw. *)
Definition same_effect {A} (a b : (Exn + A) * World) : Prop :=
  db a.2 = db b.2 ∧ returned a.1 = returned b.1.

(** Two runs of the same effect that, when they return, return the same. *)
Definition same_data {A} (a b : (Exn + A) * World) : Prop :=
  same_effect a b ∧ ∀ x y, a.1 = inr x → b.1 = inr y → x = y.

(** A [tools/call] body of [POST /mcp]. *)
Definition tools_call (name : string) (args : option JSON) : Http.McpBody :=
  {| Http.mcp_method := Some "tools/call";
     Http.mcp_params := Some {| Http.cp_name := name;
                                Http.cp_arguments := args |};
     Http.mcp_tool := None;
     Http.mcp_arguments := None |}.

(** Two argument values that get the same response from each of the three
    servers, which leave the backend in the same state. *)
Definition same_responses {fmt : Formats} {pol : Policy} (name : string)
  (a b : option JSON) (w : World) : Prop :=
  Stdio.CallToolRequest name a w = Stdio.CallToolRequest name b w ∧
  Sse.CallToolRequest name a w = Sse.CallToolRequest name b w ∧
  Http.post_mcp (tools_call name a) w = Http.post_mcp (tools_call name b) w.

(* ===================================================================== *)
(** * A concrete backend *)
(* ===================================================================== *)

Module Fixture.

(** The shape 8-4-4-4-12 of hexadecimal digits. *)
Definition uuid_shape (s : string) : bool :=
  let l := list_ascii_of_string s in
  bool_decide (length l = 36%nat) &&
  forallb (λ ic : nat * ascii,
             if bool_decide (ic.1 ∈ [8; 13; 18; 23]%nat)
             then bool_decide (ic.2 = "-"%char)
             else bool_decide (is_Some (digit_val 16 ic.2)))
    (imap (λ i c, (i, c)) l).

(** Something before and something after one [@]. *)
Definition email_shape (s : string) : bool :=
  match filter (λ ic : nat * ascii, ic.2 = "@"%char)
          (imap (λ i c, (i, c)) (list_ascii_of_string s)) with
  | [(i, _)] => bool_decide (0 < i < String.length s - 1)%nat
  | _ => false
  end.

Definition formats : Formats :=
  {| is_uuid := uuid_shape; is_email := email_shape |}.

(** A backend that reads no [or] filter with a parenthesis in it, matches
    every row otherwise, and wants a lead to have a name. *)
Definition policy : Policy :=
  {| or_filter := λ text,
       if bool_decide (Exists (λ c, c = "("%char ∨ c = ")"%char)
                          (list_ascii_of_string text))
       then None else Some (λ _, true);
     insert_check := λ _ r,
       match ins_name r with
       | Some _ => None
       | None => Some "null value in column name violates not-null constraint"
       end |}.

Definition stage (slug name : string) (pos : Z) : Stage :=
  {| stage_slug := slug; stage_name := name; stage_color := "#888888";
     stage_position := pos |}.

Definition lead (name stage_id : string) (cf : JSON) (pos created : Z) : Lead :=
  {| lead_name := Some name; lead_phone := None; lead_email := None;
     lead_stage_id := Some stage_id;
     lead_vendedor_id := Some "7f3c1a52-0b1e-4c6d-9a57-2f1d6e8b4c10";
     lead_custom_fields := cf; lead_notes := None;
     lead_position := pos; lead_created_at := created |}.

(** Ids of the stages, of three leads, and one that no lead has. *)
Definition st_lead : string := "5a1e0000-0000-4000-8000-000000000001".
Definition st_orcamento : string := "5a1e0000-0000-4000-8000-000000000002".
Definition st_fechado : string := "5a1e0000-0000-4000-8000-000000000004".
Definition lead_1 : string := "1ead0000-0000-4000-8000-000000000001".
Definition lead_2 : string := "1ead0000-0000-4000-8000-000000000002".
Definition lead_3 : string := "1ead0000-0000-4000-8000-000000000003".
Definition lead_9 : string := "1ead0000-0000-4000-8000-000000000009".
Definition seller : string := "7f3c1a52-0b1e-4c6d-9a57-2f1d6e8b4c10".

Definition stages : gmap string Stage :=
  list_to_map [ (st_lead, stage "lead" "Lead" 0);
                (st_orcamento, stage "orcamento" "Orcamento" 1);
                (st_fechado, stage "fechado" "Fechado" 3) ].

Definition ana : Lead :=
  lead "Ana" st_lead (JObj {[ "valor_estimado" := JNum 100%float ]}) 0 1.

(** Two leads in stage [lead] with [valor_estimado] 100 and ["200"], one in
    stage [fechado] with none. *)
Definition backend : DB :=
  {| pipeline_stages := stages;
     leads := list_to_map
       [ (lead_1, ana);
         (lead_2, lead "Bruno" st_lead
                    (JObj {[ "valor_estimado" := JStr "200" ]}) 1 2);
         (lead_3, lead "Carla" st_fechado (JObj ∅) 0 3) ];
     profiles := {[ seller := {| full_name := "Vera"; role := "vendedor" |} ]};
     price_catalog := [];
     lead_history := [];
     clock := 4 |}.

Definition world : World := {| db := backend; trace := []; faults := [] |}.

(** One lead, in stage [lead], whose [valor_estimado] is not a number. *)
Definition backend_text_value : DB :=
  {| pipeline_stages := stages;
     leads := {[ lead_1 := lead "Ana" st_lead
                   (JObj {[ "valor_estimado" := JStr "abc" ]}) 0 1 ]};
     profiles := ∅; price_catalog := []; lead_history := []; clock := 2 |}.

Definition world_text_value : World :=
  {| db := backend_text_value; trace := []; faults := [] |}.

(** The backend of [world], out of reach for the next request, and for the
    one after the next. *)
Definition world_first_fails : World :=
  {| db := backend; trace := []; faults := [Some "TypeError: fetch failed"] |}.

Definition world_second_fails : World :=
  {| db := backend; trace := [];
     faults := [None; Some "TypeError: fetch failed"] |}.

(** Some calls. *)
Definition paint_update (id : string) : UpdateLeadCustomFieldsParams :=
  {| ucf_lead_id := id;
     ucf_custom_fields := {[ "cor_desejada" := JStr "azul" ]} |}.

Definition new_lead (slug : string) : CreateLeadParams :=
  {| cl_name := "Davi"; cl_phone := None; cl_email := None;
     cl_stage_slug := slug; cl_vendedor_id := seller;
     cl_custom_fields := None; cl_notes := None |}.

Definition move_lead (slug : string) : UpdateLeadStageParams :=
  {| uls_lead_id := lead_1; uls_new_stage_slug := slug |}.

Definition leads_of_stage (slug : string) : Http.GetLeadsParams :=
  {| Http.gl_stage_slug := Some slug; Http.gl_vendedor_id := None;
     Http.gl_limit := None |}.

(** A [create_lead] over HTTP with nothing but a name. *)
Definition only_name : Http.CreateLeadParams :=
  {| Http.cl_name := Some "Davi"; Http.cl_phone := None;
     Http.cl_email := None; Http.cl_stage_slug := None;
     Http.cl_vendedor_id := None; Http.cl_custom_fields := None;
     Http.cl_notes := None |}.

(** Arguments for [create_lead] whose [email] is not an address. *)
Definition bad_email_args : option JSON :=
  Some (JObj {[ "name" := JStr "Davi"; "vendedor_id" := JStr seller;
                "email" := JStr "davi.example.com" ]}).

End Fixture.

(* ===================================================================== *)
(** * What the servers advertise: tool listings and resources *)
(* ===================================================================== *)

Module Listing.

(** A property of an [inputSchema]: [name: { type, description }]. *)
Record Property : Type := {
  prop_name : string;
  prop_type : string;
  prop_description : option string
}.

(** An entry of a tool listing: [{ name, description, inputSchema:
    { type: "object", properties, required } }]. *)
Record ToolDef : Type := {
  def_name : string;
  def_description : string;
  def_properties : list Property;
  def_required : option (list string)
}.

(** The names a client has to give: those of [required], none when the
    schema has no such key. *)
Definition required (d : ToolDef) : list string := default [] (def_required d).

Definition described (name type text : string) : Property :=
  {| prop_name := name; prop_type := type; prop_description := Some text |}.

Definition typed (name type : string) : Property :=
  {| prop_name := name; prop_type := type; prop_description := None |}.

(** The [ListToolsRequestSchema] handler of [index.ts]. *)
Definition stdio_tools : list ToolDef :=
  [ {| def_name := "get_leads";
       def_description :=
         "Get leads from the CRM pipeline. Can filter by stage and vendedor.";
       def_properties :=
         [ described "stage_slug" "string"
             "Filter by stage: lead, orcamento, negociacao, fechado, curioso";
           described "vendedor_id" "string" "Filter by vendedor (seller) UUID";
           described "limit" "number" "Max results (default 50)" ];
       def_required := None |};
    {| def_name := "update_lead_stage";
       def_description := "Move a lead to a different pipeline stage.";
       def_properties :=
         [ described "lead_id" "string" "UUID of the lead";
           described "new_stage_slug" "string"
             "New stage: lead, orcamento, negociacao, fechado, curioso" ];
       def_required := Some ["lead_id"; "new_stage_slug"] |};
    {| def_name := "update_lead_custom_fields";
       def_description :=
         "Update custom fields on a lead (tipo_tinta, quantidade_litros, cor_desejada, valor_estimado, etc).";
       def_properties :=
         [ described "lead_id" "string" "UUID of the lead";
           described "custom_fields" "object" "Key-value pairs to update" ];
       def_required := Some ["lead_id"; "custom_fields"] |};
    {| def_name := "create_lead";
       def_description := "Create a new lead in the CRM.";
       def_properties :=
         [ described "name" "string" "Contact name";
           described "phone" "string" "Phone number";
           described "email" "string" "Email";
           described "stage_slug" "string" "Initial stage (default: lead)";
           described "vendedor_id" "string" "UUID of vendedor";
           described "custom_fields" "object" "Custom fields";
           described "notes" "string" "Notes" ];
       def_required := Some ["name"; "vendedor_id"] |};
    {| def_name := "search_price_catalog";
       def_description :=
         "Search the paint price catalog by product name, category, or description.";
       def_properties :=
         [ described "query" "string" "Search term";
           described "category" "string" "Filter by category";
           described "limit" "number" "Max results" ];
       def_required := Some ["query"] |};
    {| def_name := "get_lead_history";
       def_description :=
         "Get the activity history for a lead (stage changes, updates).";
       def_properties := [ described "lead_id" "string" "UUID of the lead" ];
       def_required := Some ["lead_id"] |};
    {| def_name := "get_pipeline_stats";
       def_description :=
         "Get statistics for each pipeline stage (lead count, total value).";
       def_properties := [];
       def_required := None |} ].

(** The [ListToolsRequestSchema] handler of the event-stream variant. *)
Definition sse_tools : list ToolDef :=
  [ {| def_name := "get_leads";
       def_description := "Get leads filterable by stage and vendedor";
       def_properties :=
         [ typed "stage_slug" "string"; typed "vendedor_id" "string";
           typed "limit" "number" ];
       def_required := None |};
    {| def_name := "update_lead_stage";
       def_description := "Move lead to stage";
       def_properties :=
         [ typed "lead_id" "string"; typed "new_stage_slug" "string" ];
       def_required := Some ["lead_id"; "new_stage_slug"] |};
    {| def_name := "update_lead_custom_fields";
       def_description := "Update custom fields";
       def_properties :=
         [ typed "lead_id" "string"; typed "custom_fields" "object" ];
       def_required := Some ["lead_id"; "custom_fields"] |};
    {| def_name := "create_lead";
       def_description := "Create new lead";
       def_properties :=
         [ typed "name" "string"; typed "phone" "string";
           typed "vendedor_id" "string"; typed "stage_slug" "string";
           typed "custom_fields" "object"; typed "notes" "string" ];
       def_required := Some ["name"; "vendedor_id"] |};
    {| def_name := "search_price_catalog";
       def_description := "Search prices";
       def_properties := [ typed "query" "string"; typed "limit" "number" ];
       def_required := Some ["query"] |};
    {| def_name := "get_lead_history";
       def_description := "Get history";
       def_properties := [ typed "lead_id" "string" ];
       def_required := Some ["lead_id"] |};
    {| def_name := "get_pipeline_stats";
       def_description := "Get stats";
       def_properties := [];
       def_required := None |} ].

(** The listings of the servers that declare input schemas. *)
Definition with_schemas : list ToolDef := (stdio_tools ++ sse_tools)%list.

(** [app.get("/tools", ...)] of [server.ts]: the entries of [TOOLS], each with
    its name and description. *)
Definition get_tools : list (string * string) :=
  (λ t, (tool_name t, Http.description t)) <$> all_tools.

End Listing.

Module Resources.

(** An entry of the resource listing. *)
Record Resource : Type := {
  res_uri : string;
  res_name : string;
  res_description : string;
  res_mimeType : string
}.

(** The [ListResourcesRequestSchema] handler of [index.ts]. *)
Definition ListResources : list Resource :=
  [ {| res_uri := "crm://stages"; res_name := "Pipeline Stages";
       res_description := "All pipeline stages with colors";
       res_mimeType := "application/json" |};
    {| res_uri := "crm://custom-fields"; res_name := "Custom Field Definitions";
       res_description := "Available custom fields for leads";
       res_mimeType := "application/json" |} ].

(** A row of [custom_field_definitions], a table no tool reads: its
    [position], and its other columns as they are. *)
Record FieldDefinition : Type := {
  fd_position : Z;
  fd_columns : gmap string JSON
}.

Fixpoint insert_asc {A} (key : A → Z) (x : A) (l : list A) : list A :=
  match l with
  | [] => [x]
  | y :: r => if (key x <=? key y)%Z then x :: l else y :: insert_asc key x r
  end.

(** [.order(column)]: least key first, rows of equal key in table order. *)
Definition order_asc {A} (key : A → Z) (l : list A) : list A :=
  foldr (insert_asc key) [] l.

(** [from("pipeline_stages").select("*").order("position")]; the handler
    does not read its error. *)
Definition select_stages : Query (list (string * Stage)) :=
  fetch GET "pipeline_stages"
    (λ d, ok (order_asc (λ kv, stage_position kv.2)
                (map_to_list (pipeline_stages d)))).

(** [from("custom_field_definitions").select("*").order("position")]; the
    handler does not read its error. *)
Definition select_field_definitions (table : list FieldDefinition)
  : Query (list FieldDefinition) :=
  fetch GET "custom_field_definitions" (λ _, ok (order_asc fd_position table)).

(** What is serialised into the [text] of a resource. *)
Inductive ResourceData : Type :=
| StageRows (rows : option (list (string * Stage)))
| FieldRows (rows : option (list FieldDefinition)).

(** [{ uri, mimeType, text: JSON.stringify(data, null, 2) }] *)
Record ResourceContents : Type := {
  rc_uri : string;
  rc_mimeType : string;
  rc_text : ResourceData
}.

(** The [ReadResourceRequestSchema] handler of [index.ts]; [table] is the
    content of [custom_field_definitions]. *)
Definition ReadResource (table : list FieldDefinition) (uri : string)
  : M (list ResourceContents) :=
  if bool_decide (uri = "crm://stages") then
    r ← await select_stages;
    mret [ {| rc_uri := uri; rc_mimeType := "application/json";
              rc_text := StageRows (data r) |} ]
  else if bool_decide (uri = "crm://custom-fields") then
    r ← await (select_field_definitions table);
    mret [ {| rc_uri := uri; rc_mimeType := "application/json";
              rc_text := FieldRows (data r) |} ]
  else throw (Error ("Resource not found: " ++ uri)).

End Resources.

Module SseRoutes.

(** The routes of the event-stream variant. A response object is known by a
    number; the transport of [let transport] by the response it was made
    on. *)
Inductive Request : Type :=
| GetSse (res : nat)       (* GET /sse, answered on the response [res] *)
| PostMessages             (* POST /messages *)
| GetHealth.               (* GET /health *)

Inductive Reply : Type :=
| Stream (res : nat)       (* new SSEServerTransport("/messages", res) *)
| Handled (stream : nat)   (* transport.handlePostMessage(req, res) *)
| Status (code : nat) (text : string)   (* res.status(code).send(text) *)
| Json (status mode : string).          (* res.json({ status, mode }) *)

(** One request, given the value of [transport]: the reply, and the value
    [transport] has afterwards. *)
Definition route (transport : option nat) (req : Request)
  : Reply * option nat :=
  match req with
  | GetSse res => (Stream res, Some res)
  | PostMessages =>
      match transport with
      | Some t => (Handled t, transport)
      | None => (Status 400 "No valid transport connection", transport)
      end
  | GetHealth => (Json "ok" "sse", transport)
  end.

(** The value of [transport] after the requests, from a fresh start. *)
Definition serve (requests : list Request) : option nat :=
  foldl (λ transport req, (route transport req).2) None requests.

(** The responses of the [GET /sse] requests, in order. *)
Definition streams (requests : list Request) : list nat :=
  omap (λ req, match req with GetSse res => Some res | _ => None end)
    requests.

End SseRoutes.

(* ===================================================================== *)
(** * Vocabulary of the further statements *)
(* ===================================================================== *)

(** Greatest key first. *)
Definition descending {A} (key : A → Z) (l : list A) : Prop :=
  StronglySorted (λ a b, (key b ≤ key a)%Z) l.

(** Least key first. *)
Definition ascending {A} (key : A → Z) (l : list A) : Prop :=
  StronglySorted (λ a b, (key a ≤ key b)%Z) l.

(** The stage id [get_leads] filters by: that of the one stage the slug
    names, when a slug is given, names one, and its lookup, the next request,
    is answered. *)
Definition stage_filter (slug : option string) (w : World) : option string :=
  match given slug, fault w with
  | Some s, None =>
      match stages_by_slug s (db w) with
      | [st] => Some st.1
      | _ => None
      end
  | _, _ => None
  end.

(** [rows] are the first [n] of the leads of the table that [wanted] holds
    of, newest first: each such lead once, as the table has it, with its
    stage and its seller joined. *)
Definition newest_leads (d : DB) (wanted : Lead → Prop) (n : Z)
  (rows : list LeadRow) : Prop :=
  ∃ all,
    rows = take (Z.to_nat n) all ∧
    descending (λ r, lead_created_at (row_lead r)) all ∧
    NoDup (row_id <$> all) ∧
    ∀ r, r ∈ all ↔
         r = lead_row NameSlugColor true d (row_id r, row_lead r) ∧
         leads d !! row_id r = Some (row_lead r) ∧
         wanted (row_lead r).

(** What [get_leads] comes to, given the query it ends up sending and the
    backend [w0] it sends it to: [prefix] is what the server puts before the
    message of an error. *)
Definition leads_answer (prefix : string) (q : LeadsQuery) (w0 : World)
  : (Exn + ToolResult) * World :=
  match error (select_leads q w0).1 with
  | Some message => (inl (Error (prefix ++ message)), (select_leads q w0).2)
  | None => (inr (LeadList (data (select_leads q w0).1)), (select_leads q w0).2)
  end.

(** The backend after the lookup of a stage, which is sent for a slug that
    is given. *)
Definition looked_up (slug : option string) (w : World) : World :=
  match given slug with
  | Some _ => sent GET "pipeline_stages" w
  | None => w
  end.

(** A lead of the seller and of the stage, where one is given. *)
Definition lead_of (stage seller : option string) (l : Lead) : Prop :=
  (∀ v, seller = Some v → lead_vendedor_id l = Some v) ∧
  (∀ sid, stage = Some sid → lead_stage_id l = Some sid).

(** What [get_leads] answers when it drops the stage filter, [limit] being
    the limit it applies and [seller] the seller it filters by; [run] is the
    call and [plain] the same call without a slug. Both answer the same; the
    tables are as they were; and the answer is the first [limit] of all the
    leads of the seller, whatever their stage, newest first, or an error
    when the limit is no row count. *)
Definition unfiltered (w : World) (limit : float) (seller : option string)
  (run plain : (Exn + ToolResult) * World) : Prop :=
  run.1 = plain.1 ∧
  db run.2 = db w ∧
  match limit_rows limit with
  | Some n =>
      ∃ rows, run.1 = inr (LeadList (Some rows)) ∧
              newest_leads (db w) (lead_of None seller) n rows
  | None => ∃ e, run.1 = inl e
  end.

(** The entries [search_price_catalog] has before the limit: the entries of
    the catalog that are active, of the category when one is given, and that
    pass the filter, in catalog order. *)
Definition entries_on_sale (passes : PriceEntry → bool) (c : option string)
  (d : DB) : list PriceEntry :=
  filter (λ e, entry_matches passes c e) (price_catalog d).

(** Arguments whose [custom_fields], when it is an object, has no key
    [__proto__]: the one key the schemas drop from it. *)
Definition plain_fields (args : option JSON) : Prop :=
  ∀ m f, args = Some (JObj m) → m !! "custom_fields" = Some (JObj f) →
         f !! "__proto__" = None.

(** Every request to come is served. *)
Definition served (w : World) : Prop := ∀ n, fault_at n w = None.

(** The text of the [or] filter a server builds for a search term. *)
Definition or_text (t : Transport) (q : string) : string :=
  match t with
  | stdio =>
      "product_name.ilike.%" ++ q ++ "%,description.ilike.%" ++ q
      ++ "%,category.ilike.%" ++ q ++ "%"
  | _ => "product_name.ilike.%" ++ q ++ "%,description.ilike.%" ++ q ++ "%"
  end.

(** The requests a run sent: what the trace has more than before, latest
    first. *)
Definition requests (w w' : World) (calls : list Call) : Prop :=
  trace w' = (calls ++ trace w)%list.

Definition is_write (c : Call) : bool :=
  match call_verb c with
  | POST | PATCH => true
  | GET | HEAD => false
  end.

(** What any tool call leaves of the backend: the stages, the sellers, the
    catalog and the history as they were, every lead that was there still
    there, the clock not set back; at most [n] requests were sent, and those
    that write went to [leads]. *)
Definition kept (n : nat) (w w' : World) : Prop :=
  pipeline_stages (db w') = pipeline_stages (db w) ∧
  profiles (db w') = profiles (db w) ∧
  price_catalog (db w') = price_catalog (db w) ∧
  lead_history (db w') = lead_history (db w) ∧
  dom (leads (db w)) ⊆ dom (leads (db w')) ∧
  (clock (db w) ≤ clock (db w'))%Z ∧
  ∃ calls, requests w w' calls ∧ (length calls ≤ n)%nat ∧
           Forall (λ c, is_write c = true → call_table c = "leads") calls.

(** What a reading tool call leaves: the backend as it was, after at most
    [n] requests, none of which writes. *)
Definition only_read (n : nat) (w w' : World) : Prop :=
  db w' = db w ∧
  ∃ calls, requests w w' calls ∧ (length calls ≤ n)%nat ∧
           Forall (λ c, call_verb c = GET) calls.

(** A result of parsing that reports the issue [i]. *)
Definition reports {A} (i : ZodIssue) (r : list ZodIssue + A) : Prop :=
  match r with
  | inl issues => i ∈ issues
  | inr _ => False
  end.

(** [update_lead_custom_fields] for the lead [id], with the fields [U]. *)
Definition update_fields (t : Transport) (id : string)
  (U : gmap string JSON) : M ToolResult :=
  updateLeadCustomFields_via t {| ucf_lead_id := id; ucf_custom_fields := U |}.

(** A parser of strings accepts nothing but a string, and returns it. *)
Definition parses_strings (p : Parser string) : Prop :=
  ∀ path v s, p path v = inr s → v = Some (JStr s).

(** A handler whose every run is related by [R n] to the backend it started
    from, whether it returns or throws. *)
Definition keeps (R : nat → World → World → Prop) {A} (n : nat) (m : M A)
  : Prop :=
  ∀ w, R n w (m w).2.

(** The tools that only read. *)
Definition reading_tools : list Tool :=
  [ get_leads; search_price_catalog; get_lead_history; get_pipeline_stats ].

(** The direct form of a tool call over HTTP: [{ tool, arguments }]. *)
Definition direct_call (name : string) (args : option JSON) : Http.McpBody :=
  {| Http.mcp_method := None; Http.mcp_params := None;
     Http.mcp_tool := Some name; Http.mcp_arguments := args |}.

(** The response of the direct form for the one of [tools/call]: the result
    unwrapped, the callee named [toolDef]. *)
Definition as_direct (r : Http.HttpResponse) : Http.HttpResponse :=
  {| Http.status := Http.status r;
     Http.body := match Http.body r with
                  | Http.RpcContent x => Http.DirectResult x
                  | b => b
                  end |}.

(** The leads the statistics count: those whose bucket is not a name objects
    inherit. *)
Definition counted (d : DB) : list (string * Lead) :=
  filter (λ kv, inherited (bucket d kv.2) = false) (map_to_list (leads d)).

Definition total_count (stats : gmap string StageStats) : nat :=
  map_fold (λ _ s n, (stat_count s + n)%nat) 0%nat stats.

(** Whether a response says the call failed. *)
Definition http_failed (r : Http.HttpResponse) : bool :=
  negb (Http.status r =? 200)%nat.

(* ===================================================================== *)
(** * A second backend *)
(* ===================================================================== *)

Module Sample.

Definition entry (id name text kind : string) (on : bool) : PriceEntry :=
  {| entry_id := id; product_name := name; description := text;
     category := kind; active := on; price_fields := ∅ |}.

(** Two entries on sale, and one that is not. *)
Definition catalog : list PriceEntry :=
  [ entry "c1" "Acrilica Fosca 18L" "Tinta acrilica fosca branca" "acrilica"
      true;
    entry "c2" "Esmalte Sintetico 3,6L" "Esmalte brilhante" "esmalte" true;
    entry "c3" "Acrilica Antiga" "Fora de linha" "acrilica" false ].

Definition history : list HistoryEntry :=
  [ {| history_id := "h1"; history_lead_id := Fixture.lead_1;
       history_change := "created"; history_changed_by := None;
       history_created_at := 1 |};
    {| history_id := "h2"; history_lead_id := Fixture.lead_1;
       history_change := "stage"; history_changed_by := Some Fixture.seller;
       history_created_at := 3 |} ].

(** The leads and the sellers of the fixture, with a catalog, a history, and
    a second stage of slug ["orcamento"]. *)
Definition backend : DB :=
  {| pipeline_stages :=
       <["5a1e0000-0000-4000-8000-000000000009" :=
           Fixture.stage "orcamento" "Orcamento (antigo)" 5]> Fixture.stages;
     leads := leads Fixture.backend;
     profiles := profiles Fixture.backend;
     price_catalog := catalog;
     lead_history := history;
     clock := 4 |}.

Definition world : World := {| db := backend; trace := []; faults := [] |}.

(** Some calls. *)
Definition newest_of_stage (slug : string) : GetLeadsParams :=
  {| gl_stage_slug := Some slug; gl_vendedor_id := Some Fixture.seller;
     gl_limit := 1 |}.

Definition acrylic : SearchPriceCatalogParams :=
  {| sp_query := "acrilica"; sp_category := Some "acrilica"; sp_limit := 0 |}.

Definition move (id slug : string) : UpdateLeadStageParams :=
  {| uls_lead_id := id; uls_new_stage_slug := slug |}.

Definition lead_with_fields : CreateLeadParams :=
  {| cl_name := "Davi"; cl_phone := Some "+55 11 90000-0000";
     cl_email := None; cl_stage_slug := "fechado";
     cl_vendedor_id := Fixture.seller;
     cl_custom_fields := Some {[ "cor_desejada" := JStr "verde" ]};
     cl_notes := None |}.

Definition all_of_stage (slug : string) : GetLeadsParams :=
  {| gl_stage_slug := Some slug; gl_vendedor_id := None; gl_limit := 50 |}.

Definition move_args : option JSON :=
  Some (JObj {[ "lead_id" := JStr Fixture.lead_1;
                "new_stage_slug" := JStr "fechado" ]}).

End Sample.

(* ===================================================================== *)
(** * Properties *)
(* ===================================================================== *)

(** ** Sequencing *)

Lemma bind_await {A B} (q : Query A) (f : PgResp A → M B) (w : World) :
  (await q ≫= f) w = f (q w).1 (q w).2.
Proof. unfold mbind, M_bind, await. destruct (q w); reflexivity. Qed.

Lemma bind_ret {A B} (x : A) (f : A → M B) (w : World) :
  (mret x ≫= f) w = f x w.
Proof. reflexivity. Qed.

Lemma bind_assoc {A B C} (m : M A) (f : A → M B) (g : B → M C) (w : World) :
  ((m ≫= f) ≫= g) w = (m ≫= (λ x, f x ≫= g)) w.
Proof.
  unfold mbind, M_bind. destruct (m w) as [[e|x] w']; reflexivity.
Qed.

(** ** Requests that fail *)

Lemma fault_at_sent (n : nat) (v : Verb) (t : string) (w : World) :
  fault_at n (sent v t w) = fault_at (S n) w.
Proof.
  unfold fault_at, sent. cbn [faults].
  destruct (faults w) as [|f fs]; [rewrite !lookup_nil|]; reflexivity.
Qed.

Lemma fault_at_with_db (n : nat) (d : DB) (w : World) :
  fault_at n (with_db d w) = fault_at n w.
Proof. reflexivity. Qed.

Lemma fault_sent (v : Verb) (t : string) (w : World) :
  fault (sent v t w) = fault_at 1 w.
Proof. apply fault_at_sent. Qed.

Lemma fetch_served {A} (v : Verb) (table : string) (answer : DB → PgResp A)
  (w : World) :
  fault w = None → fetch v table answer w = (answer (db w), sent v table w).
Proof. intros Hf. unfold fetch. rewrite Hf. reflexivity. Qed.

Lemma fetch_failed {A} (v : Verb) (table : string) (answer : DB → PgResp A)
  (w : World) (message : string) :
  fault w = Some message →
  fetch v table answer w = (failed message, sent v table w).
Proof. intros Hf. unfold fetch. rewrite Hf. reflexivity. Qed.

Lemma fetch_world {A} (v : Verb) (table : string) (answer : DB → PgResp A)
  (w : World) :
  (fetch v table answer w).2 = sent v table w.
Proof. reflexivity. Qed.

Lemma served_fault (w : World) : served w → fault w = None.
Proof. intros Hs. apply Hs. Qed.

Lemma served_sent (v : Verb) (t : string) (w : World) :
  served w → served (sent v t w).
Proof. intros Hs n. rewrite fault_at_sent. apply Hs. Qed.

Lemma served_with_db (d : DB) (w : World) : served w → served (with_db d w).
Proof. intros Hs n. apply Hs. Qed.

(** ** What the backend answers *)

Section backend_facts.
Context {pol : Policy}.

Lemma select_stage_unknown (slug : string) (w : World) :
  stages_by_slug slug (db w) = [] →
  select_stage slug w =
    (failed "JSON object requested, multiple (or no) rows returned",
     sent GET "pipeline_stages" w).
Proof. intros Hs. unfold select_stage. rewrite Hs. reflexivity. Qed.

Lemma select_stage_cases (slug : string) (w : World) :
  (∃ st, stages_by_slug slug (db w) = [st] ∧
         select_stage slug w = (ok st, sent GET "pipeline_stages" w)) ∨
  ((∀ st, stages_by_slug slug (db w) ≠ [st]) ∧
   select_stage slug w =
     (failed "JSON object requested, multiple (or no) rows returned",
      sent GET "pipeline_stages" w)).
Proof.
  unfold select_stage.
  destruct (stages_by_slug slug (db w)) as [|st [|st' rest]].
  - right. split; [intros st [=]|reflexivity].
  - left. exists st. split; reflexivity.
  - right. split; [intros st0 [=]|reflexivity].
Qed.

Lemma select_stage_found (slug : string) (w : World) (st : string * Stage) :
  stages_by_slug slug (db w) = [st] →
  select_stage slug w = (ok st, sent GET "pipeline_stages" w).
Proof. intros Hs. unfold select_stage. rewrite Hs. reflexivity. Qed.

Lemma select_stage_ambiguous (slug : string) (w : World) :
  length (stages_by_slug slug (db w)) ≠ 1%nat →
  select_stage slug w =
    (failed "JSON object requested, multiple (or no) rows returned",
     sent GET "pipeline_stages" w).
Proof.
  intros Hs. unfold select_stage.
  destruct (stages_by_slug slug (db w)) as [|st [|st' rest]];
    [reflexivity|cbn in Hs; congruence|reflexivity].
Qed.

(** The lookup of a stage id gives the id of the one stage of the slug, when
    it is answered; it gives no data when it fails, or when the slug is not
    the slug of one stage. *)
Lemma select_stage_id_cases (slug : string) (w : World) :
  (∃ sid st, fault w = None ∧ stages_by_slug slug (db w) = [(sid, st)] ∧
             select_stage_id slug w = (ok sid, sent GET "pipeline_stages" w)) ∨
  (∃ message,
     (fault w = Some message ∨ ∀ st, stages_by_slug slug (db w) ≠ [st]) ∧
     select_stage_id slug w = (failed message, sent GET "pipeline_stages" w)).
Proof.
  unfold select_stage_id, fetch. destruct (fault w) as [message|].
  - right. exists message. split; [left|]; reflexivity.
  - destruct (stages_by_slug slug (db w)) as [|[sid st] [|st' rest]].
    + right. eexists. split; [right; intros st [=]|reflexivity].
    + left. exists sid, st. repeat split.
    + right. eexists. split; [right; intros st0 [=]|reflexivity].
Qed.

Lemma select_stage_id_none (slug : string) (w : World) :
  length (stages_by_slug slug (db w)) ≠ 1%nat →
  ∃ message,
    select_stage_id slug w = (failed message, sent GET "pipeline_stages" w).
Proof.
  intros Hs.
  destruct (select_stage_id_cases slug w)
    as [(sid & st & _ & Hst & _)|(message & _ & Hq)].
  - rewrite Hst in Hs. cbn in Hs. congruence.
  - exists message. exact Hq.
Qed.

Lemma select_custom_fields_found (id : string) (w : World) (l : Lead) :
  leads (db w) !! id = Some l →
  fault w = None →
  select_custom_fields id w = (ok (lead_custom_fields l), sent GET "leads" w).
Proof.
  intros Hl Hf. unfold select_custom_fields.
  rewrite (fetch_served _ _ _ _ Hf), Hl. reflexivity.
Qed.

Lemma select_custom_fields_failed (id : string) (w : World)
  (message : string) :
  fault w = Some message →
  select_custom_fields id w = (failed message, sent GET "leads" w).
Proof. apply fetch_failed. Qed.

Lemma select_custom_fields_missing (id : string) (w : World) :
  leads (db w) !! id = None →
  ∃ message,
    select_custom_fields id w = (failed message, sent GET "leads" w).
Proof.
  intros Hl. unfold select_custom_fields, fetch.
  destruct (fault w) as [message|]; [eexists; reflexivity|].
  rewrite Hl. eexists. reflexivity.
Qed.

Lemma update_lead_found (id : string) (f : Lead → Lead) (sel : StageSelect)
  (w : World) (l : Lead) :
  leads (db w) !! id = Some l →
  update_lead id f sel w =
    let d := set_leads (<[id := f l]> (leads (db w))) (db w) in
    (ok (lead_row sel false d (id, f l)), sent PATCH "leads" (with_db d w)).
Proof. intros Hl. unfold update_lead. rewrite Hl. reflexivity. Qed.

Lemma update_lead_missing (id : string) (f : Lead → Lead) (sel : StageSelect)
  (w : World) :
  leads (db w) !! id = None →
  update_lead id f sel w =
    (failed "JSON object requested, multiple (or no) rows returned",
     sent PATCH "leads" w).
Proof. intros Hl. unfold update_lead. rewrite Hl. reflexivity. Qed.

Lemma count_or_zero_Some (n : nat) : count_or_zero (Some n) = n.
Proof. destruct n; reflexivity. Qed.

(** What [createLead] makes of the count: the number of leads of the stage
    when the count is answered, zero when it fails. *)
Lemma count_leads_count (sid : string) (head : bool) (w : World) :
  count_or_zero (count (count_leads sid head w).1) =
    match fault w with
    | None => length (leads_in_stage sid (db w))
    | Some _ => 0%nat
    end.
Proof.
  unfold count_leads, fetch. cbn [fst].
  destruct (fault w); [reflexivity|]. cbn [count]. apply count_or_zero_Some.
Qed.

Lemma count_leads_world (sid : string) (head : bool) (w : World) :
  (count_leads sid head w).2 = sent (if head then HEAD else GET) "leads" w.
Proof. reflexivity. Qed.

(** An insert is refused and changes nothing, or adds one row under an id
    the table did not have. *)
Lemma insert_lead_cases (r : LeadInsert) (w : World) :
  (∃ message, insert_check (db w) r = Some message ∧
     insert_lead r w = (failed message, sent POST "leads" w)) ∨
  (∃ row, insert_check (db w) r = None ∧
     error (insert_lead r w).1 = None ∧
     data (insert_lead r w).1 = Some row ∧
     leads (db w) !! row_id row = None ∧
     leads (db (insert_lead r w).2) =
       <[row_id row := row_lead row]> (leads (db w)) ∧
     lead_stage_id (row_lead row) = Some (ins_stage_id r) ∧
     lead_position (row_lead row) = ins_position r).
Proof.
  unfold insert_lead. destruct (insert_check (db w) r) as [message|] eqn:Hc.
  - left. exists message. split; reflexivity.
  - right. eexists. split; [reflexivity|]. cbn.
    repeat split.
    apply not_elem_of_dom, is_fresh.
Qed.

End backend_facts.

(** ** Merging custom fields *)

Lemma merge_fields_lookup (old update : option JSON) (k : string) :
  merge_fields old update !! k =
    match spread update !! k with
    | Some v => Some v
    | None => spread (Some (or_empty old)) !! k
    end.
Proof.
  unfold merge_fields. rewrite lookup_union.
  destruct (spread update !! k), (spread (Some (or_empty old)) !! k);
    reflexivity.
Qed.

Lemma merge_fields_none (m : gmap string JSON) :
  merge_fields None (Some (JObj m)) = m.
Proof. unfold merge_fields. cbn. apply (right_id_L ∅ (∪)). Qed.

Lemma stored_fields_object (m : gmap string JSON) : stored_fields (JObj m) = m.
Proof. reflexivity. Qed.

Lemma stored_fields_null : stored_fields JNull = ∅.
Proof. reflexivity. Qed.

Lemma or_empty_object (m : gmap string JSON) :
  or_empty (Some (JObj m)) = JObj m.
Proof. reflexivity. Qed.

#[local] Arguments merge_fields : simpl never.
#[local] Arguments set_leads : simpl never.

(** ** Ordering and limit *)

Lemma insert_desc_perm {A} (key : A → Z) (x : A) (l : list A) :
  insert_desc key x l ≡ₚ x :: l.
Proof.
  induction l as [|y r IH]; [reflexivity|]. cbn [insert_desc].
  destruct (key y <=? key x)%Z; [reflexivity|].
  rewrite IH. apply Permutation_swap.
Qed.

Lemma order_desc_perm {A} (key : A → Z) (l : list A) : order_desc key l ≡ₚ l.
Proof.
  induction l as [|x l IH]; [reflexivity|].
  unfold order_desc in *. cbn [foldr]. rewrite insert_desc_perm, IH.
  reflexivity.
Qed.

Lemma insert_desc_descending {A} (key : A → Z) (x : A) (l : list A) :
  descending key l → descending key (insert_desc key x l).
Proof.
  unfold descending. induction l as [|y r IH]; intros Hs; cbn [insert_desc].
  - repeat constructor.
  - apply StronglySorted_inv in Hs as [Hr Hy].
    destruct (key y <=? key x)%Z eqn:Hc.
    + apply Z.leb_le in Hc. constructor; [constructor; assumption|].
      constructor; [exact Hc|].
      eapply Forall_impl; [exact Hy|]. cbn. intros b Hb. lia.
    + apply Z.leb_gt in Hc. constructor; [apply IH, Hr|].
      rewrite insert_desc_perm. constructor; [lia|exact Hy].
Qed.

Lemma order_desc_descending {A} (key : A → Z) (l : list A) :
  descending key (order_desc key l).
Proof.
  induction l as [|x l IH]; [constructor|].
  apply insert_desc_descending, IH.
Qed.

Lemma descending_fmap {A B} (f : A → B) (key : B → Z) (l : list A) :
  descending (λ a, key (f a)) l → descending key (f <$> l).
Proof.
  unfold descending. induction 1 as [|a l _ IH Ha]; cbn; constructor.
  - exact IH.
  - apply Forall_fmap. exact Ha.
Qed.

Lemma take_clamped {A} (n : Z) (l : list A) :
  take (Z.to_nat (Z.min n (Z.of_nat (length l)))) l = take (Z.to_nat n) l.
Proof.
  destruct (Z.le_gt_cases n (Z.of_nat (length l))) as [Hle|Hgt].
  - rewrite Z.min_l by exact Hle. reflexivity.
  - rewrite Z.min_r by lia. rewrite Nat2Z.id.
    rewrite !take_ge by lia. reflexivity.
Qed.

(** What [.limit(n)] answers with. *)
Lemma limited_rows {A} (f : float) (all : list A) :
  limited f all =
    match limit_rows f with
    | Some n => ok (take (Z.to_nat n) all)
    | None => failed "invalid limit"
    end.
Proof.
  unfold limited. destruct (limit_rows f) as [n|]; [|reflexivity].
  rewrite take_clamped. reflexivity.
Qed.

Lemma limited_data {A} (f : float) (all rows : list A) :
  data (limited f all) = Some rows →
  ∃ n, limit_rows f = Some n ∧ rows = take (Z.to_nat n) all.
Proof.
  rewrite limited_rows. destruct (limit_rows f) as [n|]; [|discriminate].
  cbn [data ok]. intros [= <-]. exists n. split; reflexivity.
Qed.

Lemma limited_error {A} (f : float) (all : list A) :
  error (limited f all) = None → ∃ rows, data (limited f all) = Some rows.
Proof.
  unfold limited. destruct (limit_rows f); [|discriminate].
  intros _. eexists. reflexivity.
Qed.

(** ** Selecting leads *)

Lemma eq_filter_true (value column : option string) :
  eq_filter value column = true ↔ ∀ v, value = Some v → column = Some v.
Proof.
  unfold eq_filter. destruct value as [v|].
  - rewrite bool_decide_eq_true. split.
    + intros -> v' [= ->]. reflexivity.
    + intros H. apply H. reflexivity.
  - split; [intros _ v [=]|reflexivity].
Qed.

(** The leads a select on [leads] has before the limit: those that match,
    newest first, each with its stage and its seller. *)
Lemma matching_leads_newest (q : LeadsQuery) (d : DB) (n : Z) :
  newest_leads d (lead_of (q_stage_id q) (q_vendedor_id q)) n
    (take (Z.to_nat n)
       (lead_row NameSlugColor true d <$>
          order_desc (λ kv, lead_created_at kv.2)
            (filter (λ kv, lead_matches q kv) (map_to_list (leads d))))).
Proof.
  eexists. split; [reflexivity|]. split; [|split].
  - apply descending_fmap. cbn [row_lead lead_row].
    apply (order_desc_descending (λ kv : string * Lead, lead_created_at kv.2)).
  - rewrite <- list_fmap_compose.
    rewrite order_desc_perm.
    apply (NoDup_fmap_2_strong _).
    + intros [i1 l1] [i2 l2] H1 H2. cbn. intros ->.
      apply list_elem_of_filter in H1 as [_ H1], H2 as [_ H2].
      apply elem_of_map_to_list in H1, H2. congruence.
    + apply NoDup_filter, NoDup_map_to_list.
  - intros r. rewrite list_elem_of_fmap.
    assert (lead_matches q (row_id r, row_lead r) = true
            ↔ lead_of (q_stage_id q) (q_vendedor_id q) (row_lead r)) as Hm.
    { unfold lead_matches, lead_of.
      rewrite andb_true_iff, !eq_filter_true. cbn [snd]. tauto. }
    rewrite <- Hm. split.
    + intros ([i l] & -> & Hin). rewrite order_desc_perm in Hin.
      apply list_elem_of_filter in Hin as [Hq Hin].
      apply elem_of_map_to_list in Hin. cbn [lead_row row_id row_lead fst snd].
      split; [reflexivity|]. split; [exact Hin|].
      cbn in Hq. destruct (lead_matches q (i, l)); [reflexivity|].
      exfalso. exact Hq.
    + intros (Hr & Hl & Hq). exists (row_id r, row_lead r).
      split; [exact Hr|]. rewrite order_desc_perm.
      apply list_elem_of_filter. split.
      * cbn. rewrite Hq. exact I.
      * apply elem_of_map_to_list. exact Hl.
Qed.

(** A select on [leads] answers with the first of them, or fails on a limit
    that is no row count. *)
Lemma select_leads_answer (q : LeadsQuery) (w : World) :
  (select_leads q w).2 = sent GET "leads" w ∧
  match limit_rows (q_limit q) with
  | Some n =>
      ∃ rows, (select_leads q w).1 = ok rows ∧
              newest_leads (db w) (lead_of (q_stage_id q) (q_vendedor_id q))
                n rows
  | None => (select_leads q w).1 = failed "invalid limit"
  end.
Proof.
  split; [reflexivity|]. unfold select_leads. cbn [fst].
  rewrite limited_rows. destruct (limit_rows (q_limit q)) as [n|];
    [|reflexivity].
  eexists. split; [reflexivity|]. apply matching_leads_newest.
Qed.

Lemma stage_filter_none (slug : string) (w : World) :
  length (stages_by_slug slug (db w)) ≠ 1%nat →
  stage_filter (Some slug) w = None.
Proof.
  intros Hs. unfold stage_filter. cbn [given].
  destruct (truthy_str slug); [|reflexivity].
  destruct (fault w); [reflexivity|].
  destruct (stages_by_slug slug (db w)) as [|st [|st' rest]];
    [reflexivity|cbn in Hs; congruence|reflexivity].
Qed.

Lemma leads_answer_db (prefix : string) (q : LeadsQuery) (w0 w1 : World) :
  db w0 = db w1 →
  (leads_answer prefix q w0).1 = (leads_answer prefix q w1).1 ∧
  db (leads_answer prefix q w0).2 = db w0.
Proof.
  intros Hd. unfold leads_answer, select_leads. cbn [fst snd]. split.
  - rewrite Hd.
    match goal with
    | |- context [error ?r] => destruct (error r)
    end; reflexivity.
  - match goal with
    | |- context [error ?r] => destruct (error r)
    end; reflexivity.
Qed.

(** [get_leads] returns the first rows of the leads its query matches, or
    throws on a limit that is no row count. *)
Lemma leads_answer_rows (prefix : string) (q : LeadsQuery) (w0 : World) :
  match limit_rows (q_limit q) with
  | Some n =>
      ∃ rows,
        leads_answer prefix q w0
          = (inr (LeadList (Some rows)), sent GET "leads" w0) ∧
        newest_leads (db w0) (lead_of (q_stage_id q) (q_vendedor_id q)) n rows
  | None =>
      leads_answer prefix q w0
        = (inl (Error (prefix ++ "invalid limit")), sent GET "leads" w0)
  end.
Proof.
  unfold leads_answer.
  destruct (select_leads_answer q w0) as [-> Hq].
  destruct (limit_rows (q_limit q)) as [n|].
  - destruct Hq as (rows & -> & Hrows). exists rows. split; [reflexivity|].
    exact Hrows.
  - rewrite Hq. reflexivity.
Qed.

Lemma looked_up_db (slug : option string) (w : World) :
  db (looked_up slug w) = db w.
Proof. unfold looked_up. destruct (given slug); reflexivity. Qed.

(** The query [get_leads] ends up sending, in each of the servers. *)
Ltac leads_query slug vendedor :=
  unfold Stdio.getLeads, Http.getLeads, Sse.getLeads, stage_filter, looked_up;
  cbn [http_GetLeads Http.gl_stage_slug Http.gl_vendedor_id Http.gl_limit];
  destruct (given slug) as [s|];
  [ rewrite bind_assoc, bind_await; unfold select_stage_id, fetch;
    cbn [fst snd];
    destruct (fault _) as [message|];
    [|destruct (stages_by_slug s _) as [|[sid st] [|st' rest]]];
    cbn [single data ok failed fmap list_fmap fst]
  | ];
  rewrite bind_ret;
  (destruct (given vendedor) as [v|];
   rewrite bind_await; unfold leads_answer;
   cbn zeta; unfold eq_vendedor_id, eq_stage_id;
   cbn [q_limit q_stage_id q_vendedor_id fst];
   match goal with
   | |- context [error ?r] => destruct (error r)
   end; reflexivity).

Lemma stdio_getLeads_query (p : GetLeadsParams) (w : World) :
  Stdio.getLeads p w =
    leads_answer "Failed to fetch leads: "
      {| q_limit := num_or (Some (gl_limit p)) 50%float;
         q_stage_id := stage_filter (gl_stage_slug p) w;
         q_vendedor_id := given (gl_vendedor_id p) |}
      (looked_up (gl_stage_slug p) w).
Proof. leads_query (gl_stage_slug p) (gl_vendedor_id p). Qed.

Lemma http_getLeads_query (p : Http.GetLeadsParams) (w : World) :
  Http.getLeads p w =
    leads_answer EmptyString
      {| q_limit := num_or (Http.gl_limit p) 50%float;
         q_stage_id := stage_filter (Http.gl_stage_slug p) w;
         q_vendedor_id := given (Http.gl_vendedor_id p) |}
      (looked_up (Http.gl_stage_slug p) w).
Proof. leads_query (Http.gl_stage_slug p) (Http.gl_vendedor_id p). Qed.

Lemma sse_getLeads_query (p : GetLeadsParams) (w : World) :
  Sse.getLeads p w =
    leads_answer EmptyString
      {| q_limit := num_or (Some (gl_limit p)) 50%float;
         q_stage_id := stage_filter (gl_stage_slug p) w;
         q_vendedor_id := given (gl_vendedor_id p) |}
      (looked_up (gl_stage_slug p) w).
Proof. leads_query (gl_stage_slug p) (gl_vendedor_id p). Qed.

Lemma getLeads_query (t : Transport) (p : GetLeadsParams) (w : World) :
  getLeads_via t p w =
    leads_answer (if t is stdio then "Failed to fetch leads: "
                  else EmptyString)
      {| q_limit := num_or (Some (gl_limit p)) 50%float;
         q_stage_id := stage_filter (gl_stage_slug p) w;
         q_vendedor_id := given (gl_vendedor_id p) |}
      (looked_up (gl_stage_slug p) w).
Proof.
  destruct t; cbn [getLeads_via].
  - apply stdio_getLeads_query.
  - apply (http_getLeads_query (http_GetLeads p)).
  - apply sse_getLeads_query.
Qed.

(** ** Updating custom fields *)

(** C1, where the code departs from it. Lead [lead_1] of the fixture has
    [valor_estimado: 100]; the update is [{cor_desejada: "azul"}]; the read of
    the current fields fails and the update that follows is served. The HTTP
    and the event-stream servers return a success and leave the lead with the
    fields of the update alone: [valor_estimado] is gone. The standard-stream
    server reads the error of the read, throws, and writes nothing. *)
Lemma failed_read_replaces_fields :
  leads Fixture.backend !! Fixture.lead_1 = Some Fixture.ana ∧
  lead_custom_fields Fixture.ana
    = JObj {[ "valor_estimado" := JNum 100%float ]} ∧
  fault Fixture.world_first_fails = Some "TypeError: fetch failed" ∧
  (∀ t, t ≠ stdio →
     ∃ row w',
       updateLeadCustomFields_via t (Fixture.paint_update Fixture.lead_1)
         Fixture.world_first_fails = (inr (Success None (Some row)), w') ∧
       leads (db w') !! Fixture.lead_1 =
         Some (set_custom_fields (JObj {[ "cor_desejada" := JStr "azul" ]})
                 Fixture.ana) ∧
       valor_estimado (lead_custom_fields (row_lead row)) = None) ∧
  updateLeadCustomFields_via stdio (Fixture.paint_update Fixture.lead_1)
    Fixture.world_first_fails =
    (inl (Error ("Lead not found: " ++ Fixture.lead_1)),
     sent GET "leads" Fixture.world_first_fails).
Proof.
  split; [vm_compute; reflexivity|].
  split; [reflexivity|]. split; [reflexivity|].
  split; [|vm_compute; reflexivity].
  intros t Ht. destruct t; [congruence| |];
    (eexists _, _; split; [vm_compute; reflexivity|]);
    split; vm_compute; reflexivity.
Qed.

(** What [update_lead_custom_fields] does to an existing lead when the read
    of its fields is answered, and when it fails. *)
Lemma updateLeadCustomFields_found (t : Transport)
  (p : UpdateLeadCustomFieldsParams) (w : World) (l : Lead) :
  leads (db w) !! ucf_lead_id p = Some l →
  fault w = None →
  ∃ message row,
    updateLeadCustomFields_via t p w =
      (inr (Success message (Some row)),
       sent PATCH "leads"
         (with_db
            (set_leads
               (<[ucf_lead_id p :=
                    set_custom_fields
                      (JObj (ucf_custom_fields p
                             ∪ stored_fields (lead_custom_fields l))) l]>
                  (leads (db w)))
               (db w))
            (sent GET "leads" w))).
Proof.
  intros Hl Hf.
  destruct t; cbn [updateLeadCustomFields_via];
    unfold Stdio.updateLeadCustomFields, Http.updateLeadCustomFields,
      Sse.updateLeadCustomFields;
    cbn [http_UpdateLeadCustomFields Http.ucf_lead_id Http.ucf_custom_fields
         filter_text];
    rewrite bind_await, (select_custom_fields_found _ _ _ Hl Hf);
    cbn [fst snd data error ok]; rewrite bind_await;
    rewrite (update_lead_found _ _ _ _ l) by exact Hl;
    cbn [fst snd data error ok];
    eexists _, _; reflexivity.
Qed.

Lemma updateLeadCustomFields_unread (t : Transport)
  (p : UpdateLeadCustomFieldsParams) (w : World) (l : Lead)
  (message : string) :
  leads (db w) !! ucf_lead_id p = Some l →
  fault w = Some message →
  updateLeadCustomFields_via stdio p w =
    (inl (Error ("Lead not found: " ++ ucf_lead_id p)), sent GET "leads" w) ∧
  (t ≠ stdio →
   ∃ row,
     updateLeadCustomFields_via t p w =
       (inr (Success None (Some row)),
        sent PATCH "leads"
          (with_db
             (set_leads
                (<[ucf_lead_id p :=
                     set_custom_fields (JObj (ucf_custom_fields p)) l]>
                   (leads (db w)))
                (db w))
             (sent GET "leads" w)))).
Proof.
  intros Hl Hf. split.
  - cbn [updateLeadCustomFields_via]. unfold Stdio.updateLeadCustomFields.
    rewrite bind_await, (select_custom_fields_failed _ _ _ Hf). reflexivity.
  - intros Ht. destruct t; [congruence| |];
      cbn [updateLeadCustomFields_via];
      unfold Http.updateLeadCustomFields, Sse.updateLeadCustomFields;
      cbn [http_UpdateLeadCustomFields Http.ucf_lead_id Http.ucf_custom_fields
           filter_text];
      rewrite bind_await, (select_custom_fields_failed _ _ _ Hf);
      cbn [fst snd data error failed]; rewrite bind_await;
      rewrite (update_lead_found _ _ _ _ l) by exact Hl;
      cbn [fst snd data error ok]; rewrite merge_fields_none;
      eexists; reflexivity.
Qed.

Lemma updateLeadCustomFields_missing (t : Transport)
  (p : UpdateLeadCustomFieldsParams) (w : World) :
  leads (db w) !! ucf_lead_id p = None →
  updateLeadCustomFields_via t p w =
    if t is stdio
    then (inl (Error ("Lead not found: " ++ ucf_lead_id p)),
          sent GET "leads" w)
    else (inl (Error "JSON object requested, multiple (or no) rows returned"),
          sent PATCH "leads" (sent GET "leads" w)).
Proof.
  intros Hl.
  destruct (select_custom_fields_missing _ _ Hl) as [message Hq].
  destruct t; cbn [updateLeadCustomFields_via];
    unfold Stdio.updateLeadCustomFields, Http.updateLeadCustomFields,
      Sse.updateLeadCustomFields;
    cbn [http_UpdateLeadCustomFields Http.ucf_lead_id Http.ucf_custom_fields
         filter_text];
    rewrite bind_await, Hq;
    cbn [fst snd data error failed];
    rewrite ?bind_await, ?update_lead_missing by exact Hl;
    reflexivity.
Qed.

(** ** Creating a lead, and unknown stages *)

Section stages.
Context {pol : Policy}.

(** What a [create_lead] that returns has done, in any of the servers. *)
Lemma createLead_inserts (t : Transport) (p : CreateLeadParams) (w w' : World)
  (r : ToolResult) :
  createLead_via t p w = (inr r, w') →
  ∃ sid st message row,
    fault w = None ∧
    stages_by_slug (str_or (Some (cl_stage_slug p)) "lead") (db w)
      = [(sid, st)] ∧
    r = Success message (Some row) ∧
    leads (db w) !! row_id row = None ∧
    row_lead row =
      {| lead_name := Some (cl_name p); lead_phone := cl_phone p;
         lead_email := cl_email p; lead_stage_id := Some sid;
         lead_vendedor_id := Some (cl_vendedor_id p);
         lead_custom_fields := JObj (default ∅ (cl_custom_fields p));
         lead_notes := cl_notes p;
         lead_position :=
           match fault_at 1 w with
           | None => Z.of_nat (length (leads_in_stage sid (db w)))
           | Some _ => 0%Z
           end;
         lead_created_at := clock (db w) |} ∧
    db w' =
      {| pipeline_stages := pipeline_stages (db w);
         leads := <[row_id row := row_lead row]> (leads (db w));
         profiles := profiles (db w);
         price_catalog := price_catalog (db w);
         lead_history := lead_history (db w);
         clock := (clock (db w) + 1)%Z |}.
Proof.
  destruct t; cbn [createLead_via];
    unfold Stdio.createLead, Http.createLead, Sse.createLead;
    cbn [http_CreateLead Http.cl_stage_slug Http.cl_name Http.cl_phone
         Http.cl_email Http.cl_vendedor_id Http.cl_custom_fields Http.cl_notes];
    rewrite bind_await;
    (destruct (select_stage_id_cases (str_or (Some (cl_stage_slug p)) "lead") w)
       as [(sid & st & Hf & Hs & ->)|(message & _ & ->)];
     cbn [fst snd data error ok failed]; [|intros [=]]);
    rewrite !bind_await, count_leads_count, count_leads_world, fault_sent;
    unfold insert_lead; cbn [db sent];
    (destruct (insert_check (db w) _);
     cbn [fst snd data error ok failed]; [intros [=]|]);
    intros [= <- <-]; exists sid, st; eexists _, _;
    (split; [exact Hf|]); (split; [exact Hs|]); (split; [reflexivity|]);
    cbn [row_id row_lead lead_row fst snd db with_db];
    (split; [apply not_elem_of_dom, is_fresh|]);
    (split; [|reflexivity]);
    cbn [ins_name ins_phone ins_email ins_stage_id ins_vendedor_id
         ins_custom_fields ins_notes ins_position];
    destruct (cl_custom_fields p), (fault_at 1 w); reflexivity.
Qed.

(** The same for the HTTP handler on parameters of which any may be
    missing. *)
Lemma http_createLead_appends (p : Http.CreateLeadParams) (w w' : World)
  (r : ToolResult) :
  Http.createLead p w = (inr r, w') →
  appended_to_stage (str_or (Http.cl_stage_slug p) "lead") w r w'.
Proof.
  unfold Http.createLead. rewrite bind_await.
  destruct (select_stage_id_cases (str_or (Http.cl_stage_slug p) "lead") w)
    as [(sid & st & Hf & Hs & ->)|(message & _ & ->)];
    cbn [fst snd data error ok failed]; [|intros [=]].
  rewrite !bind_await, count_leads_count, count_leads_world, fault_sent.
  match goal with
  | |- context [insert_lead ?row ?w0] =>
      destruct (insert_lead_cases row w0)
        as [(message & _ & ->)
           |(row' & _ & -> & -> & Hnew & Hleads & Hsid & Hpos)];
      cbn [fst snd data error ok failed]; [intros [=]|]
  end.
  intros [= <- <-]. exists sid, st. eexists _, row'.
  split; [exact Hs|]. split; [reflexivity|]. split; [exact Hnew|].
  split; [exact Hleads|]. split; [exact Hsid|].
  rewrite Hpos. cbn [ins_position]. destruct (fault_at 1 w); reflexivity.
Qed.

(** C2, as the code has it. In each of the three servers, a [create_lead]
    that returns has inserted one lead, in the one stage its slug (or
    ["lead"]) resolves to. The [position] of that lead is what the count of
    the leads of that stage gave: their number, when the count was
    answered; zero, when it failed, for the handlers do not read its error.
    The row that is inserted takes its position from that count and from
    nothing in the parameters. *)
Theorem create_lead_position (w w' : World) (r : ToolResult) :
  (∀ p, Stdio.createLead p w = (inr r, w') →
        appended_to_stage (str_or (Some (cl_stage_slug p)) "lead") w r w') ∧
  (∀ p, Http.createLead p w = (inr r, w') →
        appended_to_stage (str_or (Http.cl_stage_slug p) "lead") w r w') ∧
  (∀ p, Sse.createLead p w = (inr r, w') →
        appended_to_stage (str_or (Some (cl_stage_slug p)) "lead") w r w').
Proof.
  assert (∀ t p, createLead_via t p w = (inr r, w') →
                 appended_to_stage (str_or (Some (cl_stage_slug p)) "lead")
                   w r w') as Hvia.
  { intros t p Hrun.
    apply createLead_inserts in Hrun
      as (sid & st & message & row & _ & Hs & -> & Hnew & Hrow & Hdb).
    exists sid, st, message, row. rewrite Hdb, Hrow. repeat split; assumption. }
  split; [intros p; apply (Hvia stdio)|].
  split; [intros p; apply http_createLead_appends|].
  intros p; apply (Hvia sse).
Qed.

Lemma str_or_nonempty (s d : string) : s ≠ EmptyString → str_or (Some s) d = s.
Proof. destruct s; [congruence|reflexivity]. Qed.

(** C3, as the code has it. For a stage slug that no stage has, in each of
    the three servers: [update_lead_stage] throws a stage-not-found error, and
    so does [create_lead] when the slug is not the empty string; the backend
    has then received the stage lookup and nothing else, and its tables are
    as they were. *)
Theorem unknown_stage_rejected (t : Transport) (slug : string) (w : World) :
  stages_by_slug slug (db w) = [] →
  (∀ p, uls_new_stage_slug p = slug →
     ∃ e, updateLeadStage_via t p w = (inl e, sent GET "pipeline_stages" w) ∧
          StageNotFound e) ∧
  (∀ p, cl_stage_slug p = slug → slug ≠ EmptyString →
     ∃ e, createLead_via t p w = (inl e, sent GET "pipeline_stages" w) ∧
          StageNotFound e).
Proof.
  intros Hs. split.
  - intros p <-.
    destruct t; cbn [updateLeadStage_via];
      unfold Stdio.updateLeadStage, Http.updateLeadStage, Sse.updateLeadStage;
      cbn [http_UpdateLeadStage Http.uls_new_stage_slug Http.uls_lead_id
           filter_text];
      rewrite bind_await, (select_stage_unknown _ _ Hs);
      cbn [fst snd data error failed];
      (eexists; split; [reflexivity|]); eexists; reflexivity.
  - intros p <- Hne.
    destruct (select_stage_id_none (cl_stage_slug p) w) as [message Hq];
      [rewrite Hs; discriminate|].
    destruct t; cbn [createLead_via];
      unfold Stdio.createLead, Http.createLead, Sse.createLead;
      cbn [http_CreateLead Http.cl_stage_slug];
      rewrite bind_await, (str_or_nonempty _ _ Hne), Hq;
      cbn [fst snd data error failed];
      (eexists; split; [reflexivity|]).
    + eexists; reflexivity.
    + exists EmptyString; reflexivity.
    + exists EmptyString; reflexivity.
Qed.

(** C4, as the code has it. When no lead has the given id,
    [update_lead_custom_fields] throws in each of the three servers and the
    tables stay as they were. The standard-stream server throws a
    lead-not-found error after the read, with no write sent. The HTTP and the
    event-stream servers go on after the read: they send the update, which
    matches no row, and throw the backend's error for it. *)
Theorem missing_lead_fails (p : UpdateLeadCustomFieldsParams) (w : World) :
  leads (db w) !! ucf_lead_id p = None →
  (∃ e, updateLeadCustomFields_via stdio p w = (inl e, sent GET "leads" w) ∧
        LeadNotFound e) ∧
  (∀ t, t ≠ stdio →
     updateLeadCustomFields_via t p w =
       (inl (Error "JSON object requested, multiple (or no) rows returned"),
        sent PATCH "leads" (sent GET "leads" w))).
Proof.
  intros Hl. split.
  - rewrite (updateLeadCustomFields_missing stdio p w Hl).
    eexists; split; [reflexivity|]. eexists; reflexivity.
  - intros t Ht. rewrite (updateLeadCustomFields_missing t p w Hl).
    destruct t; [congruence| |]; reflexivity.
Qed.

(** [get_leads] with the stage filter [None]. *)
Lemma leads_answer_unfiltered (prefix : string) (limit : float)
  (seller : option string) (w w0 w1 : World) :
  db w0 = db w → db w1 = db w →
  unfiltered w limit seller
    (leads_answer prefix
       {| q_limit := limit; q_stage_id := None; q_vendedor_id := seller |} w0)
    (leads_answer prefix
       {| q_limit := limit; q_stage_id := None; q_vendedor_id := seller |} w1).
Proof.
  intros H0 H1. set (q := {| q_limit := limit |}).
  destruct (leads_answer_db prefix q w0 w1) as [Hsame Hdb]; [congruence|].
  split; [exact Hsame|]. split; [congruence|].
  pose proof (leads_answer_rows prefix q w0) as Hrows.
  cbn [q q_limit q_stage_id q_vendedor_id] in Hrows.
  destruct (limit_rows limit) as [n|].
  - destruct Hrows as (rows & -> & Hrows). exists rows.
    rewrite <- H0. split; [reflexivity|exact Hrows].
  - rewrite Hrows. eexists. reflexivity.
Qed.

(** C7. In each of the three servers, [get_leads] with a stage slug that no
    stage has returns what the same call without a stage slug returns (same
    seller filter, same limit, same order), rows or error, and leaves the
    tables as they were. What it returns is the first [limit] (50 when the
    limit is zero or missing) of all the leads of the seller asked for, of
    all the leads when none is, whatever their stage, newest first; it
    throws only on a limit that is no row count. *)
Theorem get_leads_unknown_slug (slug : string) (w : World) :
  stages_by_slug slug (db w) = [] →
  (∀ p, gl_stage_slug p = Some slug →
        unfiltered w (num_or (Some (gl_limit p)) 50) (given (gl_vendedor_id p))
          (Stdio.getLeads p w) (Stdio.getLeads (no_stage_slug p) w)) ∧
  (∀ p, Http.gl_stage_slug p = Some slug →
        unfiltered w (num_or (Http.gl_limit p) 50)
          (given (Http.gl_vendedor_id p))
          (Http.getLeads p w) (Http.getLeads (http_no_stage_slug p) w)) ∧
  (∀ p, gl_stage_slug p = Some slug →
        unfiltered w (num_or (Some (gl_limit p)) 50) (given (gl_vendedor_id p))
          (Sse.getLeads p w) (Sse.getLeads (no_stage_slug p) w)).
Proof.
  intros Hs.
  assert (stage_filter (Some slug) w = None) as Hf
    by (apply stage_filter_none; rewrite Hs; discriminate).
  split; [|split]; intros p Hp;
    rewrite ?stdio_getLeads_query, ?http_getLeads_query, ?sse_getLeads_query;
    cbn [no_stage_slug http_no_stage_slug Http.gl_stage_slug
         Http.gl_vendedor_id Http.gl_limit gl_stage_slug gl_vendedor_id
         gl_limit];
    rewrite Hp, Hf;
    apply leads_answer_unfiltered; try reflexivity; apply looked_up_db.
Qed.

End stages.
Lemma create_lead_position_witness :
  ∃ r w',
    Http.createLead (pol := Fixture.policy) Fixture.only_name Fixture.world
      = (inr r, w') ∧
    appended_to_stage "lead" Fixture.world r w'.
Proof.
  destruct (Http.createLead (pol := Fixture.policy) Fixture.only_name
              Fixture.world) as [[e|r] w'] eqn:Hrun.
  - exfalso. vm_compute in Hrun. discriminate Hrun.
  - exists r, w'. split; [reflexivity|].
    destruct (create_lead_position (pol := Fixture.policy) Fixture.world w' r)
      as (_ & Hhttp & _).
    exact (Hhttp Fixture.only_name Hrun).
Defined.

(** The stage ["lead"] of the fixture has two leads. With the count failing
    and the insert served, [create_lead] returns a lead it has put at
    position 0. *)
Lemma failed_count_position_zero :
  length (leads_in_stage Fixture.st_lead Fixture.backend) = 2%nat ∧
  fault_at 1 Fixture.world_second_fails = Some "TypeError: fetch failed" ∧
  ∀ t,
    ∃ message row w',
      createLead_via (pol := Fixture.policy) t (Fixture.new_lead "lead")
        Fixture.world_second_fails
        = (inr (Success message (Some row)), w') ∧
      lead_stage_id (row_lead row) = Some Fixture.st_lead ∧
      lead_position (row_lead row) = 0%Z ∧
      leads (db w') !! row_id row = Some (row_lead row).
Proof.
  split; [vm_compute; reflexivity|]. split; [reflexivity|].
  intros t. destruct t;
    (eexists _, _, _; split; [vm_compute; reflexivity|]);
    repeat split; vm_compute; reflexivity.
Qed.

Lemma unknown_stage_rejected_witness :
  stages_by_slug "perdido" Fixture.backend = [] ∧
  (∃ e, updateLeadStage_via http (Fixture.move_lead "perdido") Fixture.world
          = (inl e, sent GET "pipeline_stages" Fixture.world) ∧
        StageNotFound e) ∧
  (∃ e, createLead_via (pol := Fixture.policy) http
          (Fixture.new_lead "perdido") Fixture.world
          = (inl e, sent GET "pipeline_stages" Fixture.world) ∧
        StageNotFound e).
Proof.
  assert (Hs : stages_by_slug "perdido" (db Fixture.world) = [])
    by (vm_compute; reflexivity).
  split; [exact Hs|].
  destruct (unknown_stage_rejected (pol := Fixture.policy) http "perdido"
              Fixture.world Hs) as [Hmove Hcreate].
  split.
  - apply Hmove. reflexivity.
  - apply Hcreate; [reflexivity|discriminate].
Defined.

(** With the empty string for a slug, which no stage of the fixture has,
    [create_lead] falls back to ["lead"]: it returns, and the lead is in the
    table afterwards. *)
Lemma empty_slug_creates_lead :
  stages_by_slug EmptyString Fixture.backend = [] ∧
  ∃ message row,
    (createLead_via (pol := Fixture.policy) stdio
       (Fixture.new_lead EmptyString) Fixture.world).1
      = inr (Success message (Some row)) ∧
    lead_stage_id (row_lead row) = Some Fixture.st_lead ∧
    leads Fixture.backend !! row_id row = None ∧
    leads (db (createLead_via (pol := Fixture.policy) stdio
                 (Fixture.new_lead EmptyString) Fixture.world).2)
      !! row_id row = Some (row_lead row).
Proof.
  split; [vm_compute; reflexivity|].
  eexists _, _. split; [vm_compute; reflexivity|].
  repeat split; vm_compute; reflexivity.
Qed.

Lemma missing_lead_fails_witness :
  leads Fixture.backend !! Fixture.lead_9 = None ∧
  (∃ e, updateLeadCustomFields_via stdio (Fixture.paint_update Fixture.lead_9)
          Fixture.world = (inl e, sent GET "leads" Fixture.world) ∧
        LeadNotFound e) ∧
  updateLeadCustomFields_via http (Fixture.paint_update Fixture.lead_9)
    Fixture.world =
    (inl (Error "JSON object requested, multiple (or no) rows returned"),
     sent PATCH "leads" (sent GET "leads" Fixture.world)).
Proof.
  assert (Hl : leads (db Fixture.world)
                 !! ucf_lead_id (Fixture.paint_update Fixture.lead_9) = None)
    by (vm_compute; reflexivity).
  split; [exact Hl|].
  destruct (missing_lead_fails (Fixture.paint_update Fixture.lead_9) Fixture.world
              Hl) as [Hstdio Hothers].
  split; [exact Hstdio|].
  apply Hothers. discriminate.
Defined.

(** For an id no lead has, the HTTP and the event-stream servers send the
    update and throw the backend's error, not a lead-not-found error. *)
Lemma missing_lead_http_writes :
  leads Fixture.backend !! Fixture.lead_9 = None ∧
  updateLeadCustomFields_via http (Fixture.paint_update Fixture.lead_9)
    Fixture.world =
    (inl (Error "JSON object requested, multiple (or no) rows returned"),
     sent PATCH "leads" (sent GET "leads" Fixture.world)) ∧
  updateLeadCustomFields_via sse (Fixture.paint_update Fixture.lead_9)
    Fixture.world =
    (inl (Error "JSON object requested, multiple (or no) rows returned"),
     sent PATCH "leads" (sent GET "leads" Fixture.world)).
Proof. repeat split; vm_compute; reflexivity. Qed.

(** On the fixture, whose leads are in two stages, the answer for a slug that
    names no stage has the three of them, newest first. *)
Lemma get_leads_unknown_slug_witness :
  stages_by_slug "perdido" Fixture.backend = [] ∧
  (Http.getLeads (Fixture.leads_of_stage "perdido") Fixture.world).1 =
    (Http.getLeads (http_no_stage_slug (Fixture.leads_of_stage "perdido"))
       Fixture.world).1 ∧
  db (Http.getLeads (Fixture.leads_of_stage "perdido") Fixture.world).2 =
    Fixture.backend ∧
  ∃ rows,
    (Http.getLeads (Fixture.leads_of_stage "perdido") Fixture.world).1
      = inr (LeadList (Some rows)) ∧
    newest_leads Fixture.backend (lead_of None None) 50 rows ∧
    row_id <$> rows = [Fixture.lead_3; Fixture.lead_2; Fixture.lead_1].
Proof.
  assert (Hs : stages_by_slug "perdido" (db Fixture.world) = [])
    by (vm_compute; reflexivity).
  split; [exact Hs|].
  destruct (get_leads_unknown_slug "perdido" Fixture.world Hs)
    as (_ & Hhttp & _).
  destruct (Hhttp (Fixture.leads_of_stage "perdido") eq_refl)
    as (Hsame & Hdb & Hrows).
  split; [exact Hsame|]. split; [exact Hdb|].
  assert (limit_rows (num_or (Http.gl_limit (Fixture.leads_of_stage "perdido"))
                        50) = Some 50%Z) as Hn by (vm_compute; reflexivity).
  rewrite Hn in Hrows. destruct Hrows as (rows & Hr & Hnewest).
  exists rows. split; [exact Hr|]. split; [exact Hnewest|].
  vm_compute in Hr. injection Hr as <-. vm_compute. reflexivity.
Defined.

(** ** Validation and dispatch *)

Section dispatch.
Context {fmt : Formats} {pol : Policy}.

Lemma tool_of_tool_name (t : Tool) : tool_of_name (tool_name t) = Some t.
Proof. destruct t; reflexivity. Qed.

Lemma parse_rejected {A B} (schema : option JSON → list ZodIssue + A)
  (args : option JSON) (issues : list ZodIssue) (h : A → M B) (w : World) :
  issues_of (schema args) = Some issues →
  (parse schema args ≫= h) w = (inl (ZodError issues), w).
Proof.
  unfold parse, issues_of. destruct (schema args); intros [= <-]. reflexivity.
Qed.

(** C8, as the code has it. In the standard-stream and the event-stream
    servers, a call of a registered tool whose arguments its schema rejects
    ends in an error response that carries the issues found (each with the
    path of the field and the constraint), and the backend is exactly as it
    was: no request was sent, so no handler ran. The HTTP server has no
    schemas. *)
Theorem invalid_arguments_rejected (t : Tool) (args : option JSON)
  (issues : list ZodIssue) (w : World) :
  rejected t args = Some issues →
  Stdio.CallToolRequest (tool_name t) args w =
    ({| content_text := ErrorObject (ZodError issues); isError := true |}, w) ∧
  Sse.CallToolRequest (tool_name t) args w =
    ({| content_text := ErrorString (ZodError issues); isError := true |}, w).
Proof.
  intros Hr.
  unfold Stdio.CallToolRequest, Sse.CallToolRequest, Stdio.dispatch,
    Sse.dispatch.
  rewrite tool_of_tool_name.
  destruct t; cbn [rejected] in Hr; try discriminate Hr;
    rewrite !(parse_rejected _ _ _ _ _ Hr); split; reflexivity.
Qed.

(** A name that is not a tool's: the standard-stream and the event-stream
    servers answer "Unknown tool"; the HTTP server answers "Tool not found",
    unless the name is one every object inherits, for which its lookup
    succeeds and the call of the missing [handler] throws. No server sends
    the backend anything. *)
Lemma unknown_tool_refused (name : string) (args : option JSON) (w : World) :
  tool_of_name name = None →
  Stdio.CallToolRequest name args w =
    ({| content_text := ErrorObject (Error ("Unknown tool: " ++ name));
        isError := true |}, w) ∧
  Sse.CallToolRequest name args w =
    ({| content_text := ErrorString (Error ("Unknown tool: " ++ name));
        isError := true |}, w) ∧
  Http.post_mcp (tools_call name args) w =
    Some (if inherited name
          then {| Http.status := 500;
                  Http.body := Http.Caught
                    (TypeError "tool.handler is not a function") |}
          else {| Http.status := 400;
                  Http.body := Http.Refused ("Tool not found: " ++ name) |},
          w).
Proof.
  intros Hn.
  unfold Stdio.CallToolRequest, Sse.CallToolRequest, Stdio.dispatch,
    Sse.dispatch, Http.post_mcp, Http.call, Http.TOOLS.
  cbn [tools_call Http.mcp_method Http.mcp_params Http.cp_name
       Http.cp_arguments].
  rewrite Hn. repeat split.
  rewrite bool_decide_eq_false_2 by discriminate.
  rewrite bool_decide_eq_true_2 by reflexivity.
  destruct (inherited name); reflexivity.
Qed.

(** ** A limit of zero *)

Lemma field_other {A} (m : gmap string JSON) (k : string) (v : JSON)
  (p : Parser A) :
  k ≠ "limit" →
  field (<["limit" := v]> m) k p = field m k p ∧
  field (delete "limit" m) k p = field m k p.
Proof.
  intros Hk. unfold field.
  rewrite lookup_insert_ne, lookup_delete_ne by congruence. split; reflexivity.
Qed.

Lemma field_limit (m : gmap string JSON) (n d : float) :
  PrimFloat.is_nan n = false →
  field (<["limit" := JNum n]> m) "limit" (z_default z_number d) = inr n ∧
  field (delete "limit" m) "limit" (z_default z_number d) = inr d.
Proof.
  intros Hn. unfold field. rewrite lookup_insert_eq, lookup_delete_eq.
  cbn. rewrite Hn. split; reflexivity.
Qed.

Lemma prop_other (m : gmap string JSON) (k : string) (v : JSON) :
  k ≠ "limit" →
  Http.prop (JObj (<["limit" := v]> m)) k = Http.prop (JObj m) k ∧
  Http.prop (JObj (delete "limit" m)) k = Http.prop (JObj m) k.
Proof.
  intros Hk. cbn. rewrite lookup_insert_ne, lookup_delete_ne by congruence.
  split; reflexivity.
Qed.

Lemma prop_limit (m : gmap string JSON) (v : JSON) :
  Http.prop (JObj (<["limit" := v]> m)) "limit" = Some v ∧
  Http.prop (JObj (delete "limit" m)) "limit" = None.
Proof. cbn. rewrite lookup_insert_eq, lookup_delete_eq. split; reflexivity. Qed.

(** The handlers read the limit through [limit || default] only. *)
Lemma getLeads_limit (s v : option string) (n : float) (w : World) :
  num_or (Some n) 50 = 50%float →
  Stdio.getLeads
    {| gl_stage_slug := s; gl_vendedor_id := v; gl_limit := n |} w =
  Stdio.getLeads
    {| gl_stage_slug := s; gl_vendedor_id := v; gl_limit := 50 |} w ∧
  Sse.getLeads
    {| gl_stage_slug := s; gl_vendedor_id := v; gl_limit := n |} w =
  Sse.getLeads
    {| gl_stage_slug := s; gl_vendedor_id := v; gl_limit := 50 |} w.
Proof.
  intros Hn. unfold Stdio.getLeads, Sse.getLeads.
  cbn [gl_limit gl_stage_slug gl_vendedor_id]. rewrite Hn.
  split; reflexivity.
Qed.

Lemma searchPriceCatalog_limit (q : string) (c : option string) (n : float)
  (w : World) :
  num_or (Some n) 10 = 10%float →
  Stdio.searchPriceCatalog
    {| sp_query := q; sp_category := c; sp_limit := n |} w =
  Stdio.searchPriceCatalog
    {| sp_query := q; sp_category := c; sp_limit := 10 |} w ∧
  Sse.searchPriceCatalog
    {| sp_query := q; sp_category := c; sp_limit := n |} w =
  Sse.searchPriceCatalog
    {| sp_query := q; sp_category := c; sp_limit := 10 |} w.
Proof.
  intros Hn. unfold Stdio.searchPriceCatalog, Sse.searchPriceCatalog.
  cbn [sp_limit sp_query sp_category]. rewrite Hn.
  split; reflexivity.
Qed.

(** With a limit [n] and with none, the schema finds the same issues, or
    parses to the same parameters up to the limit: [n] and the default. *)
Lemma GetLeadsSchema_limit (m : gmap string JSON) (n : float) :
  PrimFloat.is_nan n = false →
  match GetLeadsSchema (with_limit n m), GetLeadsSchema (without_limit m) with
  | inl i, inl j => i = j
  | inr p, inr q =>
      ∃ s v, p = {| gl_stage_slug := s; gl_vendedor_id := v; gl_limit := n |} ∧
             q = {| gl_stage_slug := s; gl_vendedor_id := v; gl_limit := 50 |}
  | _, _ => False
  end.
Proof.
  intros Hn.
  unfold GetLeadsSchema, with_limit, without_limit, z_object.
  destruct (field_other (A:=option string) m "stage_slug" (JNum n)
              (z_optional z_string)) as [-> ->]; [discriminate|].
  destruct (field_other (A:=option string) m "vendedor_id" (JNum n)
              (z_optional z_uuid)) as [-> ->]; [discriminate|].
  destruct (field_limit m n 50 Hn) as [-> ->].
  destruct (field m "stage_slug" _), (field m "vendedor_id" _); cbn; eauto.
Qed.

Lemma SearchPriceCatalogSchema_limit (m : gmap string JSON) (n : float) :
  PrimFloat.is_nan n = false →
  match SearchPriceCatalogSchema (with_limit n m),
        SearchPriceCatalogSchema (without_limit m) with
  | inl i, inl j => i = j
  | inr p, inr q =>
      ∃ s c, p = {| sp_query := s; sp_category := c; sp_limit := n |} ∧
             q = {| sp_query := s; sp_category := c; sp_limit := 10 |}
  | _, _ => False
  end.
Proof.
  intros Hn.
  unfold SearchPriceCatalogSchema, with_limit, without_limit, z_object.
  destruct (field_other (A:=string) m "query" (JNum n) z_string)
    as [-> ->]; [discriminate|].
  destruct (field_other (A:=option string) m "category" (JNum n)
              (z_optional z_string)) as [-> ->]; [discriminate|].
  destruct (field_limit m n 10 Hn) as [-> ->].
  destruct (field m "query" _), (field m "category" _); cbn; eauto.
Qed.

Lemma read_GetLeads_limit (m : gmap string JSON) (n : float) :
  match Http.read_GetLeads (JObj (<["limit" := JNum n]> m)),
        Http.read_GetLeads (JObj (delete "limit" m)) with
  | Some p, Some q =>
      ∃ s v, p = {| Http.gl_stage_slug := s; Http.gl_vendedor_id := v;
                    Http.gl_limit := Some n |} ∧
             q = {| Http.gl_stage_slug := s; Http.gl_vendedor_id := v;
                    Http.gl_limit := None |}
  | None, None => True
  | _, _ => False
  end.
Proof.
  unfold Http.read_GetLeads.
  destruct (prop_other m "stage_slug" (JNum n)) as [-> ->]; [discriminate|].
  destruct (prop_other m "vendedor_id" (JNum n)) as [-> ->]; [discriminate|].
  destruct (prop_limit m (JNum n)) as [-> ->].
  destruct (Http.as_string (Http.prop (JObj m) "stage_slug")),
    (Http.as_string (Http.prop (JObj m) "vendedor_id")); cbn; eauto.
Qed.

Lemma read_SearchPriceCatalog_limit (m : gmap string JSON) (n : float) :
  match Http.read_SearchPriceCatalog (JObj (<["limit" := JNum n]> m)),
        Http.read_SearchPriceCatalog (JObj (delete "limit" m)) with
  | Some p, Some q =>
      ∃ s c, p = {| Http.sp_query := s; Http.sp_category := c;
                    Http.sp_limit := Some n |} ∧
             q = {| Http.sp_query := s; Http.sp_category := c;
                    Http.sp_limit := None |}
  | None, None => True
  | _, _ => False
  end.
Proof.
  unfold Http.read_SearchPriceCatalog.
  destruct (prop_other m "query" (JNum n)) as [-> ->]; [discriminate|].
  destruct (prop_other m "category" (JNum n)) as [-> ->]; [discriminate|].
  destruct (prop_limit m (JNum n)) as [-> ->].
  destruct (Http.as_string (Http.prop (JObj m) "query")),
    (Http.as_string (Http.prop (JObj m) "category")); cbn; eauto.
Qed.

Lemma get_leads_limit_validated (m : gmap string JSON) (n : float)
  (w : World) :
  PrimFloat.is_nan n = false →
  num_or (Some n) 50 = 50%float →
  Stdio.CallToolRequest "get_leads" (with_limit n m) w =
    Stdio.CallToolRequest "get_leads" (without_limit m) w ∧
  Sse.CallToolRequest "get_leads" (with_limit n m) w =
    Sse.CallToolRequest "get_leads" (without_limit m) w.
Proof.
  intros Hnan Hn. pose proof (GetLeadsSchema_limit m n Hnan) as Hs.
  unfold Stdio.CallToolRequest, Sse.CallToolRequest, Stdio.dispatch,
    Sse.dispatch.
  change (tool_of_name "get_leads") with (Some get_leads). cbv iota beta.
  unfold parse.
  destruct (GetLeadsSchema (with_limit n m)) as [i|p0],
    (GetLeadsSchema (without_limit m)) as [j|p1]; try contradiction.
  - subst j. split; reflexivity.
  - destruct Hs as (s & v & -> & ->). rewrite !bind_ret.
    destruct (getLeads_limit s v n w Hn) as [-> ->]. split; reflexivity.
Qed.

Lemma search_limit_validated (m : gmap string JSON) (n : float) (w : World) :
  PrimFloat.is_nan n = false →
  num_or (Some n) 10 = 10%float →
  Stdio.CallToolRequest "search_price_catalog" (with_limit n m) w =
    Stdio.CallToolRequest "search_price_catalog" (without_limit m) w ∧
  Sse.CallToolRequest "search_price_catalog" (with_limit n m) w =
    Sse.CallToolRequest "search_price_catalog" (without_limit m) w.
Proof.
  intros Hnan Hn. pose proof (SearchPriceCatalogSchema_limit m n Hnan) as Hs.
  unfold Stdio.CallToolRequest, Sse.CallToolRequest, Stdio.dispatch,
    Sse.dispatch.
  change (tool_of_name "search_price_catalog")
    with (Some search_price_catalog).
  cbv iota beta. unfold parse.
  destruct (SearchPriceCatalogSchema (with_limit n m)) as [i|p0],
    (SearchPriceCatalogSchema (without_limit m)) as [j|p1];
    try contradiction.
  - subst j. split; reflexivity.
  - destruct Hs as (s & c & -> & ->). rewrite !bind_ret.
    destruct (searchPriceCatalog_limit s c n w Hn) as [-> ->].
    split; reflexivity.
Qed.

Lemma get_leads_limit_http (m : gmap string JSON) (n : float) (w : World) :
  num_or (Some n) 50 = 50%float →
  Http.post_mcp (tools_call "get_leads" (with_limit n m)) w =
    Http.post_mcp (tools_call "get_leads" (without_limit m)) w.
Proof.
  intros Hn. pose proof (read_GetLeads_limit m n) as Hr.
  unfold Http.post_mcp, Http.call, tools_call, with_limit, without_limit.
  cbn [Http.mcp_method Http.mcp_params Http.cp_name Http.cp_arguments].
  rewrite bool_decide_eq_false_2 by discriminate.
  rewrite bool_decide_eq_true_2 by reflexivity.
  change (Http.TOOLS "get_leads") with (Http.Own get_leads). cbv iota beta.
  rewrite !or_empty_object. cbn [Http.handler].
  destruct (Http.read_GetLeads (JObj (<["limit" := JNum n]> m))) as [p|],
    (Http.read_GetLeads (JObj (delete "limit" m))) as [q|];
    try contradiction; [|reflexivity].
  destruct Hr as (s & v & -> & ->).
  cbn [fmap option_fmap option_map Http.run mbind option_bind].
  unfold Http.getLeads.
  cbn [Http.gl_limit Http.gl_stage_slug Http.gl_vendedor_id].
  rewrite Hn. reflexivity.
Qed.

Lemma search_limit_http (m : gmap string JSON) (n : float) (w : World) :
  num_or (Some n) 10 = 10%float →
  Http.post_mcp (tools_call "search_price_catalog" (with_limit n m)) w =
    Http.post_mcp (tools_call "search_price_catalog" (without_limit m)) w.
Proof.
  intros Hn. pose proof (read_SearchPriceCatalog_limit m n) as Hr.
  unfold Http.post_mcp, Http.call, tools_call, with_limit, without_limit.
  cbn [Http.mcp_method Http.mcp_params Http.cp_name Http.cp_arguments].
  rewrite bool_decide_eq_false_2 by discriminate.
  rewrite bool_decide_eq_true_2 by reflexivity.
  change (Http.TOOLS "search_price_catalog")
    with (Http.Own search_price_catalog).
  cbv iota beta.
  rewrite !or_empty_object. cbn [Http.handler].
  destruct (Http.read_SearchPriceCatalog (JObj (<["limit" := JNum n]> m)))
    as [p|],
    (Http.read_SearchPriceCatalog (JObj (delete "limit" m))) as [q|];
    try contradiction; [|reflexivity].
  destruct Hr as (s & c & -> & ->).
  cbn [fmap option_fmap option_map Http.run mbind option_bind].
  unfold Http.searchPriceCatalog.
  cbn [Http.sp_limit Http.sp_query Http.sp_category].
  rewrite Hn. reflexivity.
Qed.

Lemma num_or_falsy (n d : float) :
  truthy_num n = false → num_or (Some n) d = d.
Proof. intros Hn. unfold num_or. rewrite Hn. reflexivity. Qed.

(** With a limit that is falsy, [get_leads] returns the first 50 of the leads
    its filters match. *)
Lemma getLeads_default_limit (t : Transport) (p : GetLeadsParams) (w : World) :
  truthy_num (gl_limit p) = false →
  ∃ rows,
    getLeads_via t p w =
      (inr (LeadList (Some rows)),
       sent GET "leads" (looked_up (gl_stage_slug p) w)) ∧
    newest_leads (db w)
      (lead_of (stage_filter (gl_stage_slug p) w) (given (gl_vendedor_id p)))
      50 rows.
Proof.
  intros Hn. rewrite getLeads_query, (num_or_falsy _ _ Hn).
  match goal with
  | |- context [leads_answer ?prefix ?q ?w0] =>
      pose proof (leads_answer_rows prefix q w0) as Hrows
  end.
  cbn [q_limit q_stage_id q_vendedor_id] in Hrows.
  change (limit_rows 50) with (Some 50%Z) in Hrows. cbv iota beta in Hrows.
  destruct Hrows as (rows & -> & Hrows). exists rows.
  split; [reflexivity|]. rewrite looked_up_db in Hrows. exact Hrows.
Qed.

(** With a limit that is falsy, [search_price_catalog] returns the first 10
    of the entries its filters match. *)
Lemma searchPriceCatalog_default_limit (t : Transport)
  (p : SearchPriceCatalogParams) (w : World) :
  truthy_num (sp_limit p) = false →
  match given (Some (sp_query p)) with
  | Some q =>
      ∀ passes, or_filter (or_text t q) = Some passes →
        searchPriceCatalog_via t p w =
          (inr (Catalog (Some (take 10 (entries_on_sale passes
                                          (given (sp_category p)) (db w))))),
           sent GET "price_catalog" w)
  | None =>
      searchPriceCatalog_via t p w =
        (inr (Catalog (Some (take 10 (entries_on_sale (λ _, true)
                                        (given (sp_category p)) (db w))))),
         sent GET "price_catalog" w)
  end.
Proof.
  intros Hn.
  destruct t; cbn [searchPriceCatalog_via];
    unfold Stdio.searchPriceCatalog, Http.searchPriceCatalog,
      Sse.searchPriceCatalog;
    cbn [http_SearchPriceCatalog Http.sp_query Http.sp_category Http.sp_limit];
    rewrite (num_or_falsy _ _ Hn);
    (destruct (given (Some (sp_query p))) as [q|];
     [intros passes Hor; cbn [or_text] in Hor|];
     rewrite bind_await; unfold select_catalog, entries_on_sale;
     cbn [fst snd];
     (destruct (given (sp_category p)) as [c|];
      cbn [c_or c_limit c_category]; rewrite ?Hor, limited_rows;
      change (limit_rows 10) with (Some 10%Z); reflexivity)).
Qed.

(** C10. For [get_leads] and for [search_price_catalog], in each of the
    three servers, a call whose arguments have [limit: 0] gets the response
    (and leaves the backend as) the same call without a [limit] does, and
    that is the response to the same call with the default for a limit: 50
    for [get_leads], 10 for [search_price_catalog]. With a limit of zero the
    handlers return rows, as many as the default allows: [get_leads] the
    first 50 of the leads its filters match, newest first, and
    [search_price_catalog] the first 10 of the entries its filters match. On
    the fixture, whose table has three leads, [get_leads] with [limit: 0]
    returns the three; on the second backend, whose catalog has two active
    entries, [search_price_catalog] with [limit: 0] returns the two. *)
Theorem zero_limit_is_default (m : gmap string JSON) (w : World) :
  same_responses "get_leads" (with_limit 0 m) (without_limit m) w ∧
  same_responses "get_leads" (with_limit 50 m) (without_limit m) w ∧
  same_responses "search_price_catalog" (with_limit 0 m) (without_limit m) w ∧
  same_responses "search_price_catalog" (with_limit 10 m) (without_limit m) w ∧
  (∀ t p, gl_limit p = 0%float →
     ∃ rows,
       getLeads_via t p w =
         (inr (LeadList (Some rows)),
          sent GET "leads" (looked_up (gl_stage_slug p) w)) ∧
       newest_leads (db w)
         (lead_of (stage_filter (gl_stage_slug p) w)
            (given (gl_vendedor_id p)))
         50 rows) ∧
  (∀ t p, sp_limit p = 0%float →
     match given (Some (sp_query p)) with
     | Some q =>
         ∀ passes, or_filter (or_text t q) = Some passes →
           searchPriceCatalog_via t p w =
             (inr (Catalog (Some (take 10 (entries_on_sale passes
                                             (given (sp_category p))
                                             (db w))))),
              sent GET "price_catalog" w)
     | None =>
         searchPriceCatalog_via t p w =
           (inr (Catalog (Some (take 10 (entries_on_sale (λ _, true)
                                           (given (sp_category p))
                                           (db w))))),
            sent GET "price_catalog" w)
     end) ∧
  (∃ rows,
     row_id <$> rows = [Fixture.lead_3; Fixture.lead_2; Fixture.lead_1] ∧
     Stdio.CallToolRequest "get_leads" (with_limit 0 ∅) Fixture.world =
       ({| content_text := Stringified (LeadList (Some rows));
           isError := false |}, sent GET "leads" Fixture.world) ∧
     Sse.CallToolRequest "get_leads" (with_limit 0 ∅) Fixture.world =
       ({| content_text := Stringified (LeadList (Some rows));
           isError := false |}, sent GET "leads" Fixture.world) ∧
     Http.post_mcp (tools_call "get_leads" (with_limit 0 ∅)) Fixture.world =
       Some ({| Http.status := 200;
                Http.body := Http.RpcContent (LeadList (Some rows)) |},
             sent GET "leads" Fixture.world)) ∧
  (∃ rows,
     entry_id <$> rows = ["c1"; "c2"] ∧
     Stdio.CallToolRequest "search_price_catalog"
       (with_limit 0 {[ "query" := JStr EmptyString ]}) Sample.world =
       ({| content_text := Stringified (Catalog (Some rows));
           isError := false |}, sent GET "price_catalog" Sample.world) ∧
     Sse.CallToolRequest "search_price_catalog"
       (with_limit 0 {[ "query" := JStr EmptyString ]}) Sample.world =
       ({| content_text := Stringified (Catalog (Some rows));
           isError := false |}, sent GET "price_catalog" Sample.world) ∧
     Http.post_mcp
       (tools_call "search_price_catalog"
          (with_limit 0 {[ "query" := JStr EmptyString ]})) Sample.world =
       Some ({| Http.status := 200;
                Http.body := Http.RpcContent (Catalog (Some rows)) |},
             sent GET "price_catalog" Sample.world)).
Proof.
  unfold same_responses.
  destruct (get_leads_limit_validated m 0 w eq_refl eq_refl) as [H1 H2].
  destruct (get_leads_limit_validated m 50 w eq_refl eq_refl) as [H3 H4].
  destruct (search_limit_validated m 0 w eq_refl eq_refl) as [H5 H6].
  destruct (search_limit_validated m 10 w eq_refl eq_refl) as [H7 H8].
  split; [split; [exact H1|split; [exact H2|]]|].
  { apply get_leads_limit_http. reflexivity. }
  split; [split; [exact H3|split; [exact H4|]]|].
  { apply get_leads_limit_http. reflexivity. }
  split; [split; [exact H5|split; [exact H6|]]|].
  { apply search_limit_http. reflexivity. }
  split; [split; [exact H7|split; [exact H8|]]|].
  { apply search_limit_http. reflexivity. }
  split.
  { intros t p Hp. apply getLeads_default_limit. rewrite Hp. reflexivity. }
  split.
  { intros t p Hp. apply searchPriceCatalog_default_limit. rewrite Hp.
    reflexivity. }
  split.
  - eexists. split; [|split; [vm_compute; reflexivity|]].
    + vm_compute. reflexivity.
    + split; vm_compute; reflexivity.
  - eexists. split; [|split; [vm_compute; reflexivity|]].
    + vm_compute. reflexivity.
    + split; vm_compute; reflexivity.
Qed.

End dispatch.

Lemma invalid_arguments_rejected_witness :
  Stdio.CallToolRequest (fmt := Fixture.formats) (pol := Fixture.policy)
    "create_lead" Fixture.bad_email_args Fixture.world =
    ({| content_text :=
          ErrorObject (ZodError [invalid_string ["email"] "email"]);
        isError := true |}, Fixture.world) ∧
  Sse.CallToolRequest (fmt := Fixture.formats) (pol := Fixture.policy)
    "create_lead" Fixture.bad_email_args Fixture.world =
    ({| content_text :=
          ErrorString (ZodError [invalid_string ["email"] "email"]);
        isError := true |}, Fixture.world).
Proof.
  apply (invalid_arguments_rejected (fmt := Fixture.formats)
           (pol := Fixture.policy) create_lead Fixture.bad_email_args).
  vm_compute. reflexivity.
Defined.

(** The HTTP server runs the handler on arguments the schema of the tool
    rejects: with an [email] that is no address, [create_lead] answers 200
    after three requests to the backend, the last of which inserted the
    lead. *)
Lemma http_runs_unvalidated :
  rejected (fmt := Fixture.formats) create_lead Fixture.bad_email_args
    = Some [invalid_string ["email"] "email"] ∧
  ∃ row w',
    Http.post_mcp (pol := Fixture.policy)
      (tools_call "create_lead" Fixture.bad_email_args) Fixture.world =
      Some ({| Http.status := 200;
               Http.body := Http.RpcContent (Success None (Some row)) |},
            w') ∧
    lead_email (row_lead row) = Some "davi.example.com" ∧
    trace w' = [ {| call_verb := POST; call_table := "leads" |};
                 {| call_verb := HEAD; call_table := "leads" |};
                 {| call_verb := GET; call_table := "pipeline_stages" |} ] ∧
    leads Fixture.backend !! row_id row = None ∧
    leads (db w') !! row_id row = Some (row_lead row).
Proof.
  split; [vm_compute; reflexivity|].
  eexists _, _. split; [vm_compute; reflexivity|].
  repeat split; vm_compute; reflexivity.
Qed.

(** C9, where the code departs from it. ["constructor"] is not the name of a
    tool, and the HTTP server does not answer "Tool not found" to it: the
    lookup in [TOOLS] finds what every object inherits under that name, the
    call of its missing [handler] throws, and the answer is a 500 with the
    message of that exception. The backend is left alone. *)
Lemma inherited_name_not_refused :
  tool_of_name "constructor" = None ∧
  Http.post_mcp (pol := Fixture.policy) (tools_call "constructor" None)
    Fixture.world =
    Some ({| Http.status := 500;
             Http.body := Http.Caught
               (TypeError "tool.handler is not a function") |},
          Fixture.world).
Proof. split; reflexivity. Qed.

(** ** The statistics *)

Lemma stats_row_slug (sel : StageSelect) (d : DB) (kv : string * Lead) :
  str_or (sc_slug <$> st_stage (stats_row sel d kv)) "unknown" = bucket d kv.2.
Proof.
  unfold stats_row, bucket. cbn [st_stage].
  destruct (lead_stage_id kv.2) as [sid|]; [|reflexivity]. cbn.
  destruct (pipeline_stages d !! sid) as [s|]; [|reflexivity].
  destruct sel; reflexivity.
Qed.

Lemma stats_row_name (sel : StageSelect) (d : DB) (kv : string * Lead) :
  sc_name <$> st_stage (stats_row sel d kv) =
  stage_name <$> (lead_stage_id kv.2 ≫= λ sid, pipeline_stages d !! sid).
Proof.
  unfold stats_row. cbn [st_stage].
  destruct (lead_stage_id kv.2) as [sid|]; [|reflexivity]. cbn.
  destruct (pipeline_stages d !! sid) as [s|]; [|reflexivity].
  destruct sel; reflexivity.
Qed.

Lemma entry_after_snoc (d : DB) (ls : list (string * Lead))
  (kv : string * Lead) :
  entry_after d (ls ++ [kv]) =
    Some {| stat_count := S (length ls);
            total_value :=
              add_value (foldl add_value PrimFloat.zero ls.*2) kv.2;
            stage_name_of :=
              stage_name <$> (lead_stage_id (default kv (head ls)).2 ≫= λ sid,
                                pipeline_stages d !! sid) |}.
Proof.
  destruct ls as [|kv0 ls]; [reflexivity|].
  cbn [app entry_after head default from_option id].
  change (kv0 :: (ls ++ [kv])%list) with ((kv0 :: ls) ++ [kv])%list.
  rewrite fmap_app, foldl_app, length_app, Nat.add_1_r.
  reflexivity.
Qed.

(** One turn of the loop, on the entry of the lead's own bucket. *)
Lemma stats_step_own (sel : StageSelect) (d : DB) (kv : string * Lead)
  (stats : gmap string StageStats) (ls : list (string * Lead)) :
  inherited (bucket d kv.2) = false →
  stats !! bucket d kv.2 = entry_after d ls →
  stats_step stats (stats_row sel d kv) !! bucket d kv.2 =
    entry_after d (ls ++ [kv]).
Proof.
  intros Hi Hs. rewrite entry_after_snoc. unfold stats_step.
  rewrite stats_row_slug, Hs, Hi.
  destruct ls as [|kv0 ls]; cbn [entry_after].
  - rewrite lookup_insert_eq, lookup_insert_eq, stats_row_name.
    cbn [stat_count total_value stage_name_of stats_row st_custom_fields
         fmap list_fmap foldl length head default from_option id].
    unfold add_value.
    destruct (valor_estimado (lead_custom_fields kv.2)) as [v|];
      [cbn [truthy_opt default from_option id]; destruct (truthy v)|];
      reflexivity.
  - rewrite Hs. cbn [entry_after]. rewrite lookup_insert_eq.
    cbn [stat_count total_value stage_name_of stats_row st_custom_fields
         head default from_option id].
    set (total := foldl add_value PrimFloat.zero (kv0 :: ls).*2).
    unfold add_value.
    destruct (valor_estimado (lead_custom_fields kv.2)) as [v|];
      [cbn [truthy_opt default from_option id]; destruct (truthy v)|];
      reflexivity.
Qed.

(** One turn of the loop, on the entries of the other buckets. *)
Lemma stats_step_other (sel : StageSelect) (d : DB) (kv : string * Lead)
  (stats : gmap string StageStats) (slug : string) :
  bucket d kv.2 ≠ slug →
  stats_step stats (stats_row sel d kv) !! slug = stats !! slug.
Proof.
  intros Hne. unfold stats_step. rewrite stats_row_slug.
  destruct (stats !! bucket d kv.2) as [s|] eqn:Hs.
  - rewrite Hs. rewrite lookup_insert_ne by exact Hne. reflexivity.
  - destruct (inherited (bucket d kv.2)).
    + rewrite Hs. reflexivity.
    + rewrite lookup_insert_eq, !lookup_insert_ne by exact Hne. reflexivity.
Qed.

Lemma aggregate_lookup (sel : StageSelect) (d : DB) (ls : list (string * Lead))
  (slug : string) :
  inherited slug = false →
  foldl stats_step ∅ (stats_row sel d <$> ls) !! slug =
    entry_after d (filter (λ kv, bucket d kv.2 = slug) ls).
Proof.
  intros Hi. induction ls as [|kv ls IH] using rev_ind.
  - reflexivity.
  - rewrite fmap_app, foldl_app, filter_app, filter_cons, filter_nil.
    cbn [fmap list_fmap foldl].
    destruct (decide (bucket d kv.2 = slug)) as [He|Hne].
    + subst slug. apply stats_step_own; assumption.
    + rewrite app_nil_r, stats_step_other by exact Hne. exact IH.
Qed.

(** What [get_pipeline_stats] does when the select of the leads is answered,
    and when it fails. *)
Lemma getPipelineStats_served (t : Transport) (w : World) :
  fault w = None →
  ∃ sel,
    getPipelineStats_via t w =
      (inr (Stats (foldl stats_step ∅
                     (stats_row sel (db w) <$> map_to_list (leads (db w))))),
       sent GET "leads" w).
Proof.
  intros Hf.
  destruct t; cbn [getPipelineStats_via];
    unfold Stdio.getPipelineStats, Http.getPipelineStats,
      Sse.getPipelineStats;
    rewrite bind_await; unfold select_stats;
    rewrite (fetch_served _ _ _ _ Hf); eexists; reflexivity.
Qed.

Lemma getPipelineStats_unread (t : Transport) (w : World) (message : string) :
  fault w = Some message →
  getPipelineStats_via t w =
    (if t is stdio then inl (Error ("Failed to fetch stats: " ++ message))
     else inr (Stats ∅),
     sent GET "leads" w).
Proof.
  intros Hf.
  destruct t; cbn [getPipelineStats_via];
    unfold Stdio.getPipelineStats, Http.getPipelineStats,
      Sse.getPipelineStats;
    rewrite bind_await; unfold select_stats;
    rewrite (fetch_failed _ _ _ _ _ Hf); reflexivity.
Qed.

(** C6, as the code has it. In each of the three servers,
    [get_pipeline_stats], when the select of the leads is answered, returns a
    map that has, under every slug that is not a name objects inherit, the
    entry of the leads whose stage has that slug (under ["unknown"], of the
    leads with no stage or an empty slug): none when there are none, else
    their number and the sum, in table order, of what each adds
    ([add_value]: nothing for an absent or falsy [valor_estimado], its
    [Number] for any other). On the fixture (two leads in ["lead"] with 100
    and ["200"], one in ["fechado"] with none) the map is [{lead: {count: 2,
    total_value: 300}, fechado: {count: 1, total_value: 0}}]. *)
Theorem pipeline_stats_by_bucket (t : Transport) (w : World) :
  (fault w = None →
   ∃ stats,
     getPipelineStats_via t w = (inr (Stats stats), sent GET "leads" w) ∧
     ∀ slug, inherited slug = false →
             stats !! slug = bucket_stats slug (db w)) ∧
  getPipelineStats_via t Fixture.world =
    (inr (Stats
            {[ "lead" := {| stat_count := 2; total_value := 300;
                            stage_name_of := Some "Lead" |};
               "fechado" := {| stat_count := 1; total_value := 0;
                               stage_name_of := Some "Fechado" |} ]}),
     sent GET "leads" Fixture.world).
Proof.
  split.
  - intros Hf. destruct (getPipelineStats_served t w Hf) as [sel ->].
    eexists. split; [reflexivity|].
    intros slug Hi. rewrite (aggregate_lookup _ _ _ _ Hi). reflexivity.
  - destruct t; vm_compute; reflexivity.
Qed.

(** One lead in ["lead"] whose [valor_estimado] is the text ["abc"]: the
    total of the stage is not zero, it is [NaN]. And on the fixture, with
    the select failing, the HTTP server returns statistics with no entry,
    although the stage ["lead"] has two leads. *)
Lemma text_value_poisons_total :
  getPipelineStats_via stdio Fixture.world_text_value =
    (inr (Stats {[ "lead" := {| stat_count := 1; total_value := PrimFloat.nan;
                                stage_name_of := Some "Lead" |} ]}),
     sent GET "leads" Fixture.world_text_value) ∧
  PrimFloat.eqb PrimFloat.nan 0 = false ∧
  getPipelineStats_via http Fixture.world_first_fails =
    (inr (Stats ∅), sent GET "leads" Fixture.world_first_fails) ∧
  length (leads_of_bucket "lead" Fixture.backend) = 2%nat.
Proof. repeat split; vm_compute; reflexivity. Qed.

(** ** The three servers side by side *)

Section agreement.
Context {pol : Policy}.

Lemma same_data_refl {A} (a : (Exn + A) * World) : same_data a a.
Proof.
  split; [split; reflexivity|]. intros x y Hx Hy. congruence.
Qed.

Lemma same_effect_refl {A} (a : (Exn + A) * World) : same_effect a a.
Proof. split; reflexivity. Qed.

Ltac same :=
  unfold throw, mret, M_ret;
  first [ apply same_data_refl
        | apply same_effect_refl
        | split; [split; reflexivity|]; cbn [fst];
          intros x y Hx Hy; congruence
        | split; reflexivity ].

Lemma getLeads_agree (t : Transport) (p : GetLeadsParams) (w : World) :
  same_data (getLeads_via stdio p w) (getLeads_via t p w).
Proof.
  rewrite !getLeads_query. unfold leads_answer.
  match goal with
  | |- context [error ?r] => destruct (error r)
  end; same.
Qed.

Lemma updateLeadStage_agree (t : Transport) (p : UpdateLeadStageParams)
  (w : World) :
  same_effect (updateLeadStage_via stdio p w) (updateLeadStage_via t p w).
Proof.
  destruct t; [apply same_effect_refl| |];
    cbn [updateLeadStage_via];
    unfold Stdio.updateLeadStage, Http.updateLeadStage, Sse.updateLeadStage;
    cbn [http_UpdateLeadStage Http.uls_lead_id Http.uls_new_stage_slug
         filter_text];
    rewrite !bind_await;
    (destruct (select_stage_cases (uls_new_stage_slug p) w)
       as [(st & _ & ->)|[_ ->]];
     cbn [fst snd data error ok failed]; [|same]);
    rewrite !bind_await; unfold update_lead; cbn [db sent];
    destruct (leads (db w) !! uls_lead_id p); same.
Qed.

Lemma updateLeadCustomFields_agree (t : Transport)
  (p : UpdateLeadCustomFieldsParams) (w : World) :
  fault w = None →
  same_effect (updateLeadCustomFields_via stdio p w)
    (updateLeadCustomFields_via t p w).
Proof.
  intros Hf. destruct (leads (db w) !! ucf_lead_id p) as [l|] eqn:Hl.
  - destruct (updateLeadCustomFields_found stdio p w l Hl Hf)
      as (m1 & row1 & ->).
    destruct (updateLeadCustomFields_found t p w l Hl Hf) as (m2 & row2 & ->).
    same.
  - rewrite !(updateLeadCustomFields_missing _ p w Hl).
    destruct t; same.
Qed.

Lemma createLead_agree (t : Transport) (p : CreateLeadParams) (w : World) :
  same_effect (createLead_via stdio p w) (createLead_via t p w).
Proof.
  destruct t; [apply same_effect_refl| |];
    cbn [createLead_via];
    unfold Stdio.createLead, Http.createLead, Sse.createLead;
    cbn [http_CreateLead Http.cl_stage_slug Http.cl_name Http.cl_phone
         Http.cl_email Http.cl_vendedor_id Http.cl_custom_fields Http.cl_notes];
    rewrite !bind_await;
    (destruct (select_stage_id_cases (str_or (Some (cl_stage_slug p)) "lead") w)
       as [(sid & st & _ & _ & ->)|(message & _ & ->)];
     cbn [fst snd data error ok failed]; [|same]);
    rewrite !bind_await, !count_leads_count, !count_leads_world;
    unfold insert_lead; cbn [db sent];
    destruct (insert_check (db w) _); same.
Qed.

Lemma searchPriceCatalog_reads (t : Transport) (p : SearchPriceCatalogParams)
  (w : World) :
  db (searchPriceCatalog_via t p w).2 = db w.
Proof.
  destruct t; cbn [searchPriceCatalog_via];
    unfold Stdio.searchPriceCatalog, Http.searchPriceCatalog,
      Sse.searchPriceCatalog;
    rewrite bind_await; unfold select_catalog; cbn [fst snd];
    match goal with
    | |- context [error ?r] => destruct (error r)
    end; reflexivity.
Qed.

Lemma getLeadHistory_agree (t : Transport) (p : GetLeadHistoryParams)
  (w : World) :
  same_data (getLeadHistory_via stdio p w) (getLeadHistory_via t p w).
Proof. destruct t; same. Qed.

(** The loop reads the slug and the name of the stage, whatever other
    columns of it were selected. *)
Lemma stats_step_columns (sel sel' : StageSelect) (d : DB)
  (kv : string * Lead) (stats : gmap string StageStats) :
  stats_step stats (stats_row sel d kv) = stats_step stats (stats_row sel' d kv).
Proof.
  unfold stats_step. rewrite !stats_row_slug, !stats_row_name. reflexivity.
Qed.

Lemma aggregate_columns (sel sel' : StageSelect) (d : DB)
  (ls : list (string * Lead)) (stats : gmap string StageStats) :
  foldl stats_step stats (stats_row sel d <$> ls) =
  foldl stats_step stats (stats_row sel' d <$> ls).
Proof.
  revert stats. induction ls as [|kv ls IH]; intros stats; [reflexivity|].
  cbn [fmap list_fmap foldl].
  rewrite (stats_step_columns sel sel'). apply IH.
Qed.

Lemma getPipelineStats_agree (t : Transport) (w : World) :
  fault w = None →
  same_data (getPipelineStats_via stdio w) (getPipelineStats_via t w).
Proof.
  intros Hf.
  destruct (getPipelineStats_served stdio w Hf) as [sel1 ->].
  destruct (getPipelineStats_served t w Hf) as [sel2 ->].
  rewrite (aggregate_columns sel1 sel2). same.
Qed.

(** C5, as the code has it. Given the same arguments and the same backend,
    the handler of a tool in any server and the one in the standard-stream
    server end with the same tables and both return or both throw, for
    [get_leads], [update_lead_stage] and [create_lead], whichever of their
    requests fail, and for [get_lead_history]; for [get_leads] and
    [get_lead_history] what they return is the same. For
    [update_lead_custom_fields] and [get_pipeline_stats] this holds when
    their read, the first request, is answered: same tables and both return
    or both throw, and for [get_pipeline_stats] the same statistics.
    [search_price_catalog] changes no table in any server. Results of the
    other tools, and the texts of errors, differ from server to server. *)
Theorem transports_agree (t : Transport) (w : World) :
  (∀ p, same_data (getLeads_via stdio p w) (getLeads_via t p w)) ∧
  (∀ p, same_effect (updateLeadStage_via stdio p w)
          (updateLeadStage_via t p w)) ∧
  (∀ p, fault w = None →
        same_effect (updateLeadCustomFields_via stdio p w)
          (updateLeadCustomFields_via t p w)) ∧
  (∀ p, same_effect (createLead_via stdio p w) (createLead_via t p w)) ∧
  (∀ p, db (searchPriceCatalog_via t p w).2 = db w) ∧
  (∀ p, same_data (getLeadHistory_via stdio p w) (getLeadHistory_via t p w)) ∧
  (fault w = None →
   same_data (getPipelineStats_via stdio w) (getPipelineStats_via t w)).
Proof.
  split; [intros p; apply getLeads_agree|].
  split; [intros p; apply updateLeadStage_agree|].
  split; [intros p; apply updateLeadCustomFields_agree|].
  split; [intros p; apply createLead_agree|].
  split; [intros p; apply searchPriceCatalog_reads|].
  split; [intros p; apply getLeadHistory_agree|].
  apply getPipelineStats_agree.
Qed.

End agreement.

(** On the same arguments and backend, [update_lead_custom_fields] returns a
    message in the standard-stream server and none in the HTTP server, and
    for an id no lead has the two throw different errors. With the read
    failing, the standard-stream server throws and leaves the lead as it
    was, while the HTTP server returns and has changed it; and the
    statistics are an error in the one and an empty result in the other. *)
Lemma transports_differ :
  (∃ row,
     (updateLeadCustomFields_via stdio (Fixture.paint_update Fixture.lead_1)
        Fixture.world).1
       = inr (Success (Some "Custom fields updated") (Some row)) ∧
     (updateLeadCustomFields_via http (Fixture.paint_update Fixture.lead_1)
        Fixture.world).1
       = inr (Success None (Some row))) ∧
  (updateLeadCustomFields_via stdio (Fixture.paint_update Fixture.lead_9)
     Fixture.world).1
    = inl (Error ("Lead not found: " ++ Fixture.lead_9)) ∧
  (updateLeadCustomFields_via http (Fixture.paint_update Fixture.lead_9)
     Fixture.world).1
    = inl (Error "JSON object requested, multiple (or no) rows returned") ∧
  returned (updateLeadCustomFields_via stdio
              (Fixture.paint_update Fixture.lead_1)
              Fixture.world_first_fails).1 = false ∧
  returned (updateLeadCustomFields_via http
              (Fixture.paint_update Fixture.lead_1)
              Fixture.world_first_fails).1 = true ∧
  leads (db (updateLeadCustomFields_via stdio
               (Fixture.paint_update Fixture.lead_1)
               Fixture.world_first_fails).2) !! Fixture.lead_1
    = Some Fixture.ana ∧
  leads (db (updateLeadCustomFields_via http
               (Fixture.paint_update Fixture.lead_1)
               Fixture.world_first_fails).2) !! Fixture.lead_1
    = Some (set_custom_fields (JObj {[ "cor_desejada" := JStr "azul" ]})
              Fixture.ana) ∧
  (getPipelineStats_via stdio Fixture.world_first_fails).1
    = inl (Error "Failed to fetch stats: TypeError: fetch failed") ∧
  (getPipelineStats_via http Fixture.world_first_fails).1 = inr (Stats ∅).
Proof.
  split; [eexists; split; vm_compute; reflexivity|].
  repeat split; vm_compute; reflexivity.
Qed.

(** ** Reading leads *)

Section reading.
Context {pol : Policy}.

(** In each of the three servers, what [get_leads] returns is a list of
    rows: the first [limit] (50 when the limit is 0) of the leads that match,
    newest first; a lead matches when it has the seller asked for, if one
    is, and is in the stage the slug names, if a slug is given, names one
    stage, and the lookup of that stage is answered (a lookup that fails is
    not told from one that finds no stage: the filter is dropped); each lead
    is there at most once, as the table has it, with its stage and its seller
    joined. The tables are not changed. *)
Theorem get_leads_rows (t : Transport) (p : GetLeadsParams) (w w' : World)
  (r : ToolResult) :
  getLeads_via t p w = (inr r, w') →
  db w' = db w ∧
  ∃ rows n all,
    r = LeadList (Some rows) ∧
    limit_rows (num_or (Some (gl_limit p)) 50%float) = Some n ∧
    rows = take (Z.to_nat n) all ∧
    descending (λ r, lead_created_at (row_lead r)) all ∧
    NoDup (row_id <$> all) ∧
    ∀ r, r ∈ all ↔
         r = lead_row NameSlugColor true (db w) (row_id r, row_lead r) ∧
         leads (db w) !! row_id r = Some (row_lead r) ∧
         (∀ v, given (gl_vendedor_id p) = Some v →
               lead_vendedor_id (row_lead r) = Some v) ∧
         (∀ sid, stage_filter (gl_stage_slug p) w = Some sid →
                 lead_stage_id (row_lead r) = Some sid).
Proof.
  rewrite getLeads_query.
  match goal with
  | |- context [leads_answer ?prefix ?q ?w0] =>
      pose proof (leads_answer_rows prefix q w0) as Hrows
  end.
  cbn [q_limit q_stage_id q_vendedor_id] in Hrows.
  rewrite looked_up_db in Hrows.
  destruct (limit_rows _) as [n|] eqn:Hn.
  - destruct Hrows as (rows & -> & all & -> & Hsort & Hnd & Hall).
    intros [= <- <-]. split; [apply looked_up_db|].
    eexists _, n, all. split; [reflexivity|].
    split; [reflexivity|]. split; [reflexivity|].
    split; [exact Hsort|]. split; [exact Hnd|].
    intros r. rewrite Hall. unfold lead_of. tauto.
  - rewrite Hrows. discriminate.
Qed.

(** In each of the three servers, a [get_leads] whose lookup of the stage
    fails answers what the same call without a slug answers: the error of
    the lookup is not read, and the filter is dropped as for a slug that
    names no stage. *)
Theorem failed_lookup_drops_filter (t : Transport) (p : GetLeadsParams)
  (w : World) (message : string) :
  fault w = Some message →
  (getLeads_via t p w).1 = (getLeads_via t (no_stage_slug p) w).1 ∧
  db (getLeads_via t p w).2 = db w.
Proof.
  intros Hf. rewrite !getLeads_query.
  cbn [no_stage_slug gl_stage_slug gl_vendedor_id gl_limit].
  replace (stage_filter (gl_stage_slug p) w) with (@None string)
    by (unfold stage_filter; rewrite Hf;
        destruct (given (gl_stage_slug p)); reflexivity).
  replace (stage_filter None w) with (@None string) by reflexivity.
  match goal with
  | |- (leads_answer ?prefix ?q ?w0).1 = (leads_answer _ _ ?w1).1 ∧ _ =>
      destruct (leads_answer_db prefix q w0 w1) as [Hsame Hdb];
      [rewrite !looked_up_db; reflexivity|]
  end.
  split; [exact Hsame|]. rewrite Hdb. apply looked_up_db.
Qed.

(** In each of the three servers, [get_lead_history] returns the entries of
    the history that are about the lead, the latest first, each with the
    profile of who made the change when there is one; it sends one request
    and changes nothing. *)
Theorem lead_history_rows (t : Transport) (p : GetLeadHistoryParams)
  (w : World) :
  ∃ rows,
    getLeadHistory_via t p w =
      (inr (History (Some rows)), sent GET "lead_history" w) ∧
    hr_entry <$> rows ≡ₚ
      filter (λ h, history_lead_id h = gh_lead_id p) (lead_history (db w)) ∧
    descending (λ r, history_created_at (hr_entry r)) rows ∧
    Forall (λ r, hr_changed_by r =
                 history_changed_by (hr_entry r) ≫= λ a, profiles (db w) !! a)
      rows.
Proof.
  eexists. split; [destruct t; reflexivity|].
  split; [|split].
  - match goal with
    | |- hr_entry <$> (?f <$> ?l) ≡ₚ _ =>
        replace (hr_entry <$> (f <$> l)) with l
    end; [apply order_desc_perm|].
    generalize (order_desc history_created_at
                  (filter (λ h, history_lead_id h = gh_lead_id p)
                     (lead_history (db w)))).
    intros l. induction l as [|h l IH]; [reflexivity|].
    cbn [fmap list_fmap hr_entry] in *. rewrite <- IH. reflexivity.
  - apply descending_fmap. cbn [hr_entry]. apply order_desc_descending.
  - apply Forall_fmap, Forall_true. intros h. reflexivity.
Qed.

(** In each of the three servers, what [search_price_catalog] returns is a
    list of entries of the catalog, in catalog order and no more than the
    limit (10 when the limit is 0): all of them active, of the category asked
    for if one is, and passing the filter the backend reads from the text
    built for the search term if one is given. The tables are not changed. *)
Theorem search_price_catalog_rows (t : Transport)
  (p : SearchPriceCatalogParams) (w w' : World) (r : ToolResult) :
  searchPriceCatalog_via t p w = (inr r, w') →
  db w' = db w ∧
  ∃ rows,
  r = Catalog (Some rows) ∧
  rows `sublist_of` price_catalog (db w) ∧
  (∃ n, limit_rows (num_or (Some (sp_limit p)) 10%float) = Some n ∧
        (Z.of_nat (length rows) ≤ n)%Z) ∧
  Forall (λ e, active e = true) rows ∧
  (∀ c, given (sp_category p) = Some c → Forall (λ e, category e = c) rows) ∧
  (∀ q, given (Some (sp_query p)) = Some q →
        ∃ f, or_filter (or_text t q) = Some f ∧
             Forall (λ e, f e = true) rows).
Proof.
  intros Hrun.
  assert (∃ f all rows,
    (∀ q, given (Some (sp_query p)) = Some q →
          or_filter (or_text t q) = Some f) ∧
    r = Catalog (Some rows) ∧
    data (limited (num_or (Some (sp_limit p)) 10%float) all) = Some rows ∧
    all = filter (λ e, entry_matches f (given (sp_category p)) e)
            (price_catalog (db w)) ∧
    db w' = db w) as (f & all & rows & Hf & -> & Hd & -> & Hdb).
  { revert Hrun.
    destruct t; cbn [searchPriceCatalog_via];
      unfold Stdio.searchPriceCatalog, Http.searchPriceCatalog,
        Sse.searchPriceCatalog;
      cbn [http_SearchPriceCatalog Http.sp_query Http.sp_category
           Http.sp_limit];
      rewrite bind_await; unfold select_catalog; cbn [fst snd];
      (destruct (given (Some (sp_query p))) as [q|];
       destruct (given (sp_category p)) as [c|];
       cbn [c_or c_limit c_category or_text];
       [destruct (or_filter _) as [f|] eqn:Hor; [|discriminate]
       |destruct (or_filter _) as [f|] eqn:Hor; [|discriminate]| | ];
       match goal with
       | |- context [error ?r] =>
           destruct (error r) eqn:He; [discriminate|];
           apply limited_error in He as [rows Hd]
       end;
       intros [= <- <-];
       (eexists _, _, rows; split;
        [|split; [f_equal; exact Hd|split; [exact Hd|split; reflexivity]]]);
       first [ intros q' [= <-]; exact Hor | intros q' [=] ]). }
  apply limited_data in Hd as (n & Hn & ->).
  split; [exact Hdb|]. eexists. split; [reflexivity|].
  split; [etrans; [apply sublist_take|apply sublist_filter]|].
  split.
  { exists n. split; [exact Hn|].
    assert (0 ≤ n)%Z.
    { revert Hn. unfold limit_rows.
      destruct (Prim2SF _) as [[]| | |[] m e]; try discriminate;
        try (intros [= <-]; lia).
      destruct (_ && _); [|discriminate]. intros [= <-].
      destruct (0 <=? e)%Z eqn:He.
      - apply Z.mul_nonneg_nonneg; [lia|apply Z.pow_nonneg; lia].
      - apply Z.leb_gt in He.
        apply Z.div_pos; [lia|apply Z.pow_pos_nonneg; lia]. }
    rewrite length_take. lia. }
  assert (Forall (λ e, entry_matches f (given (sp_category p)) e = true)
            (take (Z.to_nat n)
               (filter (λ e, entry_matches f (given (sp_category p)) e)
                  (price_catalog (db w))))) as Hall.
  { apply Forall_take. apply Forall_forall. intros e He.
    apply list_elem_of_filter in He as [He _]. cbn in He.
    destruct (entry_matches _ _ e); [reflexivity|]. exfalso; exact He. }
  unfold entry_matches in Hall.
  split; [|split].
  - eapply Forall_impl; [exact Hall|]. cbn. intros e He.
    apply andb_true_iff in He as [He _]. apply andb_true_iff in He as [He _].
    exact He.
  - intros c Hc. eapply Forall_impl; [exact Hall|]. cbn. intros e He.
    apply andb_true_iff in He as [_ He]. rewrite Hc in He.
    apply eq_filter_true with (v := c) in He; congruence.
  - intros q Hq. exists f. split; [apply Hf, Hq|].
    eapply Forall_impl; [exact Hall|]. cbn. intros e He.
    apply andb_true_iff in He as [He _]. apply andb_true_iff in He as [_ He].
    exact He.
Qed.

End reading.

(** ** Moving a lead *)

Section writing.
Context {pol : Policy}.

(** In each of the three servers, [update_lead_stage] with the slug of one
    stage and the id of a lead returns that lead with a message naming the
    stage; the lead has the id of that stage as its [stage_id] and its other
    columns as they were, and nothing else in the backend has changed. Two
    requests were sent: the lookup of the stage and the update. *)
Theorem update_lead_stage_moves (t : Transport) (p : UpdateLeadStageParams)
  (w : World) (sid : string) (st : Stage) (l : Lead) :
  stages_by_slug (uls_new_stage_slug p) (db w) = [(sid, st)] →
  leads (db w) !! uls_lead_id p = Some l →
  ∃ row w',
    updateLeadStage_via t p w =
      (inr (Success (Some ("Lead moved to " ++ stage_name st)) (Some row)),
       w') ∧
    row_id row = uls_lead_id p ∧
    row_lead row = set_stage_id sid l ∧
    db w' = set_leads (<[uls_lead_id p := set_stage_id sid l]> (leads (db w)))
              (db w) ∧
    trace w' = {| call_verb := PATCH; call_table := "leads" |}
               :: {| call_verb := GET; call_table := "pipeline_stages" |}
               :: trace w.
Proof.
  intros Hs Hl.
  destruct t; cbn [updateLeadStage_via];
    unfold Stdio.updateLeadStage, Http.updateLeadStage, Sse.updateLeadStage;
    cbn [http_UpdateLeadStage Http.uls_new_stage_slug Http.uls_lead_id
         filter_text];
    rewrite bind_await, (select_stage_found _ _ _ Hs);
    cbn [fst snd data error ok]; rewrite bind_await;
    rewrite (update_lead_found _ _ _ _ l) by exact Hl;
    cbn [fst snd data error ok];
    eexists _, _; (split; [reflexivity|]); repeat split.
Qed.

(** In each of the three servers, [update_lead_stage] with the slug of one
    stage and an id no lead has throws the error of the update, which matched
    no row (the standard-stream server puts "Failed to update lead: " before
    it); the stage was looked up and the update sent, and the tables are as
    they were. *)
Theorem update_lead_stage_missing_lead (t : Transport)
  (p : UpdateLeadStageParams) (w : World) (sid : string) (st : Stage) :
  stages_by_slug (uls_new_stage_slug p) (db w) = [(sid, st)] →
  leads (db w) !! uls_lead_id p = None →
  updateLeadStage_via t p w =
    (inl (Error ((if t is stdio then "Failed to update lead: "
                  else EmptyString)
                 ++ "JSON object requested, multiple (or no) rows returned")),
     sent PATCH "leads" (sent GET "pipeline_stages" w)).
Proof.
  intros Hs Hl.
  destruct t; cbn [updateLeadStage_via];
    unfold Stdio.updateLeadStage, Http.updateLeadStage, Sse.updateLeadStage;
    cbn [http_UpdateLeadStage Http.uls_new_stage_slug Http.uls_lead_id
         filter_text];
    rewrite bind_await, (select_stage_found _ _ _ Hs);
    cbn [fst snd data error ok]; rewrite bind_await;
    rewrite update_lead_missing by exact Hl;
    reflexivity.
Qed.

(** A slug that more than one stage has is a slug that names no stage: in
    each of the three servers [update_lead_stage] throws a stage-not-found
    error after the lookup and nothing else, [create_lead] does so when the
    slug is not the empty string, and [get_leads] returns what it returns
    without a slug. *)
Theorem ambiguous_stage_is_unknown (t : Transport) (slug : string) (w : World) :
  (2 ≤ length (stages_by_slug slug (db w)))%nat →
  (∀ p, uls_new_stage_slug p = slug →
     ∃ e, updateLeadStage_via t p w = (inl e, sent GET "pipeline_stages" w) ∧
          StageNotFound e) ∧
  (∀ p, cl_stage_slug p = slug → slug ≠ EmptyString →
     ∃ e, createLead_via t p w = (inl e, sent GET "pipeline_stages" w) ∧
          StageNotFound e) ∧
  (∀ p, gl_stage_slug p = Some slug →
     (getLeads_via t p w).1 = (getLeads_via t (no_stage_slug p) w).1).
Proof.
  intros Hs.
  assert (length (stages_by_slug slug (db w)) ≠ 1%nat) as Hne by lia.
  split; [|split].
  - intros p <-.
    destruct t; cbn [updateLeadStage_via];
      unfold Stdio.updateLeadStage, Http.updateLeadStage, Sse.updateLeadStage;
      cbn [http_UpdateLeadStage Http.uls_new_stage_slug Http.uls_lead_id
           filter_text];
      rewrite bind_await, (select_stage_ambiguous _ _ Hne);
      cbn [fst snd data error failed];
      (eexists; split; [reflexivity|]); eexists; reflexivity.
  - intros p <- Hn.
    destruct (select_stage_id_none (cl_stage_slug p) w Hne) as [message Hq].
    destruct t; cbn [createLead_via];
      unfold Stdio.createLead, Http.createLead, Sse.createLead;
      cbn [http_CreateLead Http.cl_stage_slug];
      rewrite bind_await, (str_or_nonempty _ _ Hn), Hq;
      cbn [fst snd data error failed];
      (eexists; split; [reflexivity|]).
    + eexists; reflexivity.
    + exists EmptyString; reflexivity.
    + exists EmptyString; reflexivity.
  - intros p Hp. rewrite !getLeads_query.
    cbn [no_stage_slug gl_stage_slug gl_vendedor_id gl_limit].
    rewrite Hp, (stage_filter_none _ _ Hne).
    apply leads_answer_db. rewrite !looked_up_db. reflexivity.
Qed.

(** ** Updates of custom fields, one after the other *)

Lemma set_custom_fields_twice (a b : JSON) (l : Lead) :
  set_custom_fields a (set_custom_fields b l) = set_custom_fields a l.
Proof. reflexivity. Qed.

Lemma leads_set_leads (a : gmap string Lead) (d : DB) :
  leads (set_leads a d) = a.
Proof. reflexivity. Qed.

Lemma set_leads_twice (a b : gmap string Lead) (d : DB) :
  set_leads a (set_leads b d) = set_leads a d.
Proof. reflexivity. Qed.

(** What [update_lead_custom_fields] leaves of the backend, in any of the
    three servers. *)
Lemma updateLeadCustomFields_db (t : Transport)
  (p : UpdateLeadCustomFieldsParams) (w : World) :
  fault w = None →
  db (updateLeadCustomFields_via t p w).2 =
    match leads (db w) !! ucf_lead_id p with
    | Some l =>
        set_leads
          (<[ucf_lead_id p :=
               set_custom_fields
                 (JObj (ucf_custom_fields p
                        ∪ stored_fields (lead_custom_fields l))) l]>
             (leads (db w)))
          (db w)
    | None => db w
    end.
Proof.
  intros Hf. destruct (leads (db w) !! ucf_lead_id p) as [l|] eqn:Hl.
  - destruct (updateLeadCustomFields_found t p w l Hl Hf)
      as (message & row & ->).
    reflexivity.
  - rewrite (updateLeadCustomFields_missing t p w Hl). destruct t; reflexivity.
Qed.

(** The requests to come are served after a call as they were before. *)
Lemma updateLeadCustomFields_served (t : Transport)
  (p : UpdateLeadCustomFieldsParams) (w : World) :
  served w → served (updateLeadCustomFields_via t p w).2.
Proof.
  intros Hs. destruct (leads (db w) !! ucf_lead_id p) as [l|] eqn:Hl.
  - destruct (updateLeadCustomFields_found t p w l Hl (served_fault w Hs))
      as (message & row & ->).
    apply served_sent, served_with_db, served_sent, Hs.
  - rewrite (updateLeadCustomFields_missing t p w Hl).
    destruct t; repeat apply served_sent; exact Hs.
Qed.

(** In each of the three servers, [update_lead_custom_fields] on an existing
    lead with the update map [U], when the read of the fields of the lead is
    answered, returns, and leaves that lead (and no other) with a
    [custom_fields] object [m] that is the shallow merge of what was stored
    with [U]: a key of [U] has [U]'s value, any other key has the value it
    had. *)
Theorem custom_fields_merged (t : Transport)
  (p : UpdateLeadCustomFieldsParams) (w : World) (l : Lead) :
  leads (db w) !! ucf_lead_id p = Some l →
  fault w = None →
  ∃ r w' m,
    updateLeadCustomFields_via t p w = (inr r, w') ∧
    leads (db w') =
      <[ucf_lead_id p := set_custom_fields (JObj m) l]> (leads (db w)) ∧
    ∀ k, m !! k = match ucf_custom_fields p !! k with
                  | Some v => Some v
                  | None => stored_fields (lead_custom_fields l) !! k
                  end.
Proof.
  intros Hl Hf.
  destruct (updateLeadCustomFields_found t p w l Hl Hf) as (message & row & ->).
  eexists _, _, _. split; [reflexivity|]. split; [reflexivity|].
  intros k. rewrite lookup_union.
  destruct (ucf_custom_fields p !! k),
    (stored_fields (lead_custom_fields l) !! k); reflexivity.
Qed.

(** The same call when the read of the fields fails, the lead being there.
    The standard-stream server reads the error, throws a lead-not-found
    error, and sends no update. The HTTP and the event-stream servers do not
    read it: they go on with no current fields, and the update they send
    leaves the lead with the fields of [U] and no other. *)
Theorem custom_fields_read_fails (t : Transport)
  (p : UpdateLeadCustomFieldsParams) (w : World) (l : Lead)
  (message : string) :
  leads (db w) !! ucf_lead_id p = Some l →
  fault w = Some message →
  (∃ e, updateLeadCustomFields_via stdio p w = (inl e, sent GET "leads" w) ∧
        LeadNotFound e) ∧
  (t ≠ stdio →
   ∃ row w',
     updateLeadCustomFields_via t p w = (inr (Success None (Some row)), w') ∧
     row_lead row = set_custom_fields (JObj (ucf_custom_fields p)) l ∧
     leads (db w') =
       <[ucf_lead_id p := set_custom_fields (JObj (ucf_custom_fields p)) l]>
         (leads (db w))).
Proof.
  intros Hl Hf.
  destruct (updateLeadCustomFields_unread t p w l message Hl Hf)
    as [Hstdio Hothers].
  split.
  - rewrite Hstdio. eexists. split; [reflexivity|]. eexists. reflexivity.
  - intros Ht. destruct (Hothers Ht) as [row Hrun].
    exists row. eexists. split; [exact Hrun|].
    split; [|reflexivity].
    revert Hrun. destruct t; [congruence| |];
      cbn [updateLeadCustomFields_via];
      unfold Http.updateLeadCustomFields, Sse.updateLeadCustomFields;
      cbn [http_UpdateLeadCustomFields Http.ucf_lead_id Http.ucf_custom_fields
           filter_text];
      rewrite bind_await, (select_custom_fields_failed _ _ _ Hf);
      cbn [fst snd data error failed]; rewrite bind_await;
      rewrite (update_lead_found _ _ _ _ l) by exact Hl;
      cbn [fst snd data error ok]; rewrite merge_fields_none;
      intros [= <-]; reflexivity.
Qed.

(** In each of the three servers, while the requests are served,
    [update_lead_custom_fields] with [U] and then with [V] leaves the backend
    as one call with [V] over [U] does: the later value wins for a key both
    have. In particular the same update twice leaves what the update once
    leaves. *)
Theorem custom_fields_updates_compose (t : Transport) (id : string)
  (U V : gmap string JSON) (w : World) :
  served w →
  db (update_fields t id V (update_fields t id U w).2).2
    = db (update_fields t id (V ∪ U) w).2 ∧
  db (update_fields t id U (update_fields t id U w).2).2
    = db (update_fields t id U w).2.
Proof.
  intros Hs.
  assert (∀ V, db (update_fields t id V (update_fields t id U w).2).2
               = db (update_fields t id (V ∪ U) w).2) as Hc.
  { intros V0. unfold update_fields.
    rewrite (updateLeadCustomFields_db t _ (updateLeadCustomFields_via t _ w).2)
      by (apply served_fault, updateLeadCustomFields_served, Hs).
    rewrite !updateLeadCustomFields_db by (apply served_fault, Hs).
    cbn [ucf_lead_id ucf_custom_fields].
    destruct (leads (db w) !! id) as [l|] eqn:Hl.
    - rewrite leads_set_leads, lookup_insert_eq.
      rewrite set_leads_twice, insert_insert_eq, set_custom_fields_twice.
      cbn [set_custom_fields lead_custom_fields].
      rewrite stored_fields_object, (assoc_L (∪)). reflexivity.
    - rewrite Hl. reflexivity. }
  split; [apply Hc|].
  rewrite Hc, (idemp_L (∪) U). reflexivity.
Qed.

(** ** Creating leads *)

(** In each of the three servers, the lead a [create_lead] that returns has
    inserted holds the name, the phone, the email, the seller and the notes
    of the call, as [custom_fields] the object of the call or the empty
    object, and as [created_at] the time of the backend; its id is one no
    lead had, and the table has that row more than before. *)
Theorem create_lead_stores_arguments (t : Transport) (p : CreateLeadParams)
  (w w' : World) (r : ToolResult) :
  createLead_via t p w = (inr r, w') →
  ∃ message row,
    r = Success message (Some row) ∧
    leads (db w) !! row_id row = None ∧
    leads (db w') = <[row_id row := row_lead row]> (leads (db w)) ∧
    lead_name (row_lead row) = Some (cl_name p) ∧
    lead_phone (row_lead row) = cl_phone p ∧
    lead_email (row_lead row) = cl_email p ∧
    lead_vendedor_id (row_lead row) = Some (cl_vendedor_id p) ∧
    lead_notes (row_lead row) = cl_notes p ∧
    lead_custom_fields (row_lead row)
      = JObj (default ∅ (cl_custom_fields p)) ∧
    lead_created_at (row_lead row) = clock (db w).
Proof.
  intros Hrun.
  apply createLead_inserts in Hrun
    as (sid & st & message & row & _ & _ & -> & Hnew & Hrow & Hdb).
  exists message, row. rewrite Hdb, Hrow. repeat split. exact Hnew.
Qed.

Lemma leads_in_stage_insert (sid id : string) (l : Lead) (d d' : DB) :
  leads d !! id = None →
  leads d' = <[id := l]> (leads d) →
  lead_stage_id l = Some sid →
  length (leads_in_stage sid d') = S (length (leads_in_stage sid d)).
Proof.
  intros Hnew Hd Hsid. unfold leads_in_stage. rewrite Hd.
  rewrite (map_to_list_insert _ _ _ Hnew).
  rewrite filter_cons_True by exact Hsid. reflexivity.
Qed.

(** Two leads created one after the other in the same stage, by whichever
    servers: the second gets another id and a later [created_at], and, when
    the count of each call, its second request, is answered, the position
    after the first's. *)
Theorem create_lead_consecutive (t1 t2 : Transport) (p1 p2 : CreateLeadParams)
  (w w1 w2 : World) (r1 r2 : ToolResult) :
  createLead_via t1 p1 w = (inr r1, w1) →
  createLead_via t2 p2 w1 = (inr r2, w2) →
  str_or (Some (cl_stage_slug p1)) "lead"
    = str_or (Some (cl_stage_slug p2)) "lead" →
  fault_at 1 w = None →
  fault_at 1 w1 = None →
  ∃ m1 m2 row1 row2,
    r1 = Success m1 (Some row1) ∧
    r2 = Success m2 (Some row2) ∧
    row_id row1 ≠ row_id row2 ∧
    lead_stage_id (row_lead row2) = lead_stage_id (row_lead row1) ∧
    lead_position (row_lead row2) = (lead_position (row_lead row1) + 1)%Z ∧
    (lead_created_at (row_lead row1) < lead_created_at (row_lead row2))%Z.
Proof.
  intros H1 H2 Hslug Hc1 Hc2.
  apply createLead_inserts in H1
    as (sid1 & st1 & m1 & row1 & _ & Hs1 & -> & Hnew1 & Hrow1 & Hdb1).
  apply createLead_inserts in H2
    as (sid2 & st2 & m2 & row2 & _ & Hs2 & -> & Hnew2 & Hrow2 & Hdb2).
  rewrite Hc1 in Hrow1. rewrite Hc2 in Hrow2.
  assert (sid2 = sid1) as ->.
  { unfold stages_by_slug in Hs1, Hs2. rewrite <- Hslug, Hdb1 in Hs2.
    cbn [pipeline_stages] in Hs2. congruence. }
  exists m1, m2, row1, row2. split; [reflexivity|]. split; [reflexivity|].
  split.
  { intros Heq. rewrite Hdb1 in Hnew2. cbn [leads] in Hnew2.
    rewrite <- Heq, lookup_insert_eq in Hnew2. discriminate. }
  rewrite Hrow2, Hrow1.
  cbn [lead_stage_id lead_position lead_created_at].
  split; [reflexivity|]. split.
  - rewrite (leads_in_stage_insert sid1 (row_id row1) (row_lead row1) (db w));
      [lia|exact Hnew1|rewrite Hdb1; reflexivity|rewrite Hrow1; reflexivity].
  - rewrite Hdb1. cbn [clock]. lia.
Qed.

(** A lead just created and then updated, by whichever servers, the read of
    the update being answered: the custom fields it ends with are those it
    was created with, overridden by those of the update. *)
Theorem created_lead_fields_update (t1 t2 : Transport) (p : CreateLeadParams)
  (U : gmap string JSON) (w w' : World) (r : ToolResult) :
  createLead_via t1 p w = (inr r, w') →
  fault w' = None →
  ∃ message row l,
    r = Success message (Some row) ∧
    leads (db (update_fields t2 (row_id row) U w').2) !! row_id row
      = Some l ∧
    lead_custom_fields l = JObj (U ∪ default ∅ (cl_custom_fields p)) ∧
    set_custom_fields (lead_custom_fields (row_lead row)) l = row_lead row.
Proof.
  intros Hrun Hf.
  apply createLead_inserts in Hrun
    as (sid & st & message & row & _ & _ & -> & Hnew & Hrow & Hdb).
  exists message, row. unfold update_fields.
  rewrite updateLeadCustomFields_db by exact Hf.
  cbn [ucf_lead_id ucf_custom_fields].
  rewrite Hdb. cbn [leads]. rewrite lookup_insert_eq.
  rewrite leads_set_leads, lookup_insert_eq.
  eexists. split; [reflexivity|]. split; [reflexivity|].
  rewrite Hrow. cbn [lead_custom_fields set_custom_fields].
  rewrite stored_fields_object. split; reflexivity.
Qed.

End writing.

(** ** What no tool call does *)

(** A relation between the backend before and after, indexed by a bound on
    the requests sent, that holds of no request at all, composes, and holds
    of one read. *)
Section effects.
Variable R : nat → World → World → Prop.
Hypothesis R_refl : ∀ n w, R n w w.
Hypothesis R_trans :
  ∀ a b w w' w'', R a w w' → R b w' w'' → R (a + b) w w''.
Hypothesis R_mono : ∀ a b w w', (a ≤ b)%nat → R a w w' → R b w w'.
Hypothesis R_get : ∀ table w, R 1 w (sent GET table w).
Context {fmt : Formats} {pol : Policy}.

Lemma keeps_ret {A} (n : nat) (x : A) : keeps R n (mret x).
Proof. intros w. apply R_refl. Qed.

Lemma keeps_throw {A} (n : nat) (e : Exn) : keeps R n (throw (A := A) e).
Proof. intros w. apply R_refl. Qed.

Lemma keeps_bind {A B} (a b : nat) (m : M A) (f : A → M B) :
  keeps R a m → (∀ x, keeps R b (f x)) → keeps R (a + b) (m ≫= f).
Proof.
  intros Hm Hf w. unfold mbind, M_bind. specialize (Hm w).
  destruct (m w) as [[e|x] w']; cbn [snd] in *.
  - apply (R_mono a); [lia|exact Hm].
  - apply (R_trans _ _ _ w'); [exact Hm|apply Hf].
Qed.

Lemma keeps_await {A B} (n : nat) (q : Query A) (f : PgResp A → M B) :
  (∀ w, R 1 w (q w).2) → (∀ r, keeps R n (f r)) →
  keeps R (S n) (await q ≫= f).
Proof.
  intros Hq Hf w. rewrite bind_await.
  apply (R_trans 1 n _ (q w).2); [apply Hq|apply Hf].
Qed.

Lemma keeps_parse {A B} (n : nat) (schema : option JSON → list ZodIssue + A)
  (args : option JSON) (h : A → M B) :
  (∀ p, keeps R n (h p)) → keeps R n (parse schema args ≫= h).
Proof.
  intros Hh. unfold parse. destruct (schema args) as [issues|p].
  - intros w. apply R_refl.
  - intros w. rewrite bind_ret. apply Hh.
Qed.

Ltac gets_kept :=
  repeat first
    [ apply keeps_ret
    | apply keeps_throw
    | apply keeps_await; [intros ?; apply R_get|intros ?]
    | match goal with
      | |- keeps _ _ (match ?x with _ => _ end) => destruct x
      end ].

Lemma getLeads_keeps (t : Transport) (p : GetLeadsParams) :
  keeps R 2 (getLeads_via t p).
Proof.
  destruct t; cbn [getLeads_via];
    unfold Stdio.getLeads, Http.getLeads, Sse.getLeads; cbn zeta;
    (apply (keeps_bind 1 1); [gets_kept|intros q; gets_kept]).
Qed.

Lemma searchPriceCatalog_keeps (t : Transport) (p : SearchPriceCatalogParams) :
  keeps R 1 (searchPriceCatalog_via t p).
Proof.
  destruct t; cbn [searchPriceCatalog_via];
    unfold Stdio.searchPriceCatalog, Http.searchPriceCatalog,
      Sse.searchPriceCatalog; cbn zeta; gets_kept.
Qed.

Lemma getLeadHistory_keeps (t : Transport) (p : GetLeadHistoryParams) :
  keeps R 1 (getLeadHistory_via t p).
Proof.
  destruct t; cbn [getLeadHistory_via];
    unfold Stdio.getLeadHistory, Http.getLeadHistory, Sse.getLeadHistory;
    gets_kept.
Qed.

Lemma getPipelineStats_keeps (t : Transport) :
  keeps R 1 (getPipelineStats_via t).
Proof.
  destruct t; cbn [getPipelineStats_via];
    unfold Stdio.getPipelineStats, Http.getPipelineStats,
      Sse.getPipelineStats;
    gets_kept.
Qed.

(** The HTTP handlers on parameters of which any may be missing. *)
Lemma http_getLeads_keeps (p : Http.GetLeadsParams) :
  keeps R 2 (Http.getLeads p).
Proof.
  unfold Http.getLeads; cbn zeta.
  apply (keeps_bind 1 1); [gets_kept|intros q; gets_kept].
Qed.

Lemma http_searchPriceCatalog_keeps (p : Http.SearchPriceCatalogParams) :
  keeps R 1 (Http.searchPriceCatalog p).
Proof. unfold Http.searchPriceCatalog; cbn zeta; gets_kept. Qed.

Lemma http_getLeadHistory_keeps (p : Http.GetLeadHistoryParams) :
  keeps R 1 (Http.getLeadHistory p).
Proof. unfold Http.getLeadHistory; gets_kept. Qed.

(** The calls of the reading tools. *)
Lemma stdio_reading_keeps (t : Tool) (args : option JSON) :
  t ∈ reading_tools → keeps R 2 (Stdio.dispatch (tool_name t) args).
Proof.
  intros Ht. unfold Stdio.dispatch. rewrite tool_of_tool_name.
  unfold reading_tools in Ht.
  repeat (apply elem_of_cons in Ht as [->|Ht]); [..|inversion Ht].
  - apply keeps_parse. intros p. apply (getLeads_keeps stdio).
  - apply keeps_parse. intros p w. apply (R_mono 1); [lia|].
    apply (searchPriceCatalog_keeps stdio).
  - apply keeps_parse. intros p w. apply (R_mono 1); [lia|].
    apply (getLeadHistory_keeps stdio).
  - intros w. apply (R_mono 1); [lia|]. apply (getPipelineStats_keeps stdio).
Qed.

Lemma sse_reading_keeps (t : Tool) (args : option JSON) :
  t ∈ reading_tools → keeps R 2 (Sse.dispatch (tool_name t) args).
Proof.
  intros Ht. unfold Sse.dispatch. rewrite tool_of_tool_name.
  unfold reading_tools in Ht.
  repeat (apply elem_of_cons in Ht as [->|Ht]); [..|inversion Ht].
  - apply keeps_parse. intros p. apply (getLeads_keeps sse).
  - apply keeps_parse. intros p w. apply (R_mono 1); [lia|].
    apply (searchPriceCatalog_keeps sse).
  - apply keeps_parse. intros p w. apply (R_mono 1); [lia|].
    apply (getLeadHistory_keeps sse).
  - intros w. apply (R_mono 1); [lia|]. apply (getPipelineStats_keeps sse).
Qed.

Lemma http_reading_keeps (t : Tool) (args : JSON) (m : M ToolResult) :
  t ∈ reading_tools → Http.handler t args = Some m → keeps R 2 m.
Proof.
  intros Ht. unfold reading_tools in Ht.
  repeat (apply elem_of_cons in Ht as [->|Ht]); [..|inversion Ht];
    cbn [Http.handler].
  - destruct (Http.read_GetLeads args) as [p|]; intros [= <-].
    apply http_getLeads_keeps.
  - destruct (Http.read_SearchPriceCatalog args) as [p|]; intros [= <-].
    intros w. apply (R_mono 1); [lia|]. apply http_searchPriceCatalog_keeps.
  - destruct (Http.read_GetLeadHistory args) as [p|]; intros [= <-].
    intros w. apply (R_mono 1); [lia|]. apply http_getLeadHistory_keeps.
  - intros [= <-]. intros w. apply (R_mono 1); [lia|].
    apply (getPipelineStats_keeps http).
Qed.

Lemma http_run_keeps (n : nat) (h : option (M ToolResult))
  (wrap : ToolResult → Http.HttpBody) (w w' : World)
  (resp : Http.HttpResponse) :
  (∀ m, h = Some m → keeps R n m) →
  Http.run h wrap w = Some (resp, w') → R n w w'.
Proof.
  intros Hh. unfold Http.run. destruct h as [m|]; [|discriminate].
  cbn. specialize (Hh m eq_refl w).
  destruct (m w) as [[e|x] w0]; intros [= <- <-]; exact Hh.
Qed.

Lemma post_mcp_reading_keeps (t : Tool) (args : option JSON) (w w' : World)
  (resp : Http.HttpResponse) :
  t ∈ reading_tools →
  Http.post_mcp (tools_call (tool_name t) args) w = Some (resp, w') →
  R 2 w w'.
Proof.
  intros Ht. unfold Http.post_mcp, Http.call, Http.TOOLS.
  cbn [tools_call Http.mcp_method Http.mcp_params Http.cp_name
       Http.cp_arguments].
  rewrite tool_of_tool_name.
  rewrite bool_decide_eq_false_2 by discriminate.
  rewrite bool_decide_eq_true_2 by reflexivity.
  apply http_run_keeps. intros m. apply http_reading_keeps, Ht.
Qed.

(** A server's answer to a call, given what the handlers of the writing
    tools keep. *)
Hypothesis R_update : ∀ id patch sel w, R 1 w (update_lead id patch sel w).2.
Hypothesis R_count : ∀ sid head w, R 1 w (count_leads sid head w).2.
Hypothesis R_insert : ∀ r w, R 1 w (insert_lead r w).2.

Ltac requests_kept :=
  repeat first
    [ apply keeps_ret
    | apply keeps_throw
    | apply keeps_await;
      [intros ?; first [apply R_get|apply R_update|apply R_count|apply R_insert]
      |intros ?]
    | match goal with
      | |- keeps _ _ (match ?x with _ => _ end) => destruct x
      end ].

Lemma stdio_dispatch_keeps (name : string) (args : option JSON) :
  keeps R 3 (Stdio.dispatch name args).
Proof.
  unfold Stdio.dispatch. destruct (tool_of_name name) as [[]|].
  - apply keeps_parse. intros p w. apply (R_mono 2); [lia|].
    apply (getLeads_keeps stdio).
  - apply keeps_parse. intros p. unfold Stdio.updateLeadStage. requests_kept.
  - apply keeps_parse. intros p. unfold Stdio.updateLeadCustomFields.
    cbn zeta. requests_kept.
  - apply keeps_parse. intros p. unfold Stdio.createLead. requests_kept.
  - apply keeps_parse. intros p w. apply (R_mono 1); [lia|].
    apply (searchPriceCatalog_keeps stdio).
  - apply keeps_parse. intros p w. apply (R_mono 1); [lia|].
    apply (getLeadHistory_keeps stdio).
  - intros w. apply (R_mono 1); [lia|]. apply (getPipelineStats_keeps stdio).
  - apply keeps_throw.
Qed.

Lemma sse_dispatch_keeps (name : string) (args : option JSON) :
  keeps R 3 (Sse.dispatch name args).
Proof.
  unfold Sse.dispatch. destruct (tool_of_name name) as [[]|].
  - apply keeps_parse. intros p w. apply (R_mono 2); [lia|].
    apply (getLeads_keeps sse).
  - apply keeps_parse. intros p. unfold Sse.updateLeadStage. requests_kept.
  - apply keeps_parse. intros p. unfold Sse.updateLeadCustomFields.
    cbn zeta. requests_kept.
  - apply keeps_parse. intros p. unfold Sse.createLead. requests_kept.
  - apply keeps_parse. intros p w. apply (R_mono 1); [lia|].
    apply (searchPriceCatalog_keeps sse).
  - apply keeps_parse. intros p w. apply (R_mono 1); [lia|].
    apply (getLeadHistory_keeps sse).
  - intros w. apply (R_mono 1); [lia|]. apply (getPipelineStats_keeps sse).
  - apply keeps_throw.
Qed.

Lemma http_handler_keeps (t : Tool) (args : JSON) (m : M ToolResult) :
  Http.handler t args = Some m → keeps R 3 m.
Proof.
  destruct t; cbn [Http.handler].
  - destruct (Http.read_GetLeads args) as [p|]; intros [= <-].
    intros w. apply (R_mono 2); [lia|]. apply http_getLeads_keeps.
  - destruct (Http.read_UpdateLeadStage args) as [p|]; intros [= <-].
    unfold Http.updateLeadStage. requests_kept.
  - destruct (Http.read_UpdateLeadCustomFields args) as [p|]; intros [= <-].
    unfold Http.updateLeadCustomFields. cbn zeta. requests_kept.
  - destruct (Http.read_CreateLead args) as [p|]; intros [= <-].
    unfold Http.createLead. requests_kept.
  - destruct (Http.read_SearchPriceCatalog args) as [p|]; intros [= <-].
    intros w. apply (R_mono 1); [lia|]. apply http_searchPriceCatalog_keeps.
  - destruct (Http.read_GetLeadHistory args) as [p|]; intros [= <-].
    intros w. apply (R_mono 1); [lia|]. apply http_getLeadHistory_keeps.
  - intros [= <-]. intros w. apply (R_mono 1); [lia|].
    apply (getPipelineStats_keeps http).
Qed.

Lemma http_call_keeps (callee name : string) (args : option JSON)
  (wrap : ToolResult → Http.HttpBody) (w w' : World)
  (resp : Http.HttpResponse) :
  Http.call callee name args wrap w = Some (resp, w') → R 3 w w'.
Proof.
  unfold Http.call. destruct (Http.TOOLS name) as [t| |].
  - apply http_run_keeps. apply http_handler_keeps.
  - intros [= <- <-]. apply R_refl.
  - intros [= <- <-]. apply R_refl.
Qed.

Lemma post_mcp_keeps (req : Http.McpBody) (w w' : World)
  (resp : Http.HttpResponse) :
  Http.post_mcp req w = Some (resp, w') → R 3 w w'.
Proof.
  unfold Http.post_mcp.
  destruct (bool_decide (Http.mcp_method req = Some "tools/list"));
    [intros [= <- <-]; apply R_refl|].
  destruct (bool_decide (Http.mcp_method req = Some "tools/call")).
  - destruct (Http.mcp_params req) as [p|];
      [apply http_call_keeps|intros [= <- <-]; apply R_refl].
  - destruct (given (Http.mcp_tool req)) as [tool|];
      [apply http_call_keeps|intros [= <- <-]; apply R_refl].
Qed.

End effects.

(** ** The two relations *)

Lemma kept_refl (n : nat) (w : World) : kept n w w.
Proof.
  repeat split; try reflexivity. exists [].
  repeat split; [cbn; lia|constructor].
Qed.

Lemma kept_trans (a b : nat) (w w' w'' : World) :
  kept a w w' → kept b w' w'' → kept (a + b) w w''.
Proof.
  intros (Hs & Hp & Hc & Hh & Hd & Hk & calls & Ht & Hn & Hw)
         (Hs' & Hp' & Hc' & Hh' & Hd' & Hk' & calls' & Ht' & Hn' & Hw').
  unfold kept, requests in *.
  split; [congruence|]. split; [congruence|]. split; [congruence|].
  split; [congruence|]. split; [set_solver|]. split; [lia|].
  exists (calls' ++ calls)%list. split; [|split].
  - rewrite Ht', Ht, app_assoc. reflexivity.
  - rewrite length_app. lia.
  - apply Forall_app. split; assumption.
Qed.

Lemma kept_mono (a b : nat) (w w' : World) :
  (a ≤ b)%nat → kept a w w' → kept b w w'.
Proof.
  intros Hab (Hs & Hp & Hc & Hh & Hd & Hk & calls & Ht & Hn & Hw).
  repeat (split; [assumption|]). exists calls.
  repeat split; [assumption|lia|assumption].
Qed.

Lemma kept_sent (v : Verb) (table : string) (w : World) :
  (is_write {| call_verb := v; call_table := table |} = true →
   table = "leads") →
  kept 1 w (sent v table w).
Proof.
  intros Hw. repeat split; try reflexivity.
  exists [ {| call_verb := v; call_table := table |} ].
  repeat split; [cbn; lia|]. constructor; [exact Hw|constructor].
Qed.

Lemma kept_get (table : string) (w : World) : kept 1 w (sent GET table w).
Proof. apply kept_sent. discriminate. Qed.

Lemma kept_update (id : string) (patch : Lead → Lead) (sel : StageSelect)
  (w : World) :
  kept 1 w (update_lead id patch sel w).2.
Proof.
  unfold update_lead. destruct (leads (db w) !! id) as [l|] eqn:Hl; cbn [snd].
  - repeat split; try reflexivity.
    + cbn. apply dom_insert_subseteq.
    + exists [ {| call_verb := PATCH; call_table := "leads" |} ].
      repeat split; [cbn; lia|]. constructor; [reflexivity|constructor].
  - apply kept_sent. reflexivity.
Qed.

Lemma kept_count (sid : string) (head : bool) (w : World) :
  kept 1 w (count_leads sid head w).2.
Proof.
  unfold count_leads. cbn [snd]. apply kept_sent. destruct head; discriminate.
Qed.

Lemma kept_insert `{Policy} (r : LeadInsert) (w : World) :
  kept 1 w (insert_lead r w).2.
Proof.
  unfold insert_lead. destruct (insert_check (db w) r); cbn [snd].
  - apply kept_sent. reflexivity.
  - repeat split; try reflexivity.
    + cbn. apply dom_insert_subseteq.
    + cbn. lia.
    + exists [ {| call_verb := POST; call_table := "leads" |} ].
      repeat split; [cbn; lia|]. constructor; [reflexivity|constructor].
Qed.

Lemma only_read_refl (n : nat) (w : World) : only_read n w w.
Proof.
  split; [reflexivity|]. exists []. repeat split; [cbn; lia|constructor].
Qed.

Lemma only_read_trans (a b : nat) (w w' w'' : World) :
  only_read a w w' → only_read b w' w'' → only_read (a + b) w w''.
Proof.
  intros (Hd & calls & Ht & Hn & Hw) (Hd' & calls' & Ht' & Hn' & Hw').
  unfold only_read, requests in *. split; [congruence|].
  exists (calls' ++ calls)%list. split; [|split].
  - rewrite Ht', Ht, app_assoc. reflexivity.
  - rewrite length_app. lia.
  - apply Forall_app. split; assumption.
Qed.

Lemma only_read_mono (a b : nat) (w w' : World) :
  (a ≤ b)%nat → only_read a w w' → only_read b w w'.
Proof.
  intros Hab (Hd & calls & Ht & Hn & Hw). split; [exact Hd|].
  exists calls. repeat split; [assumption|lia|assumption].
Qed.

Lemma only_read_get (table : string) (w : World) :
  only_read 1 w (sent GET table w).
Proof.
  split; [reflexivity|].
  exists [ {| call_verb := GET; call_table := table |} ].
  repeat split; [cbn; lia|]. constructor; [reflexivity|constructor].
Qed.

Section invariants.
Context {fmt : Formats} {pol : Policy}.

Lemma stdio_call_world (name : string) (args : option JSON) (w : World) :
  (Stdio.CallToolRequest name args w).2 = (Stdio.dispatch name args w).2.
Proof.
  unfold Stdio.CallToolRequest.
  destruct (Stdio.dispatch name args w) as [[e|r] w']; reflexivity.
Qed.

Lemma sse_call_world (name : string) (args : option JSON) (w : World) :
  (Sse.CallToolRequest name args w).2 = (Sse.dispatch name args w).2.
Proof.
  unfold Sse.CallToolRequest.
  destruct (Sse.dispatch name args w) as [[e|r] w']; reflexivity.
Qed.

(** Whatever the name and the arguments, a tool call to any of the three
    servers (for the HTTP server: any body posted to [/mcp]) leaves the
    stages, the sellers, the catalog and the history as they were and
    removes no lead; it sends the backend at most three requests, and those
    that write go to [leads]. *)
Theorem calls_keep_tables (w : World) :
  (∀ name args, kept 3 w (Stdio.CallToolRequest name args w).2) ∧
  (∀ name args, kept 3 w (Sse.CallToolRequest name args w).2) ∧
  (∀ req resp w', Http.post_mcp req w = Some (resp, w') → kept 3 w w').
Proof.
  split; [|split].
  - intros name args. rewrite stdio_call_world.
    apply (stdio_dispatch_keeps kept kept_refl kept_trans kept_mono kept_get
             kept_update kept_count kept_insert).
  - intros name args. rewrite sse_call_world.
    apply (sse_dispatch_keeps kept kept_refl kept_trans kept_mono kept_get
             kept_update kept_insert).
  - intros req resp w'.
    apply (post_mcp_keeps kept kept_refl kept_trans kept_mono kept_get
             kept_update kept_count kept_insert).
Qed.

(** A call of [get_leads], [search_price_catalog], [get_lead_history] or
    [get_pipeline_stats], with whatever arguments, to any of the three
    servers: the backend is as it was, arguments accepted or not, after at
    most two requests, all of them reads. *)
Theorem reading_tools_only_read (t : Tool) (args : option JSON) (w : World) :
  t ∈ reading_tools →
  only_read 2 w (Stdio.CallToolRequest (tool_name t) args w).2 ∧
  only_read 2 w (Sse.CallToolRequest (tool_name t) args w).2 ∧
  ∀ resp w',
    Http.post_mcp (tools_call (tool_name t) args) w = Some (resp, w') →
    only_read 2 w w'.
Proof.
  intros Ht. split; [|split].
  - rewrite stdio_call_world.
    apply (stdio_reading_keeps only_read only_read_refl only_read_trans
             only_read_mono only_read_get t args Ht).
  - rewrite sse_call_world.
    apply (sse_reading_keeps only_read only_read_refl only_read_trans
             only_read_mono only_read_get t args Ht).
  - intros resp w'.
    apply (post_mcp_reading_keeps only_read only_read_refl only_read_trans
             only_read_mono only_read_get t args w w' resp Ht).
Qed.

End invariants.

(** ** Arguments the schemas accept *)

Section accepted.
Context {fmt : Formats} {pol : Policy}.

Lemma ap_inr {A B} (f : list ZodIssue + (A → B)) (x : list ZodIssue + A)
  (v : B) :
  ap f x = inr v → ∃ g a, f = inr g ∧ x = inr a ∧ v = g a.
Proof. destruct f, x; cbn; intros [= <-]. eauto. Qed.

Lemma z_string_strings : parses_strings z_string.
Proof.
  intros path v s. destruct v as [[| | |x| |]|]; cbn; intros [=]. congruence.
Qed.

Lemma z_uuid_strings : parses_strings z_uuid.
Proof.
  intros path v s. unfold z_uuid.
  destruct (z_string path v) as [|s'] eqn:Hs; [discriminate|].
  apply z_string_strings in Hs as ->.
  destruct (is_uuid s'); intros [=]. congruence.
Qed.

Lemma z_email_strings : parses_strings z_email.
Proof.
  intros path v s. unfold z_email.
  destruct (z_string path v) as [|s'] eqn:Hs; [discriminate|].
  apply z_string_strings in Hs as ->.
  destruct (is_email s'); intros [=]. congruence.
Qed.

Lemma required_as_string (p : Parser string) (m : gmap string JSON)
  (k s : string) :
  parses_strings p → field m k p = inr s →
  Http.as_string (m !! k) = Some (Some s).
Proof. intros Hp Hf. apply Hp in Hf as ->. reflexivity. Qed.

Lemma optional_as_string (p : Parser string) (m : gmap string JSON)
  (k : string) (o : option string) :
  parses_strings p → field m k (z_optional p) = inr o →
  Http.as_string (m !! k) = Some o.
Proof.
  intros Hp. unfold field, z_optional.
  destruct (m !! k) as [v|]; [|intros [= <-]; reflexivity].
  destruct (p [k] (Some v)) as [|s] eqn:Hs; intros [= <-].
  apply Hp in Hs as [= ->]. reflexivity.
Qed.

Lemma default_as_string (p : Parser string) (m : gmap string JSON)
  (k d s : string) :
  parses_strings p → field m k (z_default p d) = inr s →
  ∃ o, Http.as_string (m !! k) = Some o ∧ s = default d o.
Proof.
  intros Hp. unfold field, z_default.
  destruct (m !! k) as [v|]; [|intros [= <-]; exists None; split; reflexivity].
  intros Hs. apply Hp in Hs as [= ->]. exists (Some s). split; reflexivity.
Qed.

Lemma default_as_number (m : gmap string JSON) (k : string) (d n : float) :
  field m k (z_default z_number d) = inr n →
  ∃ o, Http.as_number (m !! k) = Some o ∧ n = default d o.
Proof.
  unfold field, z_default, z_number.
  destruct (m !! k) as [[]|]; try discriminate.
  - destruct (PrimFloat.is_nan f); intros [= <-].
    exists (Some f). split; reflexivity.
  - intros [= <-]. exists None. split; reflexivity.
Qed.

(** A record is parsed to itself when it has no key [__proto__]. *)
Lemma required_record (m r : gmap string JSON) (k : string) :
  (∀ f, m !! k = Some (JObj f) → f !! "__proto__" = None) →
  field m k z_record = inr r → m !! k = Some (JObj r).
Proof.
  intros Hp. unfold field, z_record.
  destruct (m !! k) as [[| | | | |f]|]; intros [= <-].
  rewrite delete_id by (apply Hp; reflexivity). reflexivity.
Qed.

Lemma optional_record (m : gmap string JSON) (k : string)
  (o : option (gmap string JSON)) :
  (∀ f, m !! k = Some (JObj f) → f !! "__proto__" = None) →
  field m k (z_optional z_record) = inr o → m !! k = JObj <$> o.
Proof.
  intros Hp. unfold field, z_optional, z_record.
  destruct (m !! k) as [[| | | | |f]|]; intros [= <-]; [|reflexivity].
  rewrite delete_id by (apply Hp; reflexivity). reflexivity.
Qed.

Lemma z_object_inr {A} (shape : gmap string JSON → list ZodIssue + A)
  (args : option JSON) (p : A) :
  z_object shape args = inr p → ∃ m, args = Some (JObj m) ∧ shape m = inr p.
Proof. destruct args as [[]|]; cbn; try discriminate. eauto. Qed.

(** What the HTTP server reads off arguments a schema accepts, and that its
    handler does on it what it does on the parsed arguments. *)
Lemma GetLeads_read (args : option JSON) (p : GetLeadsParams) :
  GetLeadsSchema args = inr p →
  ∃ p', Http.read_GetLeads (or_empty args) = Some p' ∧
        Http.getLeads p' = Http.getLeads (http_GetLeads p).
Proof.
  intros H. apply z_object_inr in H as (m & -> & H).
  apply ap_inr in H as (g3 & limit & H & Hlimit & ->).
  apply ap_inr in H as (g2 & vendedor & H & Hvendedor & ->).
  apply ap_inr in H as (g1 & stage & [= <-] & Hstage & ->).
  apply (optional_as_string _ _ _ _ z_string_strings) in Hstage.
  apply (optional_as_string _ _ _ _ z_uuid_strings) in Hvendedor.
  apply default_as_number in Hlimit as (o & Hlimit & ->).
  rewrite or_empty_object. unfold Http.read_GetLeads, Http.prop.
  rewrite Hstage, Hvendedor, Hlimit. eexists. split; [reflexivity|].
  destruct o; reflexivity.
Qed.

Lemma UpdateLeadStage_read (args : option JSON) (p : UpdateLeadStageParams) :
  UpdateLeadStageSchema args = inr p →
  Http.read_UpdateLeadStage (or_empty args) = Some (http_UpdateLeadStage p).
Proof.
  intros H. apply z_object_inr in H as (m & -> & H).
  apply ap_inr in H as (g2 & slug & H & Hslug & ->).
  apply ap_inr in H as (g1 & id & [= <-] & Hid & ->).
  apply (required_as_string _ _ _ _ z_uuid_strings) in Hid.
  apply (required_as_string _ _ _ _ z_string_strings) in Hslug.
  rewrite or_empty_object. unfold Http.read_UpdateLeadStage, Http.prop.
  rewrite Hid, Hslug. reflexivity.
Qed.

Lemma UpdateLeadCustomFields_read (args : option JSON)
  (p : UpdateLeadCustomFieldsParams) :
  plain_fields args →
  UpdateLeadCustomFieldsSchema args = inr p →
  Http.read_UpdateLeadCustomFields (or_empty args)
    = Some (http_UpdateLeadCustomFields p).
Proof.
  intros Hplain H. apply z_object_inr in H as (m & -> & H).
  specialize (Hplain m).
  apply ap_inr in H as (g2 & fields & H & Hfields & ->).
  apply ap_inr in H as (g1 & id & [= <-] & Hid & ->).
  apply (required_as_string _ _ _ _ z_uuid_strings) in Hid.
  apply required_record in Hfields;
    [|intros f Hf; apply (Hplain f eq_refl Hf)].
  rewrite or_empty_object. unfold Http.read_UpdateLeadCustomFields, Http.prop.
  rewrite Hid, Hfields. reflexivity.
Qed.

Lemma CreateLead_read (args : option JSON) (p : CreateLeadParams) :
  plain_fields args →
  CreateLeadSchema args = inr p →
  ∃ p', Http.read_CreateLead (or_empty args) = Some p' ∧
        Http.createLead p' = Http.createLead (http_CreateLead p).
Proof.
  intros Hplain H. apply z_object_inr in H as (m & -> & H).
  specialize (Hplain m).
  apply ap_inr in H as (g7 & notes & H & Hnotes & ->).
  apply ap_inr in H as (g6 & fields & H & Hfields & ->).
  apply ap_inr in H as (g5 & vendedor & H & Hvendedor & ->).
  apply ap_inr in H as (g4 & slug & H & Hslug & ->).
  apply ap_inr in H as (g3 & email & H & Hemail & ->).
  apply ap_inr in H as (g2 & phone & H & Hphone & ->).
  apply ap_inr in H as (g1 & name & [= <-] & Hname & ->).
  apply (required_as_string _ _ _ _ z_string_strings) in Hname.
  apply (optional_as_string _ _ _ _ z_string_strings) in Hphone.
  apply (optional_as_string _ _ _ _ z_email_strings) in Hemail.
  apply (default_as_string _ _ _ _ _ z_string_strings) in Hslug
    as (o & Hslug & ->).
  apply (required_as_string _ _ _ _ z_uuid_strings) in Hvendedor.
  apply optional_record in Hfields;
    [|intros f Hf; apply (Hplain f eq_refl Hf)].
  apply (optional_as_string _ _ _ _ z_string_strings) in Hnotes.
  rewrite or_empty_object. unfold Http.read_CreateLead, Http.prop.
  rewrite Hname, Hphone, Hemail, Hslug, Hvendedor, Hnotes, Hfields.
  eexists. split; [reflexivity|].
  destruct o; reflexivity.
Qed.

Lemma SearchPriceCatalog_read (args : option JSON)
  (p : SearchPriceCatalogParams) :
  SearchPriceCatalogSchema args = inr p →
  ∃ p', Http.read_SearchPriceCatalog (or_empty args) = Some p' ∧
        Http.searchPriceCatalog p'
          = Http.searchPriceCatalog (http_SearchPriceCatalog p).
Proof.
  intros H. apply z_object_inr in H as (m & -> & H).
  apply ap_inr in H as (g3 & limit & H & Hlimit & ->).
  apply ap_inr in H as (g2 & cat & H & Hcat & ->).
  apply ap_inr in H as (g1 & query & [= <-] & Hquery & ->).
  apply (required_as_string _ _ _ _ z_string_strings) in Hquery.
  apply (optional_as_string _ _ _ _ z_string_strings) in Hcat.
  apply default_as_number in Hlimit as (o & Hlimit & ->).
  rewrite or_empty_object. unfold Http.read_SearchPriceCatalog, Http.prop.
  rewrite Hquery, Hcat, Hlimit. eexists. split; [reflexivity|].
  destruct o; reflexivity.
Qed.

Lemma GetLeadHistory_read (args : option JSON) (p : GetLeadHistoryParams) :
  GetLeadHistorySchema args = inr p →
  Http.read_GetLeadHistory (or_empty args) = Some (http_GetLeadHistory p).
Proof.
  intros H. apply z_object_inr in H as (m & -> & H).
  apply ap_inr in H as (g1 & id & [= <-] & Hid & ->).
  apply (required_as_string _ _ _ _ z_uuid_strings) in Hid.
  rewrite or_empty_object. unfold Http.read_GetLeadHistory, Http.prop.
  rewrite Hid. reflexivity.
Qed.

(** The three answers to a call whose handlers are [ms], [me] and [mh]. *)
Lemma answers_agree (t : Tool) (args : option JSON) (w : World)
  (ms me mh : M ToolResult) :
  Stdio.dispatch (tool_name t) args w = ms w →
  Sse.dispatch (tool_name t) args w = me w →
  Http.handler t (or_empty args) = Some mh →
  ∃ resp w',
    Http.post_mcp (tools_call (tool_name t) args) w = Some (resp, w') ∧
    w' = (mh w).2 ∧
    http_failed resp = negb (returned (mh w).1) ∧
    (Stdio.CallToolRequest (tool_name t) args w).2 = (ms w).2 ∧
    isError (Stdio.CallToolRequest (tool_name t) args w).1
      = negb (returned (ms w).1) ∧
    (Sse.CallToolRequest (tool_name t) args w).2 = (me w).2 ∧
    isError (Sse.CallToolRequest (tool_name t) args w).1
      = negb (returned (me w).1).
Proof.
  intros Hs He Hh.
  unfold Stdio.CallToolRequest, Sse.CallToolRequest, Http.post_mcp, Http.call,
    Http.TOOLS.
  cbn [tools_call Http.mcp_method Http.mcp_params Http.cp_name
       Http.cp_arguments].
  rewrite tool_of_tool_name, Hs, He, Hh.
  rewrite bool_decide_eq_false_2 by discriminate.
  rewrite bool_decide_eq_true_2 by reflexivity.
  unfold Http.run. cbn [mbind option_bind].
  destruct (mh w) as [[eh|rh] wh], (ms w) as [[es|rs] ws],
    (me w) as [[ee|re] we];
    eexists _, _; (split; [reflexivity|]); repeat split.
Qed.

(** A call whose arguments the schema of the tool accepts, with no key
    [__proto__] in its [custom_fields], gets an answer from the HTTP server
    too, and the three servers leave the same tables; the event-stream and
    the HTTP server succeed or fail together, and so does the standard-stream
    server, except in a search, where the filter it sends is another. For
    [update_lead_custom_fields] and [get_pipeline_stats] this is so when
    their first request, a read whose error only the standard-stream server
    reads, is answered. *)
Theorem accepted_arguments_agree (t : Tool) (args : option JSON) (w : World) :
  rejected t args = None →
  plain_fields args →
  (t = update_lead_custom_fields ∨ t = get_pipeline_stats → fault w = None) →
  ∃ resp w',
    Http.post_mcp (tools_call (tool_name t) args) w = Some (resp, w') ∧
    db (Stdio.CallToolRequest (tool_name t) args w).2 = db w' ∧
    db (Sse.CallToolRequest (tool_name t) args w).2 = db w' ∧
    isError (Sse.CallToolRequest (tool_name t) args w).1 = http_failed resp ∧
    (t ≠ search_price_catalog →
     isError (Stdio.CallToolRequest (tool_name t) args w).1
       = http_failed resp).
Proof.
  intros Hr Hplain Hfault.
  assert (∀ ms me mh : M ToolResult,
            Stdio.dispatch (tool_name t) args w = ms w →
            Sse.dispatch (tool_name t) args w = me w →
            Http.handler t (or_empty args) = Some mh →
            db (ms w).2 = db (mh w).2 →
            db (me w).2 = db (mh w).2 →
            returned (me w).1 = returned (mh w).1 →
            (t ≠ search_price_catalog →
             returned (ms w).1 = returned (mh w).1) →
            ∃ resp w',
              Http.post_mcp (tools_call (tool_name t) args) w
                = Some (resp, w') ∧
              db (Stdio.CallToolRequest (tool_name t) args w).2 = db w' ∧
              db (Sse.CallToolRequest (tool_name t) args w).2 = db w' ∧
              isError (Sse.CallToolRequest (tool_name t) args w).1
                = http_failed resp ∧
              (t ≠ search_price_catalog →
               isError (Stdio.CallToolRequest (tool_name t) args w).1
                 = http_failed resp)) as Hall.
  { intros ms me mh Hs He Hh Hds Hde Hre Hrs.
    destruct (answers_agree t args w ms me mh Hs He Hh)
      as (resp & w' & Hp & -> & Hf & Hsw & Hse & Hew & Hee).
    exists resp, (mh w).2. split; [exact Hp|].
    rewrite Hsw, Hew, Hse, Hee, Hf, Hre.
    split; [exact Hds|]. split; [exact Hde|]. split; [reflexivity|].
    intros Ht. rewrite (Hrs Ht). reflexivity. }
  unfold Stdio.dispatch, Sse.dispatch in Hall.
  rewrite tool_of_tool_name in Hall.
  destruct t; cbn [rejected Http.handler] in Hr, Hall; unfold parse in Hall.
  - destruct (GetLeadsSchema args) as [|p] eqn:Hp; [discriminate|].
    destruct (GetLeads_read _ _ Hp) as (p' & Hread & Hsame).
    rewrite Hread in Hall.
    destruct (getLeads_agree http p w) as [[Hd1 Hr1] _].
    destruct (getLeads_agree sse p w) as [[Hd2 Hr2] _].
    cbn [getLeads_via] in *.
    apply (Hall (Stdio.getLeads p) (Sse.getLeads p) (Http.getLeads p'));
      try reflexivity; rewrite Hsame; congruence.
  - destruct (UpdateLeadStageSchema args) as [|p] eqn:Hp; [discriminate|].
    rewrite (UpdateLeadStage_read _ _ Hp) in Hall.
    destruct (updateLeadStage_agree http p w) as [Hd1 Hr1].
    destruct (updateLeadStage_agree sse p w) as [Hd2 Hr2].
    cbn [updateLeadStage_via] in *.
    apply (Hall (Stdio.updateLeadStage p) (Sse.updateLeadStage p)
             (Http.updateLeadStage (http_UpdateLeadStage p)));
      try reflexivity; congruence.
  - destruct (UpdateLeadCustomFieldsSchema args) as [|p] eqn:Hp;
      [discriminate|].
    rewrite (UpdateLeadCustomFields_read _ _ Hplain Hp) in Hall.
    destruct (updateLeadCustomFields_agree http p w) as [Hd1 Hr1];
      [apply Hfault; left; reflexivity|].
    destruct (updateLeadCustomFields_agree sse p w) as [Hd2 Hr2];
      [apply Hfault; left; reflexivity|].
    cbn [updateLeadCustomFields_via] in *.
    apply (Hall (Stdio.updateLeadCustomFields p)
             (Sse.updateLeadCustomFields p)
             (Http.updateLeadCustomFields (http_UpdateLeadCustomFields p)));
      try reflexivity; congruence.
  - destruct (CreateLeadSchema args) as [|p] eqn:Hp; [discriminate|].
    destruct (CreateLead_read _ _ Hplain Hp) as (p' & Hread & Hsame).
    rewrite Hread in Hall.
    destruct (createLead_agree http p w) as [Hd1 Hr1].
    destruct (createLead_agree sse p w) as [Hd2 Hr2].
    cbn [createLead_via] in *.
    apply (Hall (Stdio.createLead p) (Sse.createLead p) (Http.createLead p'));
      try reflexivity; rewrite Hsame; congruence.
  - destruct (SearchPriceCatalogSchema args) as [|p] eqn:Hp; [discriminate|].
    destruct (SearchPriceCatalog_read _ _ Hp) as (p' & Hread & Hsame).
    rewrite Hread in Hall.
    pose proof (searchPriceCatalog_reads stdio p w) as Hd1.
    pose proof (searchPriceCatalog_reads http p w) as Hd2.
    cbn [searchPriceCatalog_via] in *.
    apply (Hall (Stdio.searchPriceCatalog p) (Sse.searchPriceCatalog p)
             (Http.searchPriceCatalog p'));
      try reflexivity; rewrite Hsame; try congruence; reflexivity.
  - destruct (GetLeadHistorySchema args) as [|p] eqn:Hp; [discriminate|].
    rewrite (GetLeadHistory_read _ _ Hp) in Hall.
    apply (Hall (Stdio.getLeadHistory p) (Sse.getLeadHistory p)
             (Http.getLeadHistory (http_GetLeadHistory p)));
      reflexivity.
  - destruct (getPipelineStats_agree http w) as [[Hd1 Hr1] _];
      [apply Hfault; right; reflexivity|].
    destruct (getPipelineStats_agree sse w) as [[Hd2 Hr2] _];
      [apply Hfault; right; reflexivity|].
    cbn [getPipelineStats_via] in *.
    apply (Hall Stdio.getPipelineStats Sse.getPipelineStats
             Http.getPipelineStats);
      try reflexivity; congruence.
Qed.

End accepted.

(** ** What is listed and what is served *)

Lemma tool_of_name_Some (name : string) (t : Tool) :
  tool_of_name name = Some t → name = tool_name t.
Proof.
  unfold tool_of_name. intros Hh. apply head_Some_elem_of in Hh.
  apply list_elem_of_filter in Hh as [Hn _]. symmetry. exact Hn.
Qed.

(** The names a server lists are the names it serves: in the standard-stream
    and the event-stream server, those the [switch] has a case for; in the
    HTTP server, in [tools/list] and in [GET /tools], those [TOOLS] has as
    its own. *)
Theorem listed_tools_are_served (name : string) :
  (name ∈ Listing.def_name <$> Listing.stdio_tools
     ↔ is_Some (tool_of_name name)) ∧
  (name ∈ Listing.def_name <$> Listing.sse_tools
     ↔ is_Some (tool_of_name name)) ∧
  (name ∈ Listing.get_tools.*1 ↔ ∃ t, Http.TOOLS name = Http.Own t) ∧
  ∀ (pol : Policy) w,
    Http.post_mcp (pol := pol)
      {| Http.mcp_method := Some "tools/list"; Http.mcp_params := None;
         Http.mcp_tool := None; Http.mcp_arguments := None |} w
    = Some ({| Http.status := 200;
               Http.body := Http.RpcTools Listing.get_tools |}, w).
Proof.
  assert (∀ l : list string,
            l = tool_name <$> all_tools →
            name ∈ l ↔ is_Some (tool_of_name name)) as Hl.
  { intros l ->. split.
    - intros Hin. apply list_elem_of_fmap in Hin as (t & -> & _).
      rewrite tool_of_tool_name. eexists; reflexivity.
    - intros [t Ht]. apply tool_of_name_Some in Ht as ->.
      apply list_elem_of_fmap. exists t. split; [reflexivity|].
      destruct t; unfold all_tools; set_solver. }
  split; [apply Hl; reflexivity|].
  split; [apply Hl; reflexivity|].
  split; [|reflexivity].
  rewrite (Hl _ eq_refl). unfold Http.TOOLS.
  destruct (tool_of_name name) as [t|].
  - split; [intros _; exists t; reflexivity|intros _; eexists; reflexivity].
  - split; [intros [t [=]]|].
    intros [t Ht]. destruct (inherited name); discriminate.
Qed.

(** ** Advertised and enforced *)

Section advertised.
Context {fmt : Formats}.

Lemma reports_ap_l {A B} (i : ZodIssue) (f : list ZodIssue + (A → B))
  (x : list ZodIssue + A) :
  reports i f → reports i (ap f x).
Proof.
  destruct f as [e1|g], x as [e2|a]; cbn; try tauto.
  intros Hi. apply elem_of_app. left. exact Hi.
Qed.

Lemma reports_ap_r {A B} (i : ZodIssue) (f : list ZodIssue + (A → B))
  (x : list ZodIssue + A) :
  reports i x → reports i (ap f x).
Proof.
  destruct f as [e1|g], x as [e2|a]; cbn; try tauto.
  intros Hi. apply elem_of_app. right. exact Hi.
Qed.

Lemma reports_issues_of {A} (i : ZodIssue) (r : list ZodIssue + A) :
  reports i r → ∃ issues, issues_of r = Some issues ∧ i ∈ issues.
Proof. destruct r as [e|a]; cbn; [eauto|tauto]. Qed.

Lemma reports_rejected {A} (k : string) (r : list ZodIssue + A) :
  (∃ expected, reports (invalid_type [k] expected "undefined") r) →
  ∃ issues expected,
    issues_of r = Some issues ∧
    invalid_type [k] expected "undefined" ∈ issues.
Proof.
  intros [expected Hr]. apply reports_issues_of in Hr as (issues & Hi & Hin).
  exists issues, expected. split; assumption.
Qed.

Lemma issues_of_ap {A B} (f : list ZodIssue + (A → B))
  (x : list ZodIssue + A) :
  issues_of (ap f x) = None ↔ issues_of f = None ∧ issues_of x = None.
Proof.
  destruct f, x; cbn; split;
    first [ intros [H1 H2]; congruence
          | intros H; try discriminate H; split; reflexivity ].
Qed.

Ltac missing_field Hm :=
  unfold GetLeadsSchema, UpdateLeadStageSchema, UpdateLeadCustomFieldsSchema,
    CreateLeadSchema, SearchPriceCatalogSchema, GetLeadHistorySchema, z_object;
  repeat first
    [ apply reports_ap_r; unfold field, z_uuid, z_string, z_record;
      rewrite Hm; cbn; apply list_elem_of_here
    | apply reports_ap_l ].

(** Every name a listing gives as [required], in the standard-stream and in
    the event-stream server, is required by the schema the call is parsed
    with: arguments without it are rejected, with an issue at that name that
    says so. *)
Theorem required_fields_enforced (d : Listing.ToolDef) (t : Tool)
  (k : string) (m : gmap string JSON) :
  d ∈ Listing.with_schemas →
  tool_of_name (Listing.def_name d) = Some t →
  k ∈ Listing.required d →
  m !! k = None →
  ∃ issues expected,
    rejected t (Some (JObj m)) = Some issues ∧
    invalid_type [k] expected "undefined" ∈ issues.
Proof.
  intros Hd Ht Hk Hm.
  unfold Listing.with_schemas, Listing.stdio_tools, Listing.sse_tools in Hd.
  cbn [app] in Hd.
  repeat (apply elem_of_cons in Hd as [->|Hd]); [..|inversion Hd];
    injection Ht as <-;
    cbn [Listing.required Listing.def_required default from_option id] in Hk;
    repeat (apply elem_of_cons in Hk as [->|Hk]); try (inversion Hk; fail);
    cbn [rejected]; apply reports_rejected; eexists; missing_field Hm.
Qed.

(** Every property a listing has and does not give as [required] may be
    left out: arguments the schema accepts are accepted without it. *)
Theorem optional_fields_optional (d : Listing.ToolDef) (t : Tool)
  (k : string) (m : gmap string JSON) :
  d ∈ Listing.with_schemas →
  tool_of_name (Listing.def_name d) = Some t →
  k ∈ Listing.prop_name <$> Listing.def_properties d →
  k ∉ Listing.required d →
  rejected t (Some (JObj m)) = None →
  rejected t (Some (JObj (delete k m))) = None.
Proof.
  intros Hd Ht Hk Hn.
  unfold Listing.with_schemas, Listing.stdio_tools, Listing.sse_tools in Hd.
  cbn [app] in Hd.
  repeat (apply elem_of_cons in Hd as [->|Hd]); [..|inversion Hd];
    injection Ht as <-;
    cbn [Listing.required Listing.def_required default from_option id] in Hn;
    cbn [Listing.def_properties fmap list_fmap Listing.prop_name
         Listing.described Listing.typed] in Hk;
    repeat (apply elem_of_cons in Hk as [->|Hk]); try (inversion Hk; fail);
    try (exfalso; apply Hn; set_solver);
    cbn [rejected];
    unfold GetLeadsSchema, UpdateLeadStageSchema,
      UpdateLeadCustomFieldsSchema, CreateLeadSchema,
      SearchPriceCatalogSchema, GetLeadHistorySchema, z_object, field;
    rewrite !issues_of_ap;
    rewrite lookup_delete_eq, ?lookup_delete_ne by discriminate;
    intuition reflexivity.
Qed.

End advertised.

(** ** Resources *)

Lemma insert_asc_perm {A} (key : A → Z) (x : A) (l : list A) :
  Resources.insert_asc key x l ≡ₚ x :: l.
Proof.
  induction l as [|y r IH]; [reflexivity|]. cbn [Resources.insert_asc].
  destruct (key x <=? key y)%Z; [reflexivity|].
  rewrite IH. apply Permutation_swap.
Qed.

Lemma order_asc_perm {A} (key : A → Z) (l : list A) :
  Resources.order_asc key l ≡ₚ l.
Proof.
  induction l as [|x l IH]; [reflexivity|].
  unfold Resources.order_asc in *. cbn [foldr].
  rewrite insert_asc_perm, IH. reflexivity.
Qed.

Lemma insert_asc_ascending {A} (key : A → Z) (x : A) (l : list A) :
  ascending key l → ascending key (Resources.insert_asc key x l).
Proof.
  unfold ascending. induction l as [|y r IH]; intros Hs;
    cbn [Resources.insert_asc].
  - repeat constructor.
  - apply StronglySorted_inv in Hs as [Hr Hy].
    destruct (key x <=? key y)%Z eqn:Hc.
    + apply Z.leb_le in Hc. constructor; [constructor; assumption|].
      constructor; [exact Hc|].
      eapply Forall_impl; [exact Hy|]. cbn. intros b Hb. lia.
    + apply Z.leb_gt in Hc. constructor; [apply IH, Hr|].
      rewrite insert_asc_perm. constructor; [lia|exact Hy].
Qed.

Lemma order_asc_ascending {A} (key : A → Z) (l : list A) :
  ascending key (Resources.order_asc key l).
Proof.
  induction l as [|x l IH]; [constructor|].
  apply insert_asc_ascending, IH.
Qed.

(** Reading a resource of [index.ts]: a uri that is not listed is refused
    with "Resource not found" and the backend is not asked; a listed one is
    answered with one content of that uri and of the listed type, after one
    read. When the read is answered, [crm://stages] gives every stage once,
    by ascending position, and [crm://custom-fields] every field definition
    likewise. When the read fails, the handler, which does not read the
    error, answers all the same, with the [null] it got for data. *)
Theorem resources_read (table : list Resources.FieldDefinition)
  (uri : string) (w : World) :
  (uri ∉ Resources.res_uri <$> Resources.ListResources ↔
   Resources.ReadResource table uri w
     = (inl (Error ("Resource not found: " ++ uri)), w)) ∧
  (∀ r, r ∈ Resources.ListResources →
     ∃ text request,
       Resources.ReadResource table (Resources.res_uri r) w =
         (inr [ {| Resources.rc_uri := Resources.res_uri r;
                   Resources.rc_mimeType := Resources.res_mimeType r;
                   Resources.rc_text := text |} ],
          sent GET request w)) ∧
  (fault w = None →
   (∃ rows,
      Resources.ReadResource table "crm://stages" w =
        (inr [ {| Resources.rc_uri := "crm://stages";
                  Resources.rc_mimeType := "application/json";
                  Resources.rc_text := Resources.StageRows (Some rows) |} ],
         sent GET "pipeline_stages" w) ∧
      rows ≡ₚ map_to_list (pipeline_stages (db w)) ∧
      ascending (λ kv, stage_position kv.2) rows) ∧
   (∃ rows,
      Resources.ReadResource table "crm://custom-fields" w =
        (inr [ {| Resources.rc_uri := "crm://custom-fields";
                  Resources.rc_mimeType := "application/json";
                  Resources.rc_text := Resources.FieldRows (Some rows) |} ],
         sent GET "custom_field_definitions" w) ∧
      rows ≡ₚ table ∧
      ascending Resources.fd_position rows)) ∧
  (∀ message, fault w = Some message →
     Resources.ReadResource table "crm://stages" w =
       (inr [ {| Resources.rc_uri := "crm://stages";
                 Resources.rc_mimeType := "application/json";
                 Resources.rc_text := Resources.StageRows None |} ],
        sent GET "pipeline_stages" w) ∧
     Resources.ReadResource table "crm://custom-fields" w =
       (inr [ {| Resources.rc_uri := "crm://custom-fields";
                 Resources.rc_mimeType := "application/json";
                 Resources.rc_text := Resources.FieldRows None |} ],
        sent GET "custom_field_definitions" w)).
Proof.
  split; [|split; [|split]].
  - unfold Resources.ReadResource, Resources.ListResources.
    cbn [fmap list_fmap Resources.res_uri].
    destruct (decide (uri = "crm://stages")) as [->|H1].
    { split; [intros Hn; exfalso; apply Hn; set_solver|discriminate]. }
    rewrite (bool_decide_eq_false_2 _ H1).
    destruct (decide (uri = "crm://custom-fields")) as [->|H2].
    { split; [intros Hn; exfalso; apply Hn; set_solver|discriminate]. }
    rewrite (bool_decide_eq_false_2 _ H2).
    split; [reflexivity|]. intros _ Hin.
    repeat (apply elem_of_cons in Hin as [?|Hin]); [congruence..|inversion Hin].
  - intros r Hr. unfold Resources.ListResources in Hr.
    repeat (apply elem_of_cons in Hr as [->|Hr]); [..|inversion Hr];
      eexists _, _; reflexivity.
  - intros Hf. split.
    + eexists. split.
      * unfold Resources.ReadResource.
        change (bool_decide ("crm://stages" = "crm://stages")) with true.
        cbv iota. rewrite bind_await. unfold Resources.select_stages.
        rewrite (fetch_served _ _ _ _ Hf). reflexivity.
      * split; [apply order_asc_perm|apply order_asc_ascending].
    + eexists. split.
      * unfold Resources.ReadResource.
        change (bool_decide ("crm://custom-fields" = "crm://stages"))
          with false.
        change (bool_decide ("crm://custom-fields" = "crm://custom-fields"))
          with true.
        cbv iota. rewrite bind_await.
        unfold Resources.select_field_definitions.
        rewrite (fetch_served _ _ _ _ Hf). reflexivity.
      * split; [apply order_asc_perm|apply order_asc_ascending].
  - intros message Hf. unfold Resources.ReadResource.
    change (bool_decide ("crm://stages" = "crm://stages")) with true.
    change (bool_decide ("crm://custom-fields" = "crm://stages")) with false.
    change (bool_decide ("crm://custom-fields" = "crm://custom-fields"))
      with true.
    cbv iota. rewrite !bind_await.
    unfold Resources.select_stages, Resources.select_field_definitions.
    rewrite !(fetch_failed _ _ _ _ _ Hf). split; reflexivity.
Qed.

(** ** The direct form of a call over HTTP *)

Section direct.
Context {pol : Policy}.

(** [{ tool, arguments }] posted to [/mcp] runs the handler [tools/call]
    runs, on the same arguments, with the same status and the same effect
    on the backend; the result comes back as [{ success, result }]. A name
    that is no tool's, and that objects do not inherit, is refused without
    a request to the backend, in either form; the empty name is no name at
    all in the direct form. *)
Theorem direct_call_runs_the_tool (args : option JSON) (w : World) :
  (∀ t,
     Http.post_mcp (direct_call (tool_name t) args) w =
       prod_map as_direct id
         <$> Http.post_mcp (tools_call (tool_name t) args) w) ∧
  (∀ name,
     Http.TOOLS name = Http.Missing →
     Http.post_mcp (tools_call name args) w =
       Some ({| Http.status := 400;
                Http.body := Http.Refused ("Tool not found: " ++ name) |}, w) ∧
     Http.post_mcp (direct_call name args) w =
       Some ({| Http.status := 400;
                Http.body :=
                  Http.Refused (if truthy_str name
                                then "Tool not found: " ++ name
                                else "Invalid request") |}, w)).
Proof.
  split.
  - intros t. unfold Http.post_mcp.
    cbn [direct_call tools_call Http.mcp_method Http.mcp_params Http.mcp_tool
         Http.mcp_arguments Http.cp_name Http.cp_arguments].
    rewrite !bool_decide_eq_false_2 by discriminate.
    rewrite bool_decide_eq_true_2 by reflexivity.
    replace (given (Some (tool_name t))) with (Some (tool_name t))
      by (destruct t; reflexivity).
    unfold Http.call, Http.TOOLS. rewrite tool_of_tool_name.
    unfold Http.run.
    destruct (Http.handler t (or_empty args)) as [m|]; [|reflexivity].
    cbn. destruct (m w) as [[e|r] w']; reflexivity.
  - intros name Hn. unfold Http.post_mcp.
    cbn [direct_call tools_call Http.mcp_method Http.mcp_params Http.mcp_tool
         Http.mcp_arguments Http.cp_name Http.cp_arguments].
    rewrite !bool_decide_eq_false_2 by discriminate.
    rewrite bool_decide_eq_true_2 by reflexivity.
    unfold Http.call. rewrite Hn. split; [reflexivity|].
    cbn [given]. destruct (truthy_str name); [|reflexivity].
    rewrite Hn. reflexivity.
Qed.

End direct.

(** ** The statistics count every lead once *)

Lemma total_count_insert (stats : gmap string StageStats) (slug : string)
  (s : StageStats) :
  total_count (<[slug := s]> stats) =
    (stat_count s + total_count (delete slug stats))%nat.
Proof.
  unfold total_count. rewrite <- insert_delete_eq.
  rewrite map_fold_insert_L; [reflexivity| |apply lookup_delete_eq].
  intros. lia.
Qed.

Lemma total_count_lookup (stats : gmap string StageStats) (slug : string)
  (s : StageStats) :
  stats !! slug = Some s →
  total_count stats = (stat_count s + total_count (delete slug stats))%nat.
Proof.
  intros Hs. rewrite <- (insert_id stats slug s Hs) at 1.
  apply total_count_insert.
Qed.

(** One turn of the loop: no entry under a name objects inherit, and one
    more lead counted unless its bucket is such a name. *)
Lemma stats_step_counts (sel : StageSelect) (d : DB) (kv : string * Lead)
  (stats : gmap string StageStats) :
  (∀ slug, inherited slug = true → stats !! slug = None) →
  (∀ slug, inherited slug = true →
           stats_step stats (stats_row sel d kv) !! slug = None) ∧
  total_count (stats_step stats (stats_row sel d kv)) =
    ((if inherited (bucket d kv.2) then 0 else 1) + total_count stats)%nat.
Proof.
  intros Hinv. unfold stats_step. rewrite stats_row_slug.
  destruct (inherited (bucket d kv.2)) eqn:Hi.
  - rewrite (Hinv _ Hi), (Hinv _ Hi). split; [exact Hinv|reflexivity].
  - assert (∀ (s : StageStats) (stats0 : gmap string StageStats) slug,
              inherited slug = true →
              stats0 !! slug = None →
              <[bucket d kv.2 := s]> stats0 !! slug = None) as Hother.
    { intros s stats0 slug Hs H0. rewrite lookup_insert_ne; [exact H0|].
      intros Heq. congruence. }
    destruct (stats !! bucket d kv.2) as [s|] eqn:Hs.
    + rewrite Hs. split.
      * intros slug Hslug. apply Hother; [exact Hslug|apply Hinv, Hslug].
      * rewrite total_count_insert, (total_count_lookup _ _ _ Hs).
        destruct (truthy_opt _); cbn [stat_count]; lia.
    + rewrite lookup_insert_eq, insert_insert_eq. split.
      * intros slug Hslug. apply Hother; [exact Hslug|apply Hinv, Hslug].
      * rewrite total_count_insert, (delete_id _ _ Hs).
        destruct (truthy_opt _); cbn [stat_count]; lia.
Qed.

Lemma aggregate_counts (sel : StageSelect) (d : DB) (ls : list (string * Lead))
  (stats : gmap string StageStats) :
  (∀ slug, inherited slug = true → stats !! slug = None) →
  (∀ slug, inherited slug = true →
           foldl stats_step stats (stats_row sel d <$> ls) !! slug = None) ∧
  total_count (foldl stats_step stats (stats_row sel d <$> ls)) =
    (length (filter (λ kv, inherited (bucket d kv.2) = false) ls)
     + total_count stats)%nat.
Proof.
  revert stats. induction ls as [|kv ls IH]; intros stats Hinv.
  - split; [exact Hinv|reflexivity].
  - cbn [fmap list_fmap foldl].
    destruct (stats_step_counts sel d kv stats Hinv) as [Hinv' Hc].
    destruct (IH _ Hinv') as [Hinv'' Hc'].
    split; [exact Hinv''|].
    rewrite Hc', Hc, filter_cons.
    destruct (decide (inherited (bucket d kv.2) = false)) as [->|Hne].
    + cbn [length]. lia.
    + destruct (inherited (bucket d kv.2)); [lia|congruence].
Qed.

(** In each of the three servers, when the select of the leads is answered,
    the counts of [get_pipeline_stats] add up to the number of leads whose
    bucket is not a name objects inherit (each such lead is counted once, in
    one entry), and there is no entry under a name objects inherit: the
    leads of a stage with such a slug are not in the statistics. When the
    select fails, the standard-stream server throws, and the HTTP and the
    event-stream servers, which do not read the error, return statistics
    with no entry at all. *)
Theorem pipeline_stats_counts (t : Transport) (w : World) :
  (fault w = None →
   ∃ stats,
     getPipelineStats_via t w = (inr (Stats stats), sent GET "leads" w) ∧
     (∀ slug, inherited slug = true → stats !! slug = None) ∧
     total_count stats = length (counted (db w))) ∧
  (∀ message, fault w = Some message →
     getPipelineStats_via t w =
       (if t is stdio then inl (Error ("Failed to fetch stats: " ++ message))
        else inr (Stats ∅),
        sent GET "leads" w)).
Proof.
  split.
  - intros Hf. destruct (getPipelineStats_served t w Hf) as [sel ->].
    eexists. split; [reflexivity|].
    destruct (aggregate_counts sel (db w) (map_to_list (leads (db w))) ∅)
      as [Hinv Hc]; [intros slug _; apply lookup_empty|].
    split; [exact Hinv|]. rewrite Hc. unfold counted, total_count.
    rewrite map_fold_empty. lia.
  - intros message Hf. apply getPipelineStats_unread, Hf.
Qed.

(** ** Listed types *)

Section listed_types.
Context {fmt : Formats}.

Ltac wrong_type Hm Hne :=
  unfold GetLeadsSchema, UpdateLeadStageSchema, UpdateLeadCustomFieldsSchema,
    CreateLeadSchema, SearchPriceCatalogSchema, GetLeadHistorySchema, z_object;
  repeat first
    [ apply reports_ap_r;
      unfold field, z_optional, z_default, z_uuid, z_email, z_string, z_record,
        z_number;
      rewrite Hm;
      match goal with
      | v : JSON |- _ =>
          destruct v; cbn in Hne |- *; try congruence;
          try match goal with
              | |- context [PrimFloat.is_nan ?f] =>
                  destruct (PrimFloat.is_nan f); cbn; try congruence
              end;
          apply list_elem_of_here
      end
    | apply reports_ap_l ].

(** Every property of a listing, in the standard-stream and in the
    event-stream server, has the type the schema wants: arguments that give
    it a value of another type are rejected, with an issue at that name that
    tells the type wanted and the type given. *)
Theorem listed_types_enforced (d : Listing.ToolDef) (t : Tool)
  (p : Listing.Property) (m : gmap string JSON) (v : JSON) :
  d ∈ Listing.with_schemas →
  tool_of_name (Listing.def_name d) = Some t →
  p ∈ Listing.def_properties d →
  m !! Listing.prop_name p = Some v →
  parsed_type (Some v) ≠ Listing.prop_type p →
  ∃ issues,
    rejected t (Some (JObj m)) = Some issues ∧
    invalid_type [Listing.prop_name p] (Listing.prop_type p)
      (parsed_type (Some v)) ∈ issues.
Proof.
  intros Hd Ht Hp Hm Hne.
  unfold Listing.with_schemas, Listing.stdio_tools, Listing.sse_tools in Hd.
  cbn [app] in Hd.
  repeat (apply elem_of_cons in Hd as [->|Hd]); [..|inversion Hd];
    injection Ht as <-;
    cbn [Listing.def_properties] in Hp;
    repeat (apply elem_of_cons in Hp as [->|Hp]); try (inversion Hp; fail);
    cbn [Listing.prop_name Listing.prop_type Listing.described Listing.typed]
      in Hm, Hne |- *;
    cbn [rejected]; apply reports_issues_of; wrong_type Hm Hne.
Qed.

End listed_types.

(** ** The routes of the event-stream variant *)

Lemma serve_snoc (requests : list SseRoutes.Request) (req : SseRoutes.Request) :
  SseRoutes.serve (requests ++ [req])
    = (SseRoutes.route (SseRoutes.serve requests) req).2.
Proof. unfold SseRoutes.serve. rewrite foldl_app. reflexivity. Qed.

(** After any requests, [transport] is the one made on the latest
    [GET /sse]: a message posted then goes to that one, whoever posts it, and
    is answered 400 when there has been no [GET /sse] yet. *)
Theorem messages_go_to_latest_stream (requests : list SseRoutes.Request) :
  SseRoutes.serve requests = last (SseRoutes.streams requests) ∧
  (SseRoutes.route (SseRoutes.serve requests) SseRoutes.PostMessages).1 =
    match last (SseRoutes.streams requests) with
    | Some res => SseRoutes.Handled res
    | None => SseRoutes.Status 400 "No valid transport connection"
    end.
Proof.
  assert (SseRoutes.serve requests = last (SseRoutes.streams requests)) as Hs.
  { induction requests as [|req requests IH] using rev_ind; [reflexivity|].
    rewrite serve_snoc. unfold SseRoutes.streams in *. rewrite omap_app.
    destruct req; cbn [SseRoutes.route snd omap list_omap].
    - rewrite last_snoc. reflexivity.
    - rewrite app_nil_r, <- IH.
      destruct (SseRoutes.serve requests); reflexivity.
    - rewrite app_nil_r. exact IH. }
  split; [exact Hs|]. rewrite Hs.
  destruct (last (SseRoutes.streams requests)); reflexivity.
Qed.

Lemma listed_types_enforced_witness :
  ∃ d p issues,
    Listing.with_schemas !! 0%nat = Some d ∧
    Listing.def_properties d !! 2%nat = Some p ∧
    Listing.prop_name p = "limit" ∧
    Listing.prop_type p = "number" ∧
    rejected (fmt := Fixture.formats) get_leads
      (Some (JObj {[ "limit" := JStr "5" ]})) = Some issues ∧
    invalid_type ["limit"] "number" "string" ∈ issues.
Proof.
  pose proof (list_elem_of_lookup_2 Listing.with_schemas 0 _ eq_refl) as Hd.
  assert (({[ "limit" := JStr "5" ]} : gmap string JSON) !! "limit"
          = Some (JStr "5")) as Hm by (vm_compute; reflexivity).
  match type of Hd with
  | ?d ∈ _ =>
      pose proof (list_elem_of_lookup_2 (Listing.def_properties d) 2 _ eq_refl)
        as Hp;
      match type of Hp with
      | ?p ∈ _ =>
          destruct (listed_types_enforced (fmt := Fixture.formats) d get_leads
                      p _ (JStr "5") Hd eq_refl Hp Hm
                      ltac:(cbn; discriminate))
            as (issues & Hi & Hin);
          exists d, p, issues
      end
  end.
  split; [reflexivity|]. split; [reflexivity|]. split; [reflexivity|].
  split; [reflexivity|]. split; [exact Hi|exact Hin].
Defined.

(** ** A call without arguments *)

Section no_arguments.
Context {fmt : Formats} {pol : Policy}.

(** The arguments of a call may be left out. Every tool with a schema wants
    an object all the same: in the standard-stream and the event-stream
    server a call without arguments is rejected with one issue at the root,
    also for [get_leads], whose fields are all optional. The HTTP server
    takes missing arguments for the empty object and runs the handler. *)
Theorem missing_arguments_rejected (t : Tool) (w : World) :
  (t ≠ get_pipeline_stats →
   Stdio.CallToolRequest (tool_name t) None w =
     ({| content_text :=
           ErrorObject (ZodError [invalid_type [] "object" "undefined"]);
         isError := true |}, w) ∧
   Sse.CallToolRequest (tool_name t) None w =
     ({| content_text :=
           ErrorString (ZodError [invalid_type [] "object" "undefined"]);
         isError := true |}, w)) ∧
  Http.post_mcp (tools_call (tool_name t) None) w =
    Http.post_mcp (tools_call (tool_name t) (Some (JObj ∅))) w.
Proof.
  split; [|reflexivity].
  intros Ht.
  unfold Stdio.CallToolRequest, Sse.CallToolRequest, Stdio.dispatch,
    Sse.dispatch.
  rewrite tool_of_tool_name.
  destruct t; try congruence; split; reflexivity.
Qed.

End no_arguments.

(** ** The statements above, on the backends at hand *)

Lemma get_leads_rows_witness :
  ∃ rows n all,
    (getLeads_via sse (Sample.newest_of_stage "lead") Fixture.world).1
      = inr (LeadList (Some rows)) ∧
    db (getLeads_via sse (Sample.newest_of_stage "lead") Fixture.world).2
      = Fixture.backend ∧
    limit_rows 1 = Some n ∧
    rows = take (Z.to_nat n) all ∧
    descending (λ r, lead_created_at (row_lead r)) all.
Proof.
  destruct (getLeads_via sse (Sample.newest_of_stage "lead") Fixture.world)
    as [[e|r] w'] eqn:Hrun.
  - exfalso. vm_compute in Hrun. discriminate Hrun.
  - destruct (get_leads_rows sse (Sample.newest_of_stage "lead")
                Fixture.world w' r Hrun)
      as (Hdb & rows & n & all & -> & Hn & Hrows & Hsort & _).
    exists rows, n, all. split; [reflexivity|]. split; [exact Hdb|].
    split; [exact Hn|]. split; [exact Hrows|exact Hsort].
Defined.

(** The stage ["lead"] of the fixture has two of the three leads; with the
    lookup failing, the three are returned. *)
Lemma failed_lookup_drops_filter_witness :
  length (leads_in_stage Fixture.st_lead Fixture.backend) = 2%nat ∧
  (getLeads_via http (Sample.all_of_stage "lead") Fixture.world_first_fails).1
    = (getLeads_via http (no_stage_slug (Sample.all_of_stage "lead"))
         Fixture.world_first_fails).1 ∧
  ∃ rows,
    (getLeads_via http (Sample.all_of_stage "lead")
       Fixture.world_first_fails).1 = inr (LeadList (Some rows)) ∧
    row_id <$> rows = [Fixture.lead_3; Fixture.lead_2; Fixture.lead_1].
Proof.
  split; [vm_compute; reflexivity|].
  destruct (failed_lookup_drops_filter http (Sample.all_of_stage "lead")
              Fixture.world_first_fails "TypeError: fetch failed" eq_refl)
    as [Hsame _].
  split; [exact Hsame|].
  destruct (getLeads_via http (Sample.all_of_stage "lead")
              Fixture.world_first_fails) as [[e|r] w'] eqn:Hrun.
  - exfalso. vm_compute in Hrun. discriminate Hrun.
  - vm_compute in Hrun. injection Hrun as <- _.
    eexists. split; [reflexivity|]. vm_compute. reflexivity.
Defined.

Lemma search_price_catalog_rows_witness :
  ∃ rows,
    (searchPriceCatalog_via (pol := Fixture.policy) http Sample.acrylic
       Sample.world).1 = inr (Catalog (Some rows)) ∧
    rows `sublist_of` Sample.catalog ∧
    Forall (λ e, active e = true) rows ∧
    Forall (λ e, category e = "acrilica") rows.
Proof.
  destruct (searchPriceCatalog_via (pol := Fixture.policy) http
              Sample.acrylic Sample.world) as [[e|r] w'] eqn:Hrun.
  - exfalso. vm_compute in Hrun. discriminate Hrun.
  - destruct (search_price_catalog_rows (pol := Fixture.policy) http
                Sample.acrylic Sample.world w' r Hrun)
      as (_ & rows & -> & Hsub & _ & Hactive & Hcategory & _).
    exists rows. split; [reflexivity|]. split; [exact Hsub|].
    split; [exact Hactive|]. apply Hcategory. reflexivity.
Defined.

Lemma custom_fields_merged_witness :
  ∃ r w' m,
    updateLeadCustomFields_via http (Fixture.paint_update Fixture.lead_1)
      Fixture.world = (inr r, w') ∧
    leads (db w') =
      <[Fixture.lead_1 := set_custom_fields (JObj m) Fixture.ana]>
        (leads Fixture.backend) ∧
    ∀ k, m !! k =
           match ({[ "cor_desejada" := JStr "azul" ]} : gmap string JSON) !! k
           with
           | Some v => Some v
           | None => ({[ "valor_estimado" := JNum 100%float ]}
                        : gmap string JSON) !! k
           end.
Proof.
  exact (custom_fields_merged http (Fixture.paint_update Fixture.lead_1)
           Fixture.world _ eq_refl eq_refl).
Defined.

Lemma custom_fields_read_fails_witness :
  (∃ e, updateLeadCustomFields_via stdio (Fixture.paint_update Fixture.lead_1)
          Fixture.world_first_fails
          = (inl e, sent GET "leads" Fixture.world_first_fails) ∧
        LeadNotFound e) ∧
  ∃ row w',
    updateLeadCustomFields_via sse (Fixture.paint_update Fixture.lead_1)
      Fixture.world_first_fails = (inr (Success None (Some row)), w') ∧
    row_lead row =
      set_custom_fields (JObj {[ "cor_desejada" := JStr "azul" ]})
        Fixture.ana ∧
    leads (db w') =
      <[Fixture.lead_1 :=
          set_custom_fields (JObj {[ "cor_desejada" := JStr "azul" ]})
            Fixture.ana]> (leads Fixture.backend).
Proof.
  destruct (custom_fields_read_fails sse (Fixture.paint_update Fixture.lead_1)
              Fixture.world_first_fails Fixture.ana "TypeError: fetch failed"
              eq_refl eq_refl) as [Hstdio Hsse].
  split; [exact Hstdio|]. apply Hsse. discriminate.
Defined.

Lemma custom_fields_updates_compose_witness :
  db (update_fields http Fixture.lead_1 {[ "litros" := JNum 18 ]}
        (update_fields http Fixture.lead_1 {[ "cor_desejada" := JStr "azul" ]}
           Fixture.world).2).2
    = db (update_fields http Fixture.lead_1
            ({[ "litros" := JNum 18 ]} ∪ {[ "cor_desejada" := JStr "azul" ]})
            Fixture.world).2.
Proof.
  assert (served Fixture.world) as Hs by (intros n; reflexivity).
  exact (proj1 (custom_fields_updates_compose http Fixture.lead_1
                  {[ "cor_desejada" := JStr "azul" ]} {[ "litros" := JNum 18 ]}
                  Fixture.world Hs)).
Defined.

Lemma update_lead_stage_moves_witness :
  ∃ row w',
    updateLeadStage_via stdio (Sample.move Fixture.lead_1 "fechado")
      Fixture.world =
      (inr (Success (Some "Lead moved to Fechado") (Some row)), w') ∧
    row_id row = Fixture.lead_1 ∧
    row_lead row = set_stage_id Fixture.st_fechado Fixture.ana ∧
    db w' = set_leads
              (<[Fixture.lead_1 := set_stage_id Fixture.st_fechado Fixture.ana]>
                 (leads Fixture.backend))
              Fixture.backend ∧
    trace w' = [ {| call_verb := PATCH; call_table := "leads" |};
                 {| call_verb := GET; call_table := "pipeline_stages" |} ].
Proof.
  apply (update_lead_stage_moves stdio (Sample.move Fixture.lead_1 "fechado")
           Fixture.world Fixture.st_fechado
           (Fixture.stage "fechado" "Fechado" 3) Fixture.ana);
    vm_compute; reflexivity.
Defined.

Lemma update_lead_stage_missing_lead_witness :
  updateLeadStage_via stdio (Sample.move Fixture.lead_9 "fechado")
    Fixture.world =
    (inl (Error
            ("Failed to update lead: "
             ++ "JSON object requested, multiple (or no) rows returned")),
     sent PATCH "leads" (sent GET "pipeline_stages" Fixture.world)).
Proof.
  apply (update_lead_stage_missing_lead stdio
           (Sample.move Fixture.lead_9 "fechado") Fixture.world
           Fixture.st_fechado (Fixture.stage "fechado" "Fechado" 3));
    vm_compute; reflexivity.
Defined.

Lemma ambiguous_stage_is_unknown_witness :
  length (stages_by_slug "orcamento" Sample.backend) = 2%nat ∧
  ∃ e, updateLeadStage_via sse (Sample.move Fixture.lead_1 "orcamento")
         Sample.world = (inl e, sent GET "pipeline_stages" Sample.world) ∧
       StageNotFound e.
Proof.
  split; [vm_compute; reflexivity|].
  destruct (ambiguous_stage_is_unknown (pol := Fixture.policy) sse "orcamento"
              Sample.world ltac:(vm_compute; lia)) as [Hmove _].
  apply Hmove. reflexivity.
Defined.

Lemma create_lead_stores_arguments_witness :
  ∃ message row,
    (createLead_via (pol := Fixture.policy) http Sample.lead_with_fields
       Fixture.world).1 = inr (Success message (Some row)) ∧
    lead_name (row_lead row) = Some "Davi" ∧
    lead_phone (row_lead row) = Some "+55 11 90000-0000" ∧
    lead_custom_fields (row_lead row)
      = JObj {[ "cor_desejada" := JStr "verde" ]} ∧
    lead_created_at (row_lead row) = 4%Z.
Proof.
  destruct (createLead_via (pol := Fixture.policy) http
              Sample.lead_with_fields Fixture.world) as [[e|r] w'] eqn:Hrun.
  - exfalso. vm_compute in Hrun. discriminate Hrun.
  - destruct (create_lead_stores_arguments (pol := Fixture.policy) http
                Sample.lead_with_fields Fixture.world w' r Hrun)
      as (message & row & -> & _ & _ & Hname & Hphone & _ & _ & _ & Hcf & Hat).
    exists message, row. split; [reflexivity|].
    split; [exact Hname|]. split; [exact Hphone|].
    split; [exact Hcf|exact Hat].
Defined.

Lemma create_lead_consecutive_witness :
  ∃ m1 m2 row1 row2,
    (createLead_via (pol := Fixture.policy) stdio (Fixture.new_lead "lead")
       Fixture.world).1 = inr (Success m1 (Some row1)) ∧
    (createLead_via (pol := Fixture.policy) http
       (Fixture.new_lead EmptyString)
       (createLead_via (pol := Fixture.policy) stdio
          (Fixture.new_lead "lead") Fixture.world).2).1
      = inr (Success m2 (Some row2)) ∧
    row_id row1 ≠ row_id row2 ∧
    lead_position (row_lead row2) = (lead_position (row_lead row1) + 1)%Z.
Proof.
  assert (fault_at 1
            (createLead_via (pol := Fixture.policy) stdio
               (Fixture.new_lead "lead") Fixture.world).2 = None) as Hc
    by (vm_compute; reflexivity).
  destruct (createLead_via (pol := Fixture.policy) http
              (Fixture.new_lead EmptyString)
              (createLead_via (pol := Fixture.policy) stdio
                 (Fixture.new_lead "lead") Fixture.world).2)
    as [[e2|r2] w2] eqn:Hrun2;
    [exfalso; vm_compute in Hrun2; discriminate Hrun2|].
  destruct (createLead_via (pol := Fixture.policy) stdio
              (Fixture.new_lead "lead") Fixture.world) as [[e1|r1] w1]
    eqn:Hrun1; [exfalso; vm_compute in Hrun1; discriminate Hrun1|].
  destruct (create_lead_consecutive (pol := Fixture.policy) stdio http
              (Fixture.new_lead "lead") (Fixture.new_lead EmptyString)
              Fixture.world w1 w2 r1 r2 Hrun1 Hrun2 eq_refl eq_refl Hc)
    as (m1 & m2 & row1 & row2 & -> & -> & Hid & _ & Hpos & _).
  exists m1, m2, row1, row2.
  split; [reflexivity|]. split; [reflexivity|].
  split; [exact Hid|exact Hpos].
Defined.

Lemma created_lead_fields_update_witness :
  ∃ message row l,
    (createLead_via (pol := Fixture.policy) sse Sample.lead_with_fields
       Fixture.world).1 = inr (Success message (Some row)) ∧
    leads (db (update_fields stdio (row_id row)
                 {[ "cor_desejada" := JStr "azul"; "litros" := JNum 18 ]}
                 (createLead_via (pol := Fixture.policy) sse
                    Sample.lead_with_fields Fixture.world).2).2)
      !! row_id row = Some l ∧
    lead_custom_fields l
      = JObj ({[ "cor_desejada" := JStr "azul"; "litros" := JNum 18 ]}
              ∪ {[ "cor_desejada" := JStr "verde" ]}).
Proof.
  assert (fault (createLead_via (pol := Fixture.policy) sse
                   Sample.lead_with_fields Fixture.world).2 = None) as Hf
    by (vm_compute; reflexivity).
  destruct (createLead_via (pol := Fixture.policy) sse
              Sample.lead_with_fields Fixture.world) as [[e|r] w'] eqn:Hrun.
  - exfalso. vm_compute in Hrun. discriminate Hrun.
  - destruct (created_lead_fields_update (pol := Fixture.policy) sse stdio
                Sample.lead_with_fields
                {[ "cor_desejada" := JStr "azul"; "litros" := JNum 18 ]}
                Fixture.world w' r Hrun Hf)
      as (message & row & l & -> & Hl & Hcf & _).
    exists message, row, l. split; [reflexivity|].
    split; [exact Hl|exact Hcf].
Defined.

Lemma reading_tools_only_read_witness :
  get_lead_history ∈ reading_tools ∧
  only_read 2 Sample.world
    (Stdio.CallToolRequest (fmt := Fixture.formats) (pol := Fixture.policy)
       "get_lead_history" None Sample.world).2 ∧
  only_read 2 Sample.world
    (Sse.CallToolRequest (fmt := Fixture.formats) (pol := Fixture.policy)
       "get_lead_history" None Sample.world).2.
Proof.
  assert (get_lead_history ∈ reading_tools) as Ht
    by (unfold reading_tools; set_solver).
  split; [exact Ht|].
  destruct (reading_tools_only_read (fmt := Fixture.formats)
              (pol := Fixture.policy) get_lead_history None Sample.world Ht)
    as (Hstdio & Hsse & _).
  split; [exact Hstdio|exact Hsse].
Defined.

Lemma accepted_arguments_agree_witness :
  rejected (fmt := Fixture.formats) update_lead_stage Sample.move_args = None ∧
  ∃ resp w',
    Http.post_mcp (pol := Fixture.policy)
      (tools_call "update_lead_stage" Sample.move_args) Fixture.world
      = Some (resp, w') ∧
    db (Stdio.CallToolRequest (fmt := Fixture.formats)
          (pol := Fixture.policy) "update_lead_stage" Sample.move_args
          Fixture.world).2 = db w' ∧
    db (Sse.CallToolRequest (fmt := Fixture.formats) (pol := Fixture.policy)
          "update_lead_stage" Sample.move_args Fixture.world).2 = db w' ∧
    isError (Sse.CallToolRequest (fmt := Fixture.formats)
               (pol := Fixture.policy) "update_lead_stage" Sample.move_args
               Fixture.world).1 = http_failed resp.
Proof.
  assert (rejected (fmt := Fixture.formats) update_lead_stage
            Sample.move_args = None) as Hr by (vm_compute; reflexivity).
  split; [exact Hr|].
  assert (plain_fields Sample.move_args) as Hplain.
  { intros m f [= <-] Hm. vm_compute in Hm. discriminate Hm. }
  destruct (accepted_arguments_agree (fmt := Fixture.formats)
              (pol := Fixture.policy) update_lead_stage Sample.move_args
              Fixture.world Hr Hplain ltac:(intros _; reflexivity))
    as (resp & w' & Hp & Hs & He & Hf & _).
  exists resp, w'. split; [exact Hp|]. split; [exact Hs|].
  split; [exact He|exact Hf].
Defined.

Lemma unknown_tool_refused_witness :
  tool_of_name "delete_lead" = None ∧
  Stdio.CallToolRequest (fmt := Fixture.formats) (pol := Fixture.policy)
    "delete_lead" None Fixture.world =
    ({| content_text := ErrorObject (Error "Unknown tool: delete_lead");
        isError := true |}, Fixture.world) ∧
  Sse.CallToolRequest (fmt := Fixture.formats) (pol := Fixture.policy)
    "delete_lead" None Fixture.world =
    ({| content_text := ErrorString (Error "Unknown tool: delete_lead");
        isError := true |}, Fixture.world) ∧
  Http.post_mcp (pol := Fixture.policy) (tools_call "delete_lead" None)
    Fixture.world =
    Some ({| Http.status := 400;
             Http.body := Http.Refused "Tool not found: delete_lead" |},
          Fixture.world).
Proof.
  assert (tool_of_name "delete_lead" = None) as Hn by reflexivity.
  split; [exact Hn|].
  exact (unknown_tool_refused (fmt := Fixture.formats)
           (pol := Fixture.policy) "delete_lead" None Fixture.world Hn).
Defined.

Lemma required_fields_enforced_witness :
  ∃ d issues expected,
    Listing.with_schemas !! 10%nat = Some d ∧
    Listing.def_name d = "create_lead" ∧
    Listing.required d = ["name"; "vendedor_id"] ∧
    rejected (fmt := Fixture.formats) create_lead
      (Some (JObj {[ "name" := JStr "Davi" ]})) = Some issues ∧
    invalid_type ["vendedor_id"] expected "undefined" ∈ issues.
Proof.
  pose proof (list_elem_of_lookup_2 Listing.with_schemas 10 _ eq_refl) as Hd.
  assert (({[ "name" := JStr "Davi" ]} : gmap string JSON) !! "vendedor_id"
          = None) as Hm by (vm_compute; reflexivity).
  match type of Hd with
  | ?d ∈ _ =>
      destruct (required_fields_enforced (fmt := Fixture.formats) d
                  create_lead "vendedor_id"
                  ({[ "name" := JStr "Davi" ]} : gmap string JSON)
                  Hd eq_refl
                  (list_elem_of_lookup_2 (Listing.required d) 1 _ eq_refl)
                  Hm)
        as (issues & expected & Hi & Hin);
      exists d, issues, expected
  end.
  split; [reflexivity|]. split; [reflexivity|]. split; [reflexivity|].
  split; [exact Hi|exact Hin].
Defined.

Lemma optional_fields_optional_witness :
  ∃ d,
    Listing.with_schemas !! 7%nat = Some d ∧
    Listing.def_name d = "get_leads" ∧
    Listing.required d = [] ∧
    rejected (fmt := Fixture.formats) get_leads
      (Some (JObj {[ "limit" := JNum 5; "stage_slug" := JStr "lead" ]}))
      = None ∧
    rejected (fmt := Fixture.formats) get_leads
      (Some (JObj (delete "limit"
                     {[ "limit" := JNum 5; "stage_slug" := JStr "lead" ]})))
      = None.
Proof.
  pose proof (list_elem_of_lookup_2 Listing.with_schemas 7 _ eq_refl) as Hd.
  assert (rejected (fmt := Fixture.formats) get_leads
            (Some (JObj {[ "limit" := JNum 5; "stage_slug" := JStr "lead" ]}))
          = None) as Hr by (vm_compute; reflexivity).
  match type of Hd with
  | ?d ∈ _ =>
      exists d;
      pose proof (optional_fields_optional (fmt := Fixture.formats) d
                    get_leads "limit"
                    ({[ "limit" := JNum 5; "stage_slug" := JStr "lead" ]}
                       : gmap string JSON)
                    Hd eq_refl
                    (list_elem_of_lookup_2
                       (Listing.prop_name <$> Listing.def_properties d) 2 _
                       eq_refl)
                    (not_elem_of_nil _) Hr) as Hopt
  end.
  split; [reflexivity|]. split; [reflexivity|]. split; [reflexivity|].
  split; [exact Hr|exact Hopt].
Defined.
